(** * Invoice pipeline stage handlers: a shallow embedding

    The development embeds three Python modules of the pipeline:

    - [shared/utils/timing.py]            ([function_timer]),
    - [functions/data_extractor/main.py]  ([handle_invoice_classified],
                                           [_copy_to_failed_bucket]),
    - [functions/invoice_classifier/main.py] ([handle_invoice_converted]).

    Python control flow is kept as it is written: a computation is a
    function from the program state to an outcome and a new state, where an
    outcome is normal completion, a [return] statement, or a raised
    exception.  Calls to the collaborators (object storage, message bus,
    extraction, observability sink, logger) append an event to a
    chronological log; what a collaborator answers is a parameter that may
    depend on everything that happened before. *)

From Stdlib Require Import ZArith QArith Qround Lia Lqa List String Ascii Bool.
From stdpp Require Import base option list strings gmap pretty.

Import ListNotations.
Local Open Scope string_scope.
Local Open Scope Z_scope.

(* ===================================================================== *)
(** * Python values shared by all modules *)
(* ===================================================================== *)

(** A JSON value ([json.loads] results, [model_dump(mode="json")] results,
    dictionaries handed to [json.dumps]).  Objects keep their keys in
    insertion order, as Python dictionaries do. *)
#[local] Unset Elimination Schemes.
Inductive Json : Type :=
| JNull
| JBool (b : bool)
| JInt (z : Z)
| JFloat (q : Q)
| JStr (s : string)
| JArr (l : list Json)
| JObj (kv : list (string * Json)).
#[local] Set Elimination Schemes.

(** [bytes] objects. *)
Definition Bytes : Type := list Byte.byte.

(** An instance of (a subclass of) Python's [Exception]: its class name and
    its [str()]. *)
Record Exn : Type := mkExn { exn_type : string; exn_str : string }.

(** Python's truncation [int(x)] of a float towards zero; floats are carried
    as exact rationals.  A binary64 product can round up to the next whole
    number where the exact one stays below it, so the value computed here
    and the one the interpreter stores can differ by one at such a
    boundary; sign and monotonicity are the same. *)
Definition py_int (x : Q) : Z := Z.quot (Qnum x) (Z.pos (Qden x)).

(** [d[k]] on a JSON value: [KeyError] on a missing key, [TypeError] when the
    value is not a dictionary. *)
Fixpoint assoc (k : string) (kv : list (string * Json)) : option Json :=
  match kv with
  | [] => None
  | (k', v) :: kv' => if String.eqb k k' then Some v else assoc k kv'
  end.

(** [repr(k)] of a string without quotes, backslashes or control
    characters, as are the keys the handlers use. *)
Definition py_repr (k : string) : string := "'" ++ k ++ "'".

(** The [str()] of a [KeyError] is the [repr] of the key; the text of the
    [TypeError] depends on the type that was indexed with a string. *)
Definition py_getitem (d : Json) (k : string) : Exn + Json :=
  match d with
  | JObj kv =>
      match assoc k kv with
      | Some v => inr v
      | None => inl (mkExn "KeyError" (py_repr k))
      end
  | JArr _ =>
      inl (mkExn "TypeError" "list indices must be integers or slices, not str")
  | JStr _ =>
      inl (mkExn "TypeError" "string indices must be integers, not 'str'")
  | JNull => inl (mkExn "TypeError" "'NoneType' object is not subscriptable")
  | JBool _ => inl (mkExn "TypeError" "'bool' object is not subscriptable")
  | JInt _ => inl (mkExn "TypeError" "'int' object is not subscriptable")
  | JFloat _ => inl (mkExn "TypeError" "'float' object is not subscriptable")
  end.

(** [s.split(sep)] for a one-character separator: the list of the maximal
    separator-free segments, never empty. *)
Fixpoint split (sep : ascii) (s : string) : list string :=
  match s with
  | EmptyString => [EmptyString]
  | String c s' =>
      if Ascii.eqb c sep then EmptyString :: split sep s'
      else match split sep s' with
           | [] => [String c EmptyString]
           | seg :: segs => String c seg :: segs
           end
  end.

(** [l[-1]]: the last element, [IndexError] on an empty list. *)
Definition py_last (l : list string) : Exn + string :=
  match l with
  | [] => inl (mkExn "IndexError" "list index out of range")
  | x :: l' => inr (List.last l' x)
  end.

(** Truthiness of an optional string: [None] and [""] are falsy. *)
Definition truthy (x : option string) : bool :=
  match x with
  | None => false
  | Some s => negb (String.eqb s "")
  end.

(** [x or default] on an optional string: [None] and the empty string are
    falsy. *)
Definition str_or (x : option string) (default : string) : string :=
  if truthy x then match x with Some s => s | None => default end
  else default.

(* ===================================================================== *)
(** * Outcomes and the state-and-exception monad *)
(* ===================================================================== *)

Inductive Outcome (A : Type) : Type :=
| Normal (a : A)      (* the block ran to its end *)
| Returned            (* a [return] statement left the function *)
| Raised (e : Exn).   (* an exception is propagating *)

Arguments Normal {A} a.
Arguments Returned {A}.
Arguments Raised {A} e.

Definition M (S A : Type) : Type := S -> Outcome A * S.

Definition ret {S A} (a : A) : M S A := fun s => (Normal a, s).

Definition bind {S A B} (m : M S A) (k : A -> M S B) : M S B :=
  fun s =>
    match m s with
    | (Normal a, s') => k a s'
    | (Returned, s') => (Returned, s')
    | (Raised e, s') => (Raised e, s')
    end.

Definition raise {S A} (e : Exn) : M S A := fun s => (Raised e, s).

Definition return_ {S A} : M S A := fun s => (Returned, s).

Definition modify {S} (f : S -> S) : M S unit := fun s => (Normal tt, f s).

(** The result of a call that either raises or returns a value. *)
Definition of_result {S A} (r : Exn + A) : M S A :=
  match r with
  | inl e => raise e
  | inr a => ret a
  end.

(** [try: body  except Exception as e: handler e]. *)
Definition try_except {S A} (body : M S A) (handler : Exn -> M S A) : M S A :=
  fun s =>
    match body s with
    | (Raised e, s') => handler e s'
    | r => r
    end.

(** [try: body  finally: fin].  The [finally] clause runs on every exit of
    the body; the body's outcome is resumed unless the clause itself leaves
    abnormally. *)
Definition try_finally {S A} (body : M S A) (fin : M S unit) : M S A :=
  fun s =>
    let '(o, s1) := body s in
    match fin s1 with
    | (Normal _, s2) => (o, s2)
    | (Returned, s2) => (Returned, s2)
    | (Raised e, s2) => (Raised e, s2)
    end.

Declare Scope py_scope.
Delimit Scope py_scope with py.
Notation "x <- m ; k" := (bind m (fun x => k))
  (at level 20, m at level 100, k at level 200, only parsing)
  : py_scope.
Notation "m ;; k" := (bind m (fun _ => k))
  (at level 100, k at level 200, only parsing, right associativity)
  : py_scope.

(* ===================================================================== *)
(** * Messages, results and configuration *)
(* ===================================================================== *)

(** The vendor enumeration is declared in [shared/schemas]; the handlers
    only copy a member around and log its [.value], so a member is
    identified with that string. *)
Definition VendorType : Type := string.

(** The validated invoice model is declared in [shared/schemas]; the
    handlers read its [invoice_id] and its [model_dump(mode="json")]. *)
Record Invoice : Type := mkInvoice {
  invoice_id : string;
  invoice_dump : Json
}.

Module InvoiceConvertedMessage.
Record t : Type := mk {
    source_file : string;
    converted_files : list string;
    page_count : Z
  }.
End InvoiceConvertedMessage.

Module InvoiceClassifiedMessage.
Record t : Type := mk {
    source_file : string;
    converted_files : list string;
    vendor_type : VendorType;
    quality_score : Q;
    archived_to : string
  }.
End InvoiceClassifiedMessage.

Module InvoiceExtractedMessage.
Record t : Type := mk {
    trace_id : string;
    session_id : string;
    parent_span_id : string;
    source_file : string;
    vendor_type : VendorType;
    extraction_model : string;
    extraction_latency_ms : Z;
    confidence_score : Q;
    extracted_data : Json;
    prompt_name : string;
    prompt_version : string
  }.
End InvoiceExtractedMessage.

Module TraceContext.
Record t : Type := mk {
    trace_id : string;
    session_id : string;
    parent_span_id : string
  }.
End TraceContext.

(** What [extract_invoice] returns. *)
Module ExtractionResult.
Record t : Type := mk {
    success : bool;
    invoice : option Invoice;
    error : option string;
    provider : string;
    latency_ms : Z;
    confidence : Q;
    prompt_name : string;
    prompt_version : string
  }.
End ExtractionResult.

(** What [classify_vendor] returns. *)
Module ClassificationResult.
Record t : Type := mk {
    vendor_type : VendorType;
    confidence : Q;
    detection_method : string;
    matched_pattern : option string
  }.
End ClassificationResult.

(** The fields of [get_config()] that the two handlers read. *)
Record Config : Type := mkConfig {
  project_id : string;
  region : string;
  gemini_model : string;
  openrouter_api_key : option string;
  langfuse_enabled : bool;
  archive_bucket : string;
  failed_bucket : string;
  classified_topic : string;
  extracted_topic : string
}.

(* ===================================================================== *)
(** * Events, the world and the collaborators *)
(* ===================================================================== *)

Inductive Level : Type := DEBUG | INFO | WARNING | ERROR | EXCEPTION.

(** Values of the [extra] fields of a log record. *)
Inductive LogVal : Type :=
| LNone
| LStr (s : string)
| LInt (z : Z)
| LFloat (q : Q)
| LStrs (l : list string)
| LScores (d : gmap string Q).

Definition LOptStr (o : option string) : LogVal :=
  match o with
  | Some s => LStr s
  | None => LNone
  end.

(** One call on a collaborator, with its arguments and with what came back
    (an exception or a value). *)
Inductive Event : Type :=
| ELog (lvl : Level) (msg : string) (extra : list (string * LogVal))
| EStorageRead (bucket path : string) (res : Exn + Bytes)
| EStorageCopy (src_bucket src_path dst_bucket dst_path : string)
               (res : Exn + string)
| EStorageWrite (bucket path : string) (data : Bytes) (content_type : string)
                (res : option Exn)
| EPublish (topic : string) (payload : Json) (res : option Exn)
| EExtract (images : list Bytes) (vendor : VendorType) (fallback : bool)
           (res : Exn + ExtractionResult.t)
| EScoreTrace (trace_id : string) (scores : gmap string Q)
              (comments : gmap string string) (res : option Exn)
| EFlush (res : option Exn).

(** A timing handle is a reference to a dictionary on the heap: the object
    the context manager yields and later writes to is the same object. *)
Abbreviation ref := positive.

Record World : Type := mkWorld {
  log : list Event;                      (* chronological, oldest first *)
  heap : gmap ref (gmap string Z);       (* the dictionaries that are alive *)
  now : Q                                (* [time.perf_counter()], seconds *)
}.

(** The collaborators.  Stateful ones receive the log of everything that
    happened so far and so may answer differently from call to call.  The
    handlers build their adapters from [get_config()] before the [with]
    block (lines 63-81 and 45-47): that part is [Startup] and
    [EntryPoints] below.  An [Env] is the adapters once they exist; whether
    the fallback adapter exists is decided from the configuration at the
    extraction call. *)
Record Env : Type := mkEnv {
  (* standard library *)
  b64decode : Json -> Exn + Bytes;
  json_loads : Bytes -> Exn + Json;
  json_dumps : Json -> string;
  (* shared.schemas.messages *)
  validate_converted : Json -> Exn + InvoiceConvertedMessage.t;
  validate_classified : Json -> Exn + InvoiceClassifiedMessage.t;
  dump_classified : InvoiceClassifiedMessage.t -> Json;
  dump_extracted : InvoiceExtractedMessage.t -> Json;
  (* shared.utils.gcs *)
  parse_gcs_uri : string -> Exn + (string * string);
  (* shared.adapters: storage, messaging, tracing, observer *)
  storage_read : list Event -> string -> string -> Exn + Bytes;
  storage_copy :
    list Event -> string -> string -> string -> string -> Exn + string;
  storage_write :
    list Event -> string -> string -> Bytes -> string -> option Exn;
  publish : list Event -> string -> Json -> option Exn;
  trace_from_message : InvoiceClassifiedMessage.t -> Exn + TraceContext.t;
  is_enabled : bool;
  score_trace :
    list Event -> string -> gmap string Q -> gmap string string -> option Exn;
  flush : list Event -> option Exn;
  (* data_extractor.extractor *)
  extract_invoice :
    list Event -> list Bytes -> VendorType -> bool -> Exn + ExtractionResult.t;
  calculate_extraction_scores : Invoice -> Exn + gmap string Q;
  get_score_comments : Invoice -> gmap string Q -> Exn + gmap string string;
  (* invoice_classifier.classifier *)
  validate_all_images : list Bytes -> Exn + (bool * Q * list string);
  classify_vendor : string -> list string -> Exn + ClassificationResult.t;
  (* seconds that pass on the performance counter during the call that
     produced the last event of the given log *)
  call_time : list Event -> Q
}.

(** A program state that contains the world (a handler's frame does). *)
Class HasWorld (S : Type) : Type := {
  world_of : S -> World;
  with_world : World -> S -> S;
  world_of_with_world : forall w s, world_of (with_world w s) = w;
  with_world_world_of : forall s, with_world (world_of s) s = s;
  with_world_twice : forall w w' s, with_world w (with_world w' s) = with_world w s
}.

#[export] Instance World_HasWorld : HasWorld World := {|
  world_of := fun w => w;
  with_world := fun w _ => w;
  world_of_with_world := fun _ _ => eq_refl;
  with_world_world_of := fun _ => eq_refl;
  with_world_twice := fun _ _ _ => eq_refl
|}.

(* ===================================================================== *)
(** * Primitive operations on the world *)
(* ===================================================================== *)

Section Primitives.
Context {S : Type} `{HasWorld S}.
Variable env : Env.

Local Open Scope py_scope.

(** Appending an event; the clock advances by the time the call took. *)
Definition record_event (ev : Event) (w : World) : World :=
  mkWorld (log w ++ [ev]) (heap w) (now w + call_time env (log w ++ [ev]))%Q.

Definition emit (ev : Event) : M S unit :=
  modify (fun s => with_world (record_event ev (world_of s)) s).

(** A call that returns a value or raises, answered from the history. *)
Definition call {A} (answer : list Event -> Exn + A) (mk : Exn + A -> Event)
  : M S A :=
  fun s =>
    let r := answer (log (world_of s)) in
    bind (emit (mk r)) (fun _ => of_result r) s.

(** A call that returns [None] or raises. *)
Definition call_unit (answer : list Event -> option Exn)
  (mk : option Exn -> Event) : M S unit :=
  fun s =>
    let r := answer (log (world_of s)) in
    bind (emit (mk r))
         (fun _ => match r with Some e => raise e | None => ret tt end) s.

(** [logger.<level>(msg, extra=...)]. *)
Definition logger (lvl : Level) (msg : string)
  (extra : list (string * LogVal)) : M S unit :=
  emit (ELog lvl msg extra).

(** [time.perf_counter()]. *)
Definition perf_counter : M S Q := fun s => (Normal (now (world_of s)), s).

(** [{}]: a new, empty dictionary object. *)
Definition new_dict : M S ref :=
  fun s =>
    let w := world_of s in
    let r := fresh (dom (heap w)) in
    (Normal r, with_world (mkWorld (log w) (<[r := ∅]> (heap w)) (now w)) s).

(** [d[k] = v] on the dictionary object [d]. *)
Definition dict_setitem (d : ref) (k : string) (v : Z) : M S unit :=
  modify (fun s =>
    let w := world_of s in
    with_world
      (mkWorld (log w)
               (<[d := <[k := v]> (default ∅ (heap w !! d))]> (heap w))
               (now w)) s).

(** [d[k]] on the dictionary object [d]; [KeyError] when the key is absent. *)
Definition dict_getitem (d : ref) (k : string) : M S Z :=
  fun s =>
    match default ∅ (heap (world_of s) !! d) !! k with
    | Some v => (Normal v, s)
    | None => (Raised (mkExn "KeyError" k), s)
    end.

(* --------------------------------------------------------------------- *)
(** ** shared/utils/timing.py *)
(* --------------------------------------------------------------------- *)

(** The generator behind [function_timer] up to its [yield]:
<<
    metrics: dict[str, int] = {}
    start = time.perf_counter()
>> *)
Definition function_timer_enter : M S (ref * Q) :=
  metrics <- new_dict ;
  start <- perf_counter ;
  ret (metrics, start).

(** Its [finally] clause:
<<
    elapsed_ms = int((time.perf_counter() - start) * 1000)
    metrics["latency_ms"] = elapsed_ms
>> *)
Definition function_timer_exit (metrics : ref) (start : Q) : M S unit :=
  stop <- perf_counter ;
  let elapsed_ms := py_int ((stop - start) * (1000 # 1))%Q in
  dict_setitem metrics "latency_ms" elapsed_ms.

(** [with function_timer() as timing: body].  The name [timing] stays bound
    after the block, so the handle is returned next to the body's value. *)
Definition function_timer {A} (body : ref -> M S A) : M S (ref * A) :=
  entered <- function_timer_enter ;
  let '(metrics, start) := entered in
  a <- try_finally (body metrics) (function_timer_exit metrics start) ;
  ret (metrics, a).

(* --------------------------------------------------------------------- *)
(** ** functions/data_extractor/main.py: the failure router *)
(* --------------------------------------------------------------------- *)

(** [_copy_to_failed_bucket(storage, config, source_file, error_message)],
    lines 257-297.  The whole body sits in one [try]; the [except Exception]
    clause logs and swallows. *)
Definition _copy_to_failed_bucket (config : Config)
  (source_file error_message : string) : M S unit :=
  try_except
    (parsed <- of_result (parse_gcs_uri env source_file) ;
     let '(source_bucket, source_path) := parsed in
     filename <- of_result (py_last (split "/" source_path)) ;
     _copied <- call
       (fun h => storage_copy env h source_bucket source_path
                   (failed_bucket config) filename)
       (EStorageCopy source_bucket source_path (failed_bucket config)
                     filename) ;
     let error_path := filename ++ ".error.json" in
     let error_data :=
       list_byte_of_string
         (json_dumps env (JObj [("source_file", JStr source_file);
                                ("error", JStr error_message)])) in
     call_unit
       (fun h => storage_write env h (failed_bucket config) error_path
                   error_data "application/json")
       (EStorageWrite (failed_bucket config) error_path error_data
                      "application/json") ;;
     logger INFO "Copied failed invoice to failed bucket"
       [("source_file", LStr source_file);
        ("failed_uri",
         LStr ("gs://" ++ failed_bucket config ++ "/" ++ filename))])
    (fun e =>
       logger ERROR "Failed to copy to failed bucket"
         [("source_file", LStr source_file);
          ("error", LStr (exn_str e))]).

End Primitives.

(** The CloudEvent handed to an entry point; only its [.data] is read. *)
Record CloudEvent : Type := mkCloudEvent { data : Json }.

(** [base64.b64decode(cloud_event.data["message"]["data"])] followed by
    [json.loads]: the decoded body of the bus message. *)
Definition decode_body {S} (env : Env) (cloud_event : CloudEvent) : M S Json :=
  (envelope <- of_result (py_getitem (data cloud_event) "message") ;
   encoded <- of_result (py_getitem envelope "data") ;
   message_data <- of_result (b64decode env encoded) ;
   of_result (json_loads env message_data))%py.

(* ===================================================================== *)
(** * functions/data_extractor/main.py *)
(* ===================================================================== *)

Module DataExtractor.

(** The local variables of [handle_invoice_classified] that are assigned
    inside the [try] and read after it ([message] and [trace_context] are
    only read inside the [try], after their assignment, and are bound by
    name below). *)
Record Frame : Type := mkFrame {
  world : World;
  source_file : string;
  total_input_bytes : Z;
  exception_to_raise : option Exn;
  result : option ExtractionResult.t
}.

#[export] Instance Frame_HasWorld : HasWorld Frame := {|
  world_of := world;
  with_world := fun w f =>
    mkFrame w (source_file f) (total_input_bytes f) (exception_to_raise f)
            (result f);
  world_of_with_world := fun _ _ => eq_refl;
  with_world_world_of := fun f => match f with mkFrame _ _ _ _ _ => eq_refl end;
  with_world_twice := fun _ _ _ => eq_refl
|}.

Definition set_source_file (v : string) : M Frame unit :=
  modify (fun f =>
    mkFrame (world f) v (total_input_bytes f) (exception_to_raise f) (result f)).

Definition set_total_input_bytes (v : Z) : M Frame unit :=
  modify (fun f =>
    mkFrame (world f) (source_file f) v (exception_to_raise f) (result f)).

Definition set_exception_to_raise (v : option Exn) : M Frame unit :=
  modify (fun f =>
    mkFrame (world f) (source_file f) (total_input_bytes f) v (result f)).

Definition set_result (v : option ExtractionResult.t) : M Frame unit :=
  modify (fun f =>
    mkFrame (world f) (source_file f) (total_input_bytes f)
            (exception_to_raise f) v).

Definition get {A} (proj : Frame -> A) : M Frame A :=
  fun f => (Normal (proj f), f).

(** Lines 83-88: the locals before the [with] block. *)
Definition initial_frame (w : World) : Frame := mkFrame w "unknown" 0 None None.

(** The log line of lines 152-165. *)
Definition extraction_successful_line (source_file : string)
  (message : InvoiceClassifiedMessage.t) (trace_context : TraceContext.t)
  (r : ExtractionResult.t) : Event :=
  ELog INFO "Extraction successful"
    [("source_file", LStr source_file);
     ("vendor_type", LStr (InvoiceClassifiedMessage.vendor_type message));
     ("provider", LStr (ExtractionResult.provider r));
     ("llm_latency_ms", LInt (ExtractionResult.latency_ms r));
     ("confidence", LFloat (ExtractionResult.confidence r));
     ("invoice_id",
      LOptStr (option_map invoice_id (ExtractionResult.invoice r)));
     ("prompt_name", LStr (ExtractionResult.prompt_name r));
     ("prompt_version", LStr (ExtractionResult.prompt_version r));
     ("trace_id", LStr (TraceContext.trace_id trace_context))].

(** The log line of lines 138-146. *)
Definition extraction_failed_line (source_file : string)
  (r : ExtractionResult.t) : Event :=
  ELog ERROR "Extraction failed - moving to failed bucket"
    [("source_file", LStr source_file);
     ("error", LOptStr (ExtractionResult.error r));
     ("provider", LStr (ExtractionResult.provider r));
     ("llm_latency_ms", LInt (ExtractionResult.latency_ms r))].

(** The timing handle of a call that starts in world [w], and the frame in
    which the [try] starts: the initial locals and the new, empty handle. *)
Definition timing_handle (w : World) : ref := fresh (dom (heap w)).

Definition entry_frame (w : World) : Frame :=
  mkFrame (mkWorld (log w) (<[timing_handle w := ∅]> (heap w)) (now w))
          "unknown" 0 None None.

Section Handler.
Variable env : Env.
Variable config : Config.

Local Open Scope py_scope.

(** Lines 92-110: decode, validate, derive the trace context, log. *)
Definition receive (cloud_event : CloudEvent)
  : M Frame (InvoiceClassifiedMessage.t * TraceContext.t) :=
  raw_message <- decode_body env cloud_event ;
  message <- of_result (validate_classified env raw_message) ;
  set_source_file (InvoiceClassifiedMessage.source_file message) ;;
  trace_context <- of_result (trace_from_message env message) ;
  source_file <- get source_file ;
  logger env INFO "Processing classified invoice"
    [("source_file", LStr source_file);
     ("vendor_type", LStr (InvoiceClassifiedMessage.vendor_type message));
     ("quality_score", LFloat (InvoiceClassifiedMessage.quality_score message));
     ("page_count",
      LInt (Z.of_nat
              (length (InvoiceClassifiedMessage.converted_files message))));
     ("trace_id", LStr (TraceContext.trace_id trace_context));
     ("session_id", LStr (TraceContext.session_id trace_context))] ;;
  ret (message, trace_context).

(** Lines 114-118: the body of the download loop, once per remaining URI. *)
Fixpoint download_loop (uris : list string) (images_data : list Bytes)
  : M Frame (list Bytes) :=
  match uris with
  | [] => ret images_data
  | png_uri :: uris' =>
      parsed <- of_result (parse_gcs_uri env png_uri) ;
      let '(bucket, path) := parsed in
      png_data <- call env (fun h => storage_read env h bucket path)
                       (EStorageRead bucket path) ;
      total <- get total_input_bytes ;
      set_total_input_bytes (total + Z.of_nat (length png_data)) ;;
      download_loop uris' (images_data ++ [png_data])
  end.

(** Lines 112-127. *)
Definition download (message : InvoiceClassifiedMessage.t)
  : M Frame (list Bytes) :=
  set_total_input_bytes 0 ;;
  images_data <-
    download_loop (InvoiceClassifiedMessage.converted_files message) [] ;
  source_file <- get source_file ;
  total <- get total_input_bytes ;
  logger env INFO "Downloaded all images"
    [("source_file", LStr source_file);
     ("file_count", LInt (Z.of_nat (length images_data)));
     ("total_input_bytes", LInt total)] ;;
  ret images_data.

(** Lines 76-81 and 129-135: the fallback adapter exists when an API key is
    configured; [extract_invoice] is called with both adapters. *)
Definition run_extraction (images_data : list Bytes)
  (message : InvoiceClassifiedMessage.t) : M Frame ExtractionResult.t :=
  r <- call env
         (fun h => extract_invoice env h images_data
                     (InvoiceClassifiedMessage.vendor_type message)
                     (truthy (openrouter_api_key config)))
         (EExtract images_data (InvoiceClassifiedMessage.vendor_type message)
                   (truthy (openrouter_api_key config))) ;
  set_result (Some r) ;;
  ret r.

(** Lines 137-150: the branch taken when [not result.success]. *)
Definition on_extraction_failed (r : ExtractionResult.t) : M Frame unit :=
  source_file <- get source_file ;
  logger env ERROR "Extraction failed - moving to failed bucket"
    [("source_file", LStr source_file);
     ("error", LOptStr (ExtractionResult.error r));
     ("provider", LStr (ExtractionResult.provider r));
     ("llm_latency_ms", LInt (ExtractionResult.latency_ms r))] ;;
  _copy_to_failed_bucket env config source_file
    (str_or (ExtractionResult.error r) "Unknown error") ;;
  call_unit env (flush env) EFlush ;;
  return_.

(** Lines 167-187: scores are attached to the trace when an invoice was
    produced and the observer is enabled. *)
Definition annotate_scores (r : ExtractionResult.t)
  (trace_context : TraceContext.t) : M Frame unit :=
  match ExtractionResult.invoice r with
  | Some invoice =>
      if is_enabled env then
        scores <- of_result (calculate_extraction_scores env invoice) ;
        let extraction_scores :=
          <["extraction_confidence" := ExtractionResult.confidence r]> scores in
        comments <- of_result (get_score_comments env invoice extraction_scores) ;
        let score_comments :=
          <["extraction_confidence" :=
              "Provider: " ++ ExtractionResult.provider r ++ ", latency: "
              ++ pretty (ExtractionResult.latency_ms r) ++ "ms"]> comments in
        call_unit env
          (fun h => score_trace env h (TraceContext.trace_id trace_context)
                      extraction_scores score_comments)
          (EScoreTrace (TraceContext.trace_id trace_context)
                       extraction_scores score_comments) ;;
        logger env DEBUG "Added LangFuse scores"
          [("trace_id", LStr (TraceContext.trace_id trace_context));
           ("scores", LScores extraction_scores)]
      else ret tt
  | None => ret tt
  end.

(** Lines 189-201: the outgoing message. *)
Definition extracted_message (source_file : string)
  (message : InvoiceClassifiedMessage.t) (trace_context : TraceContext.t)
  (r : ExtractionResult.t) : InvoiceExtractedMessage.t :=
  InvoiceExtractedMessage.mk
    (TraceContext.trace_id trace_context)
    (TraceContext.session_id trace_context)
    (TraceContext.parent_span_id trace_context)
    source_file
    (InvoiceClassifiedMessage.vendor_type message)
    (if String.eqb (ExtractionResult.provider r) "gemini"
     then "gemini-2.5-flash" else "openrouter")
    (ExtractionResult.latency_ms r)
    (ExtractionResult.confidence r)
    (match ExtractionResult.invoice r with
     | Some invoice => invoice_dump invoice
     | None => JObj []
     end)
    (ExtractionResult.prompt_name r)
    (ExtractionResult.prompt_version r).

(** Lines 152-208: the rest of the [try] body when [result.success]. *)
Definition on_extraction_succeeded (message : InvoiceClassifiedMessage.t)
  (trace_context : TraceContext.t) (r : ExtractionResult.t) : M Frame unit :=
  source_file <- get source_file ;
  logger env INFO "Extraction successful"
    [("source_file", LStr source_file);
     ("vendor_type", LStr (InvoiceClassifiedMessage.vendor_type message));
     ("provider", LStr (ExtractionResult.provider r));
     ("llm_latency_ms", LInt (ExtractionResult.latency_ms r));
     ("confidence", LFloat (ExtractionResult.confidence r));
     ("invoice_id",
      LOptStr (option_map invoice_id (ExtractionResult.invoice r)));
     ("prompt_name", LStr (ExtractionResult.prompt_name r));
     ("prompt_version", LStr (ExtractionResult.prompt_version r));
     ("trace_id", LStr (TraceContext.trace_id trace_context))] ;;
  annotate_scores r trace_context ;;
  let extracted := extracted_message source_file message trace_context r in
  call_unit env
    (fun h => publish env h (extracted_topic config)
                (dump_extracted env extracted))
    (EPublish (extracted_topic config) (dump_extracted env extracted)) ;;
  call_unit env (flush env) EFlush.

(** Lines 92-135: everything up to and including the extraction call. *)
Definition reach_result (cloud_event : CloudEvent)
  : M Frame (InvoiceClassifiedMessage.t * TraceContext.t * ExtractionResult.t)
  :=
  received <- receive cloud_event ;
  let '(message, trace_context) := received in
  images_data <- download message ;
  r <- run_extraction images_data message ;
  ret (message, trace_context, r).

(** Lines 92-208: the body of the [try]. *)
Definition main_steps (cloud_event : CloudEvent) : M Frame unit :=
  reached <- reach_result cloud_event ;
  let '(message, trace_context, r) := reached in
  if negb (ExtractionResult.success r) then on_extraction_failed r
  else on_extraction_succeeded message trace_context r.

(** Lines 210-212: the [except Exception as e] clause. *)
Definition on_exception (e : Exn) : M Frame unit :=
  set_exception_to_raise (Some e) ;;
  call_unit env (flush env) EFlush.

(** Lines 214-238: what follows the [with] block. *)
Definition after_timer (timing : ref) : M Frame unit :=
  pending <- get exception_to_raise ;
  match pending with
  | Some e =>
      source_file <- get source_file ;
      latency_ms <- dict_getitem timing "latency_ms" ;
      total <- get total_input_bytes ;
      logger env EXCEPTION "Extraction processing failed"
        [("error", LStr (exn_str e));
         ("error_type", LStr (exn_type e));
         ("source_file", LStr source_file);
         ("latency_ms", LInt latency_ms);
         ("total_input_bytes", LInt total)] ;;
      raise e
  | None =>
      source_file <- get source_file ;
      r <- get result ;
      latency_ms <- dict_getitem timing "latency_ms" ;
      total <- get total_input_bytes ;
      logger env INFO "Extraction complete - published event"
        [("source_file", LStr source_file);
         ("invoice_id",
          LOptStr
            (match r with
             | Some r' => option_map invoice_id (ExtractionResult.invoice r')
             | None => None
             end));
         ("topic", LStr (extracted_topic config));
         ("latency_ms", LInt latency_ms);
         ("llm_latency_ms",
          LInt (match r with
                | Some r' => ExtractionResult.latency_ms r'
                | None => 0
                end));
         ("total_input_bytes", LInt total)]
  end.

(** Lines 90-238 on a frame. *)
Definition handler_body (cloud_event : CloudEvent) : M Frame unit :=
  timed <- function_timer
             (fun _timing =>
                try_except (main_steps cloud_event) on_exception) ;
  after_timer (fst timed).

(** [handle_invoice_classified(cloud_event)] from line 83 on, for the
    configuration and the adapters that lines 63-81 have produced.  A
    [return] inside the body ends the call normally.  The function from its
    first line is [EntryPoints.handle_invoice_classified]. *)
Definition handle_invoice_classified (cloud_event : CloudEvent)
  : M World unit :=
  fun w =>
    match handler_body cloud_event (initial_frame w) with
    | (Raised e, f) => (Raised e, world f)
    | (_, f) => (Normal tt, world f)
    end.

End Handler.
End DataExtractor.

(* ===================================================================== *)
(** * functions/invoice_classifier/main.py *)
(* ===================================================================== *)

Module InvoiceClassifier.

(** The local variables of [handle_invoice_converted] that are assigned
    inside the [try] and read after it. *)
Record Frame : Type := mkFrame {
  world : World;
  source_file : string;
  total_input_bytes : Z;
  exception_to_raise : option Exn;
  classification : option ClassificationResult.t;
  avg_score : Q
}.

#[export] Instance Frame_HasWorld : HasWorld Frame := {|
  world_of := world;
  with_world := fun w f =>
    mkFrame w (source_file f) (total_input_bytes f) (exception_to_raise f)
            (classification f) (avg_score f);
  world_of_with_world := fun _ _ => eq_refl;
  with_world_world_of :=
    fun f => match f with mkFrame _ _ _ _ _ _ => eq_refl end;
  with_world_twice := fun _ _ _ => eq_refl
|}.

Definition set_source_file (v : string) : M Frame unit :=
  modify (fun f =>
    mkFrame (world f) v (total_input_bytes f) (exception_to_raise f)
            (classification f) (avg_score f)).

Definition set_total_input_bytes (v : Z) : M Frame unit :=
  modify (fun f =>
    mkFrame (world f) (source_file f) v (exception_to_raise f)
            (classification f) (avg_score f)).

Definition set_exception_to_raise (v : option Exn) : M Frame unit :=
  modify (fun f =>
    mkFrame (world f) (source_file f) (total_input_bytes f) v
            (classification f) (avg_score f)).

Definition set_classification (v : option ClassificationResult.t)
  : M Frame unit :=
  modify (fun f =>
    mkFrame (world f) (source_file f) (total_input_bytes f)
            (exception_to_raise f) v (avg_score f)).

Definition set_avg_score (v : Q) : M Frame unit :=
  modify (fun f =>
    mkFrame (world f) (source_file f) (total_input_bytes f)
            (exception_to_raise f) (classification f) v).

Definition get {A} (proj : Frame -> A) : M Frame A :=
  fun f => (Normal (proj f), f).

(** Lines 49-53: the locals before the [with] block. *)
Definition initial_frame (w : World) : Frame :=
  mkFrame w "unknown" 0 None None 0%Q.

(** The timing handle of a call that starts in world [w], and the frame in
    which the [try] starts: the initial locals and the new, empty handle. *)
Definition timing_handle (w : World) : ref := fresh (dom (heap w)).

Definition entry_frame (w : World) : Frame :=
  mkFrame (mkWorld (log w) (<[timing_handle w := ∅]> (heap w)) (now w))
          "unknown" 0 None None 0%Q.

(** The log line of lines 92-99. *)
Definition quality_warning_line (source_file : string) (score : Q)
  (issues : list string) : Event :=
  ELog WARNING "Image quality validation failed"
    [("source_file", LStr source_file);
     ("quality_score", LFloat score);
     ("issues", LStrs issues)].

(** The log line of lines 103-112. *)
Definition classification_line (source_file : string)
  (c : ClassificationResult.t) : Event :=
  ELog INFO "Vendor classification complete"
    [("source_file", LStr source_file);
     ("vendor_type", LStr (ClassificationResult.vendor_type c));
     ("confidence", LFloat (ClassificationResult.confidence c));
     ("detection_method", LStr (ClassificationResult.detection_method c));
     ("matched_pattern", LOptStr (ClassificationResult.matched_pattern c))].

(** The log line of lines 123-129. *)
Definition archived_line (source_file archive_uri : string) : Event :=
  ELog INFO "Archived original file"
    [("source_file", LStr source_file);
     ("archive_uri", LStr archive_uri)].

Section Handler.
Variable env : Env.
Variable config : Config.

Local Open Scope py_scope.

(** Lines 57-70: decode, validate, log. *)
Definition receive (cloud_event : CloudEvent)
  : M Frame InvoiceConvertedMessage.t :=
  raw_message <- decode_body env cloud_event ;
  message <- of_result (validate_converted env raw_message) ;
  set_source_file (InvoiceConvertedMessage.source_file message) ;;
  source_file <- get source_file ;
  logger env INFO "Processing converted invoice"
    [("source_file", LStr source_file);
     ("page_count", LInt (InvoiceConvertedMessage.page_count message));
     ("converted_files",
      LStrs (InvoiceConvertedMessage.converted_files message))] ;;
  ret message.

(** Lines 74-78: the body of the download loop, once per remaining URI. *)
Fixpoint download_loop (uris : list string) (images_data : list Bytes)
  : M Frame (list Bytes) :=
  match uris with
  | [] => ret images_data
  | png_uri :: uris' =>
      parsed <- of_result (parse_gcs_uri env png_uri) ;
      let '(bucket, path) := parsed in
      png_data <- call env (fun h => storage_read env h bucket path)
                       (EStorageRead bucket path) ;
      total <- get total_input_bytes ;
      set_total_input_bytes (total + Z.of_nat (length png_data)) ;;
      download_loop uris' (images_data ++ [png_data])
  end.

(** Lines 72-87. *)
Definition download (message : InvoiceConvertedMessage.t)
  : M Frame (list Bytes) :=
  set_total_input_bytes 0 ;;
  images_data <-
    download_loop (InvoiceConvertedMessage.converted_files message) [] ;
  source_file <- get source_file ;
  total <- get total_input_bytes ;
  logger env INFO "Downloaded all images"
    [("source_file", LStr source_file);
     ("file_count", LInt (Z.of_nat (length images_data)));
     ("total_input_bytes", LInt total)] ;;
  ret images_data.

(** Lines 89-99: quality validation; an invalid verdict is only logged. *)
Definition check_quality (images_data : list Bytes) : M Frame unit :=
  verdict <- of_result (validate_all_images env images_data) ;
  let '(all_valid, score, issues) := verdict in
  set_avg_score score ;;
  if negb all_valid then
    source_file <- get source_file ;
    logger env WARNING "Image quality validation failed"
      [("source_file", LStr source_file);
       ("quality_score", LFloat score);
       ("issues", LStrs issues)]
  else ret tt.

(** Lines 101-112: vendor classification. *)
Definition classify (message : InvoiceConvertedMessage.t)
  : M Frame ClassificationResult.t :=
  source_file <- get source_file ;
  c <- of_result
         (classify_vendor env source_file
            (InvoiceConvertedMessage.converted_files message)) ;
  set_classification (Some c) ;;
  logger env INFO "Vendor classification complete"
    [("source_file", LStr source_file);
     ("vendor_type", LStr (ClassificationResult.vendor_type c));
     ("confidence", LFloat (ClassificationResult.confidence c));
     ("detection_method", LStr (ClassificationResult.detection_method c));
     ("matched_pattern", LOptStr (ClassificationResult.matched_pattern c))] ;;
  ret c.

(** Lines 114-129: archive the original under its own path. *)
Definition archive : M Frame string :=
  source_file <- get source_file ;
  parsed <- of_result (parse_gcs_uri env source_file) ;
  let '(source_bucket, source_path) := parsed in
  let archive_path := source_path in
  archive_uri <- call env
    (fun h => storage_copy env h source_bucket source_path
                (archive_bucket config) archive_path)
    (EStorageCopy source_bucket source_path (archive_bucket config)
                  archive_path) ;
  logger env INFO "Archived original file"
    [("source_file", LStr source_file);
     ("archive_uri", LStr archive_uri)] ;;
  ret archive_uri.

(** Lines 131-137: the outgoing message. *)
Definition classified_message (source_file : string)
  (message : InvoiceConvertedMessage.t) (c : ClassificationResult.t)
  (score : Q) (archive_uri : string) : InvoiceClassifiedMessage.t :=
  InvoiceClassifiedMessage.mk
    source_file
    (InvoiceConvertedMessage.converted_files message)
    (ClassificationResult.vendor_type c)
    score
    archive_uri.

(** Lines 101-142: everything after the quality check. *)
Definition classify_archive_publish (message : InvoiceConvertedMessage.t)
  : M Frame unit :=
  c <- classify message ;
  archive_uri <- archive ;
  source_file <- get source_file ;
  score <- get avg_score ;
  let classified :=
    classified_message source_file message c score archive_uri in
  call_unit env
    (fun h => publish env h (classified_topic config)
                (dump_classified env classified))
    (EPublish (classified_topic config) (dump_classified env classified)).

(** Lines 57-87: everything up to the end of the downloads. *)
Definition reach_images (cloud_event : CloudEvent)
  : M Frame (InvoiceConvertedMessage.t * list Bytes) :=
  message <- receive cloud_event ;
  images_data <- download message ;
  ret (message, images_data).

(** Lines 57-142: the body of the [try]. *)
Definition main_steps (cloud_event : CloudEvent) : M Frame unit :=
  reached <- reach_images cloud_event ;
  let '(message, images_data) := reached in
  check_quality images_data ;;
  classify_archive_publish message.

(** Lines 144-145: the [except Exception as e] clause. *)
Definition on_exception (e : Exn) : M Frame unit :=
  set_exception_to_raise (Some e).

(** Lines 147-171: what follows the [with] block. *)
Definition after_timer (timing : ref) : M Frame unit :=
  pending <- get exception_to_raise ;
  match pending with
  | Some e =>
      source_file <- get source_file ;
      latency_ms <- dict_getitem timing "latency_ms" ;
      total <- get total_input_bytes ;
      logger env EXCEPTION "Classification failed"
        [("error", LStr (exn_str e));
         ("error_type", LStr (exn_type e));
         ("source_file", LStr source_file);
         ("latency_ms", LInt latency_ms);
         ("total_input_bytes", LInt total)] ;;
      raise e
  | None =>
      source_file <- get source_file ;
      c <- get classification ;
      score <- get avg_score ;
      latency_ms <- dict_getitem timing "latency_ms" ;
      total <- get total_input_bytes ;
      logger env INFO "Classification complete - published event"
        [("source_file", LStr source_file);
         ("vendor_type",
          LStr (match c with
                | Some c' => ClassificationResult.vendor_type c'
                | None => "unknown"
                end));
         ("quality_score", LFloat score);
         ("topic", LStr (classified_topic config));
         ("latency_ms", LInt latency_ms);
         ("total_input_bytes", LInt total)]
  end.

(** Lines 55-171 on a frame. *)
Definition handler_body (cloud_event : CloudEvent) : M Frame unit :=
  timed <- function_timer
             (fun _timing =>
                try_except (main_steps cloud_event) on_exception) ;
  after_timer (fst timed).

(** [handle_invoice_converted(cloud_event)] from line 49 on, for the
    configuration and the adapters that lines 45-47 have produced.  The
    function from its first line is [EntryPoints.handle_invoice_converted]. *)
Definition handle_invoice_converted (cloud_event : CloudEvent)
  : M World unit :=
  fun w =>
    match handler_body cloud_event (initial_frame w) with
    | (Raised e, f) => (Raised e, world f)
    | (_, f) => (Normal tt, world f)
    end.

End Handler.
End InvoiceClassifier.

(* ===================================================================== *)
(** * The entry points from their first line *)
(* ===================================================================== *)

(** What the first lines of both handlers call, before the [with] block and
    outside the [try]: [get_config()] and the constructors of the adapters.
    Each of them returns or raises; none of them is logged.  [adapters] are
    the collaborators as the handler then uses them. *)
Record Startup : Type := mkStartup {
  get_config : Exn + Config;
  GCSAdapter : string -> option Exn;
  PubSubAdapter : string -> option Exn;
  create_observer : bool -> option Exn;
  GeminiAdapter : string -> string -> string -> option Exn;
  OpenRouterAdapter : string -> option Exn;
  adapters : Config -> Env
}.

(** A call that returns nothing or raises, and is not logged. *)
Definition of_fault {S} (r : option Exn) : M S unit :=
  match r with
  | Some e => raise e
  | None => ret tt
  end.

Module EntryPoints.

(** data_extractor/main.py, lines 63-81. *)
Definition extractor_startup (st : Startup) : M World (Config * Env) :=
  (config <- of_result (get_config st) ;
   of_fault (GCSAdapter st (project_id config)) ;;
   of_fault (PubSubAdapter st (project_id config)) ;;
   of_fault (create_observer st (langfuse_enabled config)) ;;
   of_fault (GeminiAdapter st (project_id config) (region config)
                           (gemini_model config)) ;;
   (match openrouter_api_key config with
    | Some key =>
        if truthy (Some key) then of_fault (OpenRouterAdapter st key)
        else ret tt
    | None => ret tt
    end) ;;
   ret (config, adapters st config))%py.

(** [handle_invoice_classified(cloud_event)], lines 63-238. *)
Definition handle_invoice_classified (st : Startup) (cloud_event : CloudEvent)
  : M World unit :=
  (started <- extractor_startup st ;
   DataExtractor.handle_invoice_classified (snd started) (fst started)
     cloud_event)%py.

(** invoice_classifier/main.py, lines 45-47. *)
Definition classifier_startup (st : Startup) : M World (Config * Env) :=
  (config <- of_result (get_config st) ;
   of_fault (GCSAdapter st (project_id config)) ;;
   of_fault (PubSubAdapter st (project_id config)) ;;
   ret (config, adapters st config))%py.

(** [handle_invoice_converted(cloud_event)], lines 45-171. *)
Definition handle_invoice_converted (st : Startup) (cloud_event : CloudEvent)
  : M World unit :=
  (started <- classifier_startup st ;
   InvoiceClassifier.handle_invoice_converted (snd started) (fst started)
     cloud_event)%py.

End EntryPoints.

(* ===================================================================== *)
(** * Observations on logs and paths *)
(* ===================================================================== *)

(** Whether a character occurs in a string. *)
Fixpoint contains (c : ascii) (s : string) : bool :=
  match s with
  | EmptyString => false
  | String c' s' => Ascii.eqb c' c || contains c s'
  end.

Definition is_publish (ev : Event) : bool :=
  match ev with EPublish _ _ _ => true | _ => false end.

Definition is_storage_read (ev : Event) : bool :=
  match ev with EStorageRead _ _ _ => true | _ => false end.

Definition is_storage_copy (ev : Event) : bool :=
  match ev with EStorageCopy _ _ _ _ _ => true | _ => false end.

Definition is_storage_write (ev : Event) : bool :=
  match ev with EStorageWrite _ _ _ _ _ => true | _ => false end.

Definition is_flush (ev : Event) : bool :=
  match ev with EFlush _ => true | _ => false end.

(** The events of the input side of a stage: log lines, downloads and the
    extraction call. *)
Definition is_input_event (ev : Event) : bool :=
  match ev with
  | ELog _ _ _ | EStorageRead _ _ _ | EExtract _ _ _ _ => true
  | _ => false
  end.

Definition is_log (ev : Event) : bool :=
  match ev with ELog _ _ _ => true | _ => false end.

(** A download, an archive or failure-bucket copy, a failure-bucket write,
    or a publish. *)
Definition is_side_effect (ev : Event) : bool :=
  is_storage_read ev || is_storage_copy ev || is_storage_write ev
  || is_publish ev.

Definition count (p : Event -> bool) (l : list Event) : nat :=
  length (List.filter p l).

Definition copy_completed (ev : Event) : bool :=
  match ev with EStorageCopy _ _ _ _ (inr _) => true | _ => false end.

Definition copy_faulted (ev : Event) : bool :=
  match ev with EStorageCopy _ _ _ _ (inl _) => true | _ => false end.

Definition write_completed (ev : Event) : bool :=
  match ev with EStorageWrite _ _ _ _ None => true | _ => false end.

Definition write_faulted (ev : Event) : bool :=
  match ev with EStorageWrite _ _ _ _ (Some _) => true | _ => false end.

(** The state in which a timer scope is left: the state at the end of its
    body, after the [finally] clause of the timer. *)
Definition closed_scope {S} `{HasWorld S} (timing : ref) (start : Q) (s : S)
  : S :=
  snd (function_timer_exit timing start s).

(** The whole milliseconds between a start time and the time of a world. *)
Definition elapsed_ms (start : Q) (w : World) : Z :=
  py_int ((now w - start) * (1000 # 1))%Q.

Definition is_extract (ev : Event) : bool :=
  match ev with EExtract _ _ _ _ => true | _ => false end.

Definition is_score_trace (ev : Event) : bool :=
  match ev with EScoreTrace _ _ _ _ => true | _ => false end.

(** A publish that returned. *)
Definition publish_completed (ev : Event) : bool :=
  match ev with EPublish _ _ None => true | _ => false end.

(** A run of the extraction handler in which a flush inside the [try] body,
    called when the log was [h], raised [e1]: the [except] clause has flushed
    once more; when that second flush returned, the exception line for [e1]
    was logged and [e1] raised again; when it raised [e2], [e2] left the
    handler and nothing was logged. *)
Definition flush_fault_reraised (env : Env) (h : list Event) (e1 : Exn)
  (final : Outcome unit * World) : Prop :=
  let h6 := (h ++ [EFlush (Some e1)])%list in
  match flush env h6 with
  | None =>
      fst final = Raised e1
      /\ exists extra,
           log (snd final)
           = (h6 ++ [EFlush None;
                     ELog EXCEPTION "Extraction processing failed"
                       (("error", LStr (exn_str e1))
                        :: ("error_type", LStr (exn_type e1)) :: extra)])%list
  | Some e2 =>
      fst final = Raised e2
      /\ log (snd final) = (h6 ++ [EFlush (Some e2)])%list
  end.

(** The calls that the failure router may make. *)
Definition router_call (config : Config) (ev : Event) : Prop :=
  match ev with
  | ELog _ _ _ => True
  | EStorageCopy _ _ dst_bucket _ _ => dst_bucket = failed_bucket config
  | EStorageWrite bucket _ _ content_type _ =>
      bucket = failed_bucket config /\ content_type = "application/json"
  | _ => False
  end.

(** The calls that the extraction stage may make on storage and on the
    bus: copies and writes go to the failure bucket, publishes to the
    extracted topic. *)
Definition extractor_call (config : Config) (ev : Event) : Prop :=
  match ev with
  | EStorageCopy _ _ dst_bucket _ _ => dst_bucket = failed_bucket config
  | EStorageWrite bucket _ _ _ _ => bucket = failed_bucket config
  | EPublish topic _ _ => topic = extracted_topic config
  | _ => True
  end.

(** The calls that the classification stage may make: log lines,
    downloads, a copy of an object into the archive bucket under its own
    path, and publishes to the classified topic. *)
Definition classifier_call (config : Config) (ev : Event) : Prop :=
  match ev with
  | ELog _ _ _ | EStorageRead _ _ _ => True
  | EStorageCopy _ src_path dst_bucket dst_path _ =>
      dst_bucket = archive_bucket config /\ dst_path = src_path
  | EPublish topic _ _ => topic = classified_topic config
  | _ => False
  end.

(** The payloads of the downloads that returned, in order. *)
Definition read_payloads (l : list Event) : list Bytes :=
  flat_map (fun ev => match ev with
                      | EStorageRead _ _ (inr d) => [d]
                      | _ => []
                      end) l.

(** The number of bytes of a list of payloads. *)
Definition bytes_total (payloads : list Bytes) : Z :=
  fold_right (fun d acc => Z.of_nat (length d) + acc) 0 payloads.

(** A download of the object that a URI names, which returned. *)
Definition reads_uri (env : Env) (uri : string) (ev : Event) : Prop :=
  exists bucket path d,
    parse_gcs_uri env uri = inr (bucket, path)
    /\ ev = EStorageRead bucket path (inr d).

(** The world after a sequence of recorded events. *)
Definition record_events (env : Env) (evs : list Event) (w : World) : World :=
  fold_left (fun w' ev => record_event env ev w') evs w.

(** The log line of the router's [except] clause. *)
Definition router_failure_log (source_file : string) (e : Exn) : Event :=
  ELog ERROR "Failed to copy to failed bucket"
    [("source_file", LStr source_file); ("error", LStr (exn_str e))].

(** The record the router hands to [json.dumps]. *)
Definition error_record (source_file error_message : string) : Json :=
  JObj [("source_file", JStr source_file); ("error", JStr error_message)].

(** The events of one run of the failure router that starts after the
    history [h]: the calls it makes, in order, each with its answer. *)
Definition router_events (env : Env) (config : Config)
  (source_file error_message : string) (h : list Event) : list Event :=
  match parse_gcs_uri env source_file with
  | inl e => [router_failure_log source_file e]
  | inr (source_bucket, source_path) =>
      let filename := List.last (split "/" source_path) "" in
      let copied :=
        storage_copy env h source_bucket source_path (failed_bucket config)
                     filename in
      let copy_ev :=
        EStorageCopy source_bucket source_path (failed_bucket config)
                     filename copied in
      match copied with
      | inl e => [copy_ev; router_failure_log source_file e]
      | inr _ =>
          let error_data :=
            list_byte_of_string
              (json_dumps env (error_record source_file error_message)) in
          let written :=
            storage_write env (h ++ [copy_ev])%list (failed_bucket config)
                          (filename ++ ".error.json") error_data
                          "application/json" in
          let write_ev :=
            EStorageWrite (failed_bucket config) (filename ++ ".error.json")
                          error_data "application/json" written in
          match written with
          | Some e => [copy_ev; write_ev; router_failure_log source_file e]
          | None =>
              [copy_ev; write_ev;
               ELog INFO "Copied failed invoice to failed bucket"
                 [("source_file", LStr source_file);
                  ("failed_uri",
                   LStr ("gs://" ++ failed_bucket config ++ "/" ++ filename))]]
          end
      end
  end.

(* ===================================================================== *)
(** * Test doubles

    Concrete collaborators in the manner of the unit tests' mocks: a
    decoder that knows three message bodies, a storage that serves one image,
    and a script that says which collaborator calls fault. *)
(* ===================================================================== *)

Module Sample.

Definition dq : string := String (ascii_of_nat 34) "".

(** The wire form and the text of a well-formed Classified body. *)
Definition classified_b64 : string :=
  "eyJzb3VyY2VfZmlsZSI6ImdzOi8vaW4vYS50aWYiLCJjb252ZXJ0ZWRfZmlsZXMiOlsiZ3M6Ly9wcm9jL2EucG5nIl0sInZlbmRvcl90eXBlIjoiQUNNRSIsInF1YWxpdHlfc2NvcmUiOjAuOSwiYXJjaGl2ZWRfdG8iOiJnczovL2FyY2hpdmUvYS50aWYifQ==".

Definition classified_text : string :=
  "{" ++ dq ++ "source_file" ++ dq ++ ":" ++ dq ++ "gs://in/a.tif" ++ dq ++
  "," ++ dq ++ "converted_files" ++ dq ++ ":[" ++ dq ++
  "gs://proc/a.png" ++ dq ++ "]," ++ dq ++ "vendor_type" ++ dq ++ ":" ++
  dq ++ "ACME" ++ dq ++ "," ++ dq ++ "quality_score" ++ dq ++ ":0.9," ++
  dq ++ "archived_to" ++ dq ++ ":" ++ dq ++ "gs://archive/a.tif" ++ dq ++
  "}".

Definition classified_json : Json :=
  JObj [("source_file", JStr "gs://in/a.tif");
        ("converted_files", JArr [JStr "gs://proc/a.png"]);
        ("vendor_type", JStr "ACME");
        ("quality_score", JFloat (9 # 10));
        ("archived_to", JStr "gs://archive/a.tif")].

(** The same for a well-formed Converted body. *)
Definition converted_b64 : string :=
  "eyJzb3VyY2VfZmlsZSI6ImdzOi8vaW4vYS50aWYiLCJjb252ZXJ0ZWRfZmlsZXMiOlsiZ3M6Ly9wcm9jL2EucG5nIl0sInBhZ2VfY291bnQiOjF9".

Definition converted_text : string :=
  "{" ++ dq ++ "source_file" ++ dq ++ ":" ++ dq ++ "gs://in/a.tif" ++ dq ++
  "," ++ dq ++ "converted_files" ++ dq ++ ":[" ++ dq ++
  "gs://proc/a.png" ++ dq ++ "]," ++ dq ++ "page_count" ++ dq ++ ":1}".

Definition converted_json : Json :=
  JObj [("source_file", JStr "gs://in/a.tif");
        ("converted_files", JArr [JStr "gs://proc/a.png"]);
        ("page_count", JInt 1)].

(** A body that is valid JSON but has the wrong shape for both stages. *)
Definition malformed_b64 : string := "eyJzb3VyY2VfZmlsZSI6NX0=".

Definition malformed_text : string :=
  "{" ++ dq ++ "source_file" ++ dq ++ ":5}".

Definition malformed_json : Json := JObj [("source_file", JInt 5)].

Definition bus_event (encoded : string) : CloudEvent :=
  mkCloudEvent (JObj [("message", JObj [("data", JStr encoded)])]).

Definition sample_b64decode (j : Json) : Exn + Bytes :=
  match j with
  | JStr s =>
      if String.eqb s classified_b64 then
        inr (list_byte_of_string classified_text)
      else if String.eqb s converted_b64 then
        inr (list_byte_of_string converted_text)
      else if String.eqb s malformed_b64 then
        inr (list_byte_of_string malformed_text)
      else inl (mkExn "binascii.Error" "Incorrect padding")
  | _ => inl (mkExn "TypeError" "argument should be a bytes-like object")
  end.

Definition sample_json_loads (b : Bytes) : Exn + Json :=
  let text := string_of_list_byte b in
  if String.eqb text classified_text then inr classified_json
  else if String.eqb text converted_text then inr converted_json
  else if String.eqb text malformed_text then inr malformed_json
  else inl (mkExn "JSONDecodeError" "Expecting value").

Definition validation_error : Exn :=
  mkExn "ValidationError" "validation error for message".

Definition as_str (j : option Json) : option string :=
  match j with Some (JStr s) => Some s | _ => None end.

Definition as_strs (j : option Json) : option (list string) :=
  match j with
  | Some (JArr l) =>
      mapM (fun x => match x with JStr s => Some s | _ => None end) l
  | _ => None
  end.

Definition as_float (j : option Json) : option Q :=
  match j with
  | Some (JFloat q) => Some q
  | Some (JInt z) => Some (inject_Z z)
  | _ => None
  end.

Definition as_int (j : option Json) : option Z :=
  match j with Some (JInt z) => Some z | _ => None end.

Definition sample_validate_classified (raw : Json)
  : Exn + InvoiceClassifiedMessage.t :=
  match raw with
  | JObj kv =>
      match as_str (assoc "source_file" kv),
            as_strs (assoc "converted_files" kv),
            as_str (assoc "vendor_type" kv),
            as_float (assoc "quality_score" kv),
            as_str (assoc "archived_to" kv) with
      | Some src, Some files, Some vendor, Some score, Some archived =>
          inr (InvoiceClassifiedMessage.mk src files vendor score archived)
      | _, _, _, _, _ => inl validation_error
      end
  | _ => inl validation_error
  end.

Definition sample_validate_converted (raw : Json)
  : Exn + InvoiceConvertedMessage.t :=
  match raw with
  | JObj kv =>
      match as_str (assoc "source_file" kv),
            as_strs (assoc "converted_files" kv),
            as_int (assoc "page_count" kv) with
      | Some src, Some files, Some pages =>
          inr (InvoiceConvertedMessage.mk src files pages)
      | _, _, _ => inl validation_error
      end
  | _ => inl validation_error
  end.

Definition sample_dump_classified (m : InvoiceClassifiedMessage.t) : Json :=
  JObj [("source_file", JStr (InvoiceClassifiedMessage.source_file m));
        ("converted_files",
         JArr (map JStr (InvoiceClassifiedMessage.converted_files m)));
        ("vendor_type", JStr (InvoiceClassifiedMessage.vendor_type m));
        ("quality_score", JFloat (InvoiceClassifiedMessage.quality_score m));
        ("archived_to", JStr (InvoiceClassifiedMessage.archived_to m))].

Definition sample_dump_extracted (m : InvoiceExtractedMessage.t) : Json :=
  JObj [("trace_id", JStr (InvoiceExtractedMessage.trace_id m));
        ("session_id", JStr (InvoiceExtractedMessage.session_id m));
        ("parent_span_id", JStr (InvoiceExtractedMessage.parent_span_id m));
        ("source_file", JStr (InvoiceExtractedMessage.source_file m));
        ("vendor_type", JStr (InvoiceExtractedMessage.vendor_type m));
        ("extraction_model", JStr (InvoiceExtractedMessage.extraction_model m));
        ("extraction_latency_ms",
         JInt (InvoiceExtractedMessage.extraction_latency_ms m));
        ("confidence_score",
         JFloat (InvoiceExtractedMessage.confidence_score m));
        ("extracted_data", InvoiceExtractedMessage.extracted_data m);
        ("prompt_name", JStr (InvoiceExtractedMessage.prompt_name m));
        ("prompt_version", JStr (InvoiceExtractedMessage.prompt_version m))].

(** [gs://bucket/path] into [(bucket, path)]. *)
Definition sample_parse_gcs_uri (uri : string) : Exn + (string * string) :=
  if String.prefix "gs://" uri then
    match split "/" (String.substring 5 (String.length uri - 5) uri) with
    | bucket :: seg :: segs => inr (bucket, String.concat "/" (seg :: segs))
    | _ => inl (mkExn "ValueError" "Invalid GCS URI")
    end
  else inl (mkExn "ValueError" "Invalid GCS URI").

(** A dictionary of strings as JSON text (no escaping is needed for the
    strings used here). *)
Definition sample_json_dumps (j : Json) : string :=
  match j with
  | JObj kv =>
      "{" ++ String.concat ", "
               (map (fun '(k, v) =>
                       dq ++ k ++ dq ++ ": " ++
                       match v with
                       | JStr x => dq ++ x ++ dq
                       | _ => "null"
                       end) kv) ++ "}"
  | _ => "null"
  end.

Definition png : Bytes := [Byte.x89; Byte.x50; Byte.x4e; Byte.x47].

(** Which collaborator calls fault, and what the computations answer. *)
Record Script : Type := mkScript {
  on_extract : Exn + ExtractionResult.t;
  on_flush : list Event -> option Exn;
  on_copy : option Exn;
  on_write : option Exn;
  on_publish : option Exn;
  on_score_trace : option Exn;
  observer_enabled : bool;
  on_quality : bool * Q * list string
}.

Definition double (sc : Script) : Env := {|
  b64decode := sample_b64decode;
  json_loads := sample_json_loads;
  json_dumps := sample_json_dumps;
  validate_converted := sample_validate_converted;
  validate_classified := sample_validate_classified;
  dump_classified := sample_dump_classified;
  dump_extracted := sample_dump_extracted;
  parse_gcs_uri := sample_parse_gcs_uri;
  storage_read := fun _ _ _ => inr png;
  storage_copy := fun _ _ _ dst_bucket dst_path =>
    match on_copy sc with
    | Some e => inl e
    | None => inr ("gs://" ++ dst_bucket ++ "/" ++ dst_path)
    end;
  storage_write := fun _ _ _ _ _ => on_write sc;
  publish := fun _ _ _ => on_publish sc;
  trace_from_message := fun _ =>
    inr (TraceContext.mk "trace-1" "session-1" "span-1");
  is_enabled := observer_enabled sc;
  score_trace := fun _ _ _ _ => on_score_trace sc;
  flush := on_flush sc;
  extract_invoice := fun _ _ _ _ => on_extract sc;
  calculate_extraction_scores := fun _ => inr {["completeness" := 1%Q]};
  get_score_comments := fun _ _ => inr {["completeness" := "all fields set"]};
  validate_all_images := fun _ => inr (on_quality sc);
  classify_vendor := fun _ _ =>
    inr (ClassificationResult.mk "ACME" 1%Q "filename_pattern" (Some "ACME-*"));
  call_time := fun _ => (1 # 1000)%Q
|}.

Definition config : Config :=
  mkConfig "invoice-project" "us-central1" "gemini-2.5-flash" None true
           "archive" "failed" "invoice-classified" "invoice-extracted".

Definition invoice : Invoice :=
  mkInvoice "INV-1" (JObj [("invoice_id", JStr "INV-1")]).

(** A positive and a negative extraction result. *)
Definition extracted_ok : ExtractionResult.t :=
  ExtractionResult.mk true (Some invoice) None "gemini" 1200 (95 # 100)%Q
                      "invoice_extraction" "3".

Definition extracted_failed (err : option string) : ExtractionResult.t :=
  ExtractionResult.mk false None err "openrouter" 2500 0%Q
                      "invoice_extraction" "3".

(** Every collaborator answers; extraction is positive. *)
Definition nominal : Script :=
  mkScript (inr extracted_ok) (fun _ => None) None None None None true
           (true, (9 # 10)%Q, []).

Definition world0 : World := mkWorld [] ∅ 0%Q.

(** The messages and the trace context that the doubles produce. *)
Definition classified_message : InvoiceClassifiedMessage.t :=
  InvoiceClassifiedMessage.mk "gs://in/a.tif" ["gs://proc/a.png"] "ACME"
                              (9 # 10)%Q "gs://archive/a.tif".

Definition converted_message : InvoiceConvertedMessage.t :=
  InvoiceConvertedMessage.mk "gs://in/a.tif" ["gs://proc/a.png"] 1.

Definition trace_context : TraceContext.t :=
  TraceContext.mk "trace-1" "session-1" "span-1".

Definition observer_down : Exn :=
  mkExn "ConnectionError" "observer unreachable".

Definition storage_down : Exn :=
  mkExn "ServiceUnavailable" "storage unreachable".

Definition bus_down : Exn := mkExn "DeadlineExceeded" "publish timed out".

(** Both providers failed, with the given error text. *)
Definition failing (err : option string) : Script :=
  mkScript (inr (extracted_failed err)) (fun _ => None) None None None None
           true (true, (9 # 10)%Q, []).

(** Both providers failed and the observer cannot be flushed. *)
Definition failing_observer_down : Script :=
  mkScript (inr (extracted_failed (Some "provider timeout")))
           (fun _ => Some observer_down) None None None None
           true (true, (9 # 10)%Q, []).

(** Both providers failed and the failure bucket cannot be written. *)
Definition failing_storage_down : Script :=
  mkScript (inr (extracted_failed (Some "provider timeout")))
           (fun _ => None) (Some storage_down) None None None
           true (true, (9 # 10)%Q, []).

(** Extraction succeeds; the first flush raises, later ones return. *)
Definition first_flush_raises : Script :=
  mkScript (inr extracted_ok)
           (fun h => if existsb is_flush h then None else Some observer_down)
           None None None None true (true, (9 # 10)%Q, []).

(** Extraction succeeds and the publish faults. *)
Definition publish_faults : Script :=
  mkScript (inr extracted_ok) (fun _ => None) None None (Some bus_down) None
           true (true, (9 # 10)%Q, []).

(** The images get an invalid quality verdict. *)
Definition poor_quality : Script :=
  mkScript (inr extracted_ok) (fun _ => None) None None None None true
           (false, (3 # 10)%Q, ["low contrast"]).



(** Extraction succeeds and the observer refuses the scores. *)
Definition scores_refused : Script :=
  mkScript (inr extracted_ok) (fun _ => None) None None None
           (Some observer_down) true (true, (9 # 10)%Q, []).




(** A scope body in the manner of the timer's unit tests: it records a
    metric of its own, sleeps for ten milliseconds and raises. *)
Definition sleepy_body (timing : ref) : M World unit :=
  (dict_setitem timing "custom_metric" 42 ;;
   modify (fun w => mkWorld (log w) (heap w) (now w + (1 # 100))%Q) ;;
   raise (mkExn "ValueError" "test error"))%py.

(** [time.sleep(secs)] that takes [actual] seconds. *)
Definition sleep (actual : Q) : M World unit :=
  modify (fun w => mkWorld (log w) (heap w) (now w + actual)%Q).

(** A scope body that records a metric of its own and sleeps. *)
Definition metric_body (actual : Q) (timing : ref) : M World unit :=
  (dict_setitem timing "custom_metric" 42 ;; sleep actual)%py.

End Sample.

(* ===================================================================== *)
(** * Properties of the Python primitives *)
(* ===================================================================== *)

Lemma py_int_nonneg (x : Q) : (0 <= x)%Q -> 0 <= py_int x.
Proof.
  intros Hx. unfold py_int.
  apply Z.quot_pos; [| lia].
  unfold Qle in Hx. simpl in Hx. lia.
Qed.

Lemma elapsed_nonneg (start stop : Q) :
  (start <= stop)%Q -> 0 <= py_int ((stop - start) * (1000 # 1))%Q.
Proof.
  intros Hle. apply py_int_nonneg.
  apply Qmult_le_0_compat; [| discriminate].
  now apply Qle_minus_iff in Hle.
Qed.

Lemma split_nonempty (sep : ascii) (s : string) : split sep s <> [].
Proof.
  destruct s as [| c s']; simpl; [discriminate |].
  destruct (Ascii.eqb c sep); [discriminate |].
  destruct (split sep s'); discriminate.
Qed.

Lemma last_default_irrelevant (l : list string) (a d d' : string) :
  List.last (a :: l) d = List.last (a :: l) d'.
Proof.
  revert a. induction l as [| b l IH]; intros a; [reflexivity |].
  change (List.last (b :: l) d = List.last (b :: l) d'). apply IH.
Qed.

(** The last element of a split always exists. *)
Lemma py_last_split (sep : ascii) (s : string) :
  py_last (split sep s) = inr (List.last (split sep s) "").
Proof.
  destruct (split sep s) as [| x l] eqn:E.
  - now apply split_nonempty in E.
  - simpl. destruct l as [| y l]; [reflexivity |].
    f_equal. apply last_default_irrelevant.
Qed.

(** Joining the segments with the separator gives the string back. *)
Lemma concat_split (sep : ascii) (s : string) :
  String.concat (String sep "") (split sep s) = s.
Proof.
  induction s as [| c s' IH]; [reflexivity |].
  simpl. destruct (Ascii.eqb_spec c sep) as [-> | Hne].
  - pose proof (split_nonempty sep s') as Hn.
    destruct (split sep s') as [| seg segs]; [congruence |].
    change (String.concat (String sep "") ("" :: seg :: segs))
      with ("" ++ String sep "" ++ String.concat (String sep "") (seg :: segs)).
    rewrite IH. reflexivity.
  - pose proof (split_nonempty sep s') as Hn.
    destruct (split sep s') as [| seg segs]; [congruence |].
    destruct segs as [| seg' segs].
    + simpl in *. now rewrite IH.
    + rewrite <- IH. reflexivity.
Qed.

(** No segment contains the separator. *)
Lemma split_segments_clean (sep : ascii) (s : string) :
  Forall (fun seg => contains sep seg = false) (split sep s).
Proof.
  induction s as [| c s' IH]; simpl.
  - repeat constructor.
  - destruct (Ascii.eqb c sep) eqn:Ec.
    + constructor; [reflexivity | exact IH].
    + destruct (split sep s') as [| seg segs].
      * repeat constructor. simpl. now rewrite Ec.
      * inversion IH as [| ? ? Hseg Hsegs]; subst.
        constructor; [| exact Hsegs]. simpl. now rewrite Ec.
Qed.

Lemma append_assoc (a b c : string) : (a ++ b) ++ c = a ++ (b ++ c).
Proof.
  induction a as [| x a IH]; [reflexivity |].
  change (String x ((a ++ b) ++ c) = String x (a ++ b ++ c)).
  now f_equal.
Qed.

Lemma concat_snoc (sep : string) (l : list string) (a x : string) :
  String.concat sep ((a :: l) ++ [x])
  = String.concat sep (a :: l) ++ sep ++ x.
Proof.
  revert a. induction l as [| b l IH]; intros a.
  - reflexivity.
  - change (a ++ sep ++ String.concat sep ((b :: l) ++ [x])
            = (a ++ sep ++ String.concat sep (b :: l)) ++ sep ++ x).
    rewrite IH.
    rewrite !append_assoc. reflexivity.
Qed.

(** The final segment of a path: it contains no slash, and the path is that
    segment alone or a directory part, a slash, and that segment. *)
Lemma last_segment_spec (path : string) :
  let filename := List.last (split "/" path) "" in
  contains "/" filename = false
  /\ (path = filename \/ exists dir, path = dir ++ "/" ++ filename).
Proof.
  intros filename. subst filename.
  pose proof (split_nonempty "/" path) as Hn.
  pose proof (split_segments_clean "/" path) as Hclean.
  pose proof (concat_split "/" path) as Hcat.
  destruct (@exists_last _ (split "/" path) Hn) as (init & x & Hsplit).
  rewrite Hsplit in *. rewrite last_last.
  split.
  - apply Forall_app in Hclean as [_ Hx]. now inversion Hx.
  - destruct init as [| a init].
    + left. simpl in Hcat. congruence.
    + right. exists (String.concat "/" (a :: init)).
      rewrite <- Hcat. apply concat_snoc.
Qed.

Lemma count_app (p : Event -> bool) (l1 l2 : list Event) :
  count p (l1 ++ l2)%list = (count p l1 + count p l2)%nat.
Proof. unfold count. now rewrite List.filter_app, length_app. Qed.

Lemma count_none (p : Event -> bool) (l : list Event) :
  Forall (fun ev => p ev = false) l -> count p l = 0%nat.
Proof.
  unfold count. induction 1 as [| ev l Hev _ IH]; [reflexivity |].
  simpl. now rewrite Hev.
Qed.

Lemma count_none_among (p q : Event -> bool) (l : list Event) :
  (forall ev, q ev = true -> p ev = false) ->
  Forall (fun ev => q ev = true) l -> count p l = 0%nat.
Proof.
  intros Hpq Hq. apply count_none.
  eapply Forall_impl; [exact Hq |]. exact Hpq.
Qed.

(* ===================================================================== *)
(** * The scoped timer *)
(* ===================================================================== *)

Section Timer.
Context {S : Type} `{HasWorld S} {A : Type}.

Lemma function_timer_enter_eq (s0 : S) :
  let w0 := world_of s0 in
  let timing := fresh (dom (heap w0)) in
  function_timer_enter s0
  = (Normal (timing, now w0),
     with_world (mkWorld (log w0) (<[timing := ∅]> (heap w0)) (now w0)) s0).
Proof.
  intros w0 timing. unfold function_timer_enter, bind, new_dict, perf_counter, ret.
  fold w0. fold timing. rewrite world_of_with_world. reflexivity.
Qed.

Lemma function_timer_exit_eq (timing : ref) (start : Q) (s2 : S) :
  let w2 := world_of s2 in
  function_timer_exit timing start s2
  = (Normal tt,
     with_world
       (mkWorld (log w2)
          (<[timing := <["latency_ms" :=
                           py_int ((now w2 - start) * (1000 # 1))%Q]>
                         (default ∅ (heap w2 !! timing))]> (heap w2))
          (now w2)) s2).
Proof. reflexivity. Qed.

(** The whole [with] block in one equation. *)
Lemma function_timer_eq (body : ref -> M S A) (s0 : S) :
  let w0 := world_of s0 in
  let timing := fresh (dom (heap w0)) in
  let s1 :=
    with_world (mkWorld (log w0) (<[timing := ∅]> (heap w0)) (now w0)) s0 in
  let s2 := snd (body timing s1) in
  let w2 := world_of s2 in
  let w3 :=
    mkWorld (log w2)
      (<[timing := <["latency_ms" :=
                       py_int ((now w2 - now w0) * (1000 # 1))%Q]>
                     (default ∅ (heap w2 !! timing))]> (heap w2))
      (now w2) in
  function_timer body s0
  = (match fst (body timing s1) with
     | Normal a => Normal (timing, a)
     | Returned => Returned
     | Raised e => Raised e
     end, with_world w3 s2).
Proof.
  intros w0 timing s1 s2 w2 w3.
  unfold function_timer, bind at 1.
  rewrite function_timer_enter_eq. fold w0 timing s1.
  unfold bind, try_finally. subst s2 w2 w3.
  destruct (body timing s1) as [o s2].
  rewrite function_timer_exit_eq. simpl.
  destruct o; reflexivity.
Qed.

Lemma closed_scope_eq (timing : ref) (start : Q) (s : S) :
  closed_scope timing start s
  = with_world
      (mkWorld (log (world_of s))
         (<[timing := <["latency_ms" := elapsed_ms start (world_of s)]>
                        (default ∅ (heap (world_of s) !! timing))]>
            (heap (world_of s)))
         (now (world_of s))) s.
Proof. reflexivity. Qed.

Lemma log_closed_scope (timing : ref) (start : Q) (s : S) :
  log (world_of (closed_scope timing start s)) = log (world_of s).
Proof. rewrite closed_scope_eq, world_of_with_world. reflexivity. Qed.

(** Reading the duration after the timer has written it. *)
Lemma dict_getitem_closed_scope (timing : ref) (start : Q) (s : S) :
  dict_getitem timing "latency_ms" (closed_scope timing start s)
  = (Normal (elapsed_ms start (world_of s)), closed_scope timing start s).
Proof.
  rewrite closed_scope_eq. unfold dict_getitem.
  rewrite world_of_with_world. cbn [heap].
  rewrite lookup_insert_eq. cbn [default from_option id].
  now rewrite lookup_insert_eq.
Qed.

(** The [with] block in terms of the state in which its body ends. *)
Lemma function_timer_closed (body : ref -> M S A) (s0 : S) :
  let timing := fresh (dom (heap (world_of s0))) in
  let s1 := snd (function_timer_enter s0) in
  function_timer body s0
  = (match fst (body timing s1) with
     | Normal a => Normal (timing, a)
     | Returned => Returned
     | Raised e => Raised e
     end,
     closed_scope timing (now (world_of s0)) (snd (body timing s1))).
Proof.
  intros timing s1. rewrite function_timer_eq. subst s1.
  rewrite function_timer_enter_eq. reflexivity.
Qed.

(** C6.  A [with function_timer() as timing] scope: the handle is a new
    dictionary object that is empty when the body starts; whatever way the
    body ends, the timer then performs one write, of the elapsed whole
    milliseconds under ["latency_ms"], into that same object and touches
    nothing else; the elapsed time is not negative as the performance
    counter does not run backwards; a [return] or an exception of the body
    is resumed after the write. *)
Theorem function_timer_writes_once_on_exit (body : ref -> M S A) (s0 : S) :
  let w0 := world_of s0 in
  let timing := fresh (dom (heap w0)) in
  let s1 :=
    with_world (mkWorld (log w0) (<[timing := ∅]> (heap w0)) (now w0)) s0 in
  let o := fst (body timing s1) in
  let s2 := snd (body timing s1) in
  let w2 := world_of s2 in
  let elapsed_ms := py_int ((now w2 - now w0) * (1000 # 1))%Q in
  let w3 :=
    mkWorld (log w2)
      (<[timing := <["latency_ms" := elapsed_ms]>
                     (default ∅ (heap w2 !! timing))]> (heap w2))
      (now w2) in
  (now w0 <= now w2)%Q ->
  heap w0 !! timing = None
  /\ heap (world_of s1) !! timing = Some ∅
  /\ function_timer body s0
     = (match o with
        | Normal a => Normal (timing, a)
        | Returned => Returned
        | Raised e => Raised e
        end, with_world w3 s2)
  /\ (forall e, o = Raised e -> fst (function_timer body s0) = Raised e)
  /\ (exists d : gmap string Z,
        heap (world_of (snd (function_timer body s0))) !! timing = Some d
        /\ d !! "latency_ms" = Some elapsed_ms)
  /\ 0 <= elapsed_ms.
Proof.
  intros w0 timing s1 o s2 w2 elapsed_ms w3 Hclock.
  pose proof (function_timer_eq body s0) as Heq. cbv zeta in Heq.
  fold w0 timing s1 o s2 w2 elapsed_ms w3 in Heq.
  repeat split.
  - apply not_elem_of_dom. apply is_fresh.
  - subst s1. rewrite world_of_with_world. simpl. apply lookup_insert_eq.
  - exact Heq.
  - intros e He. rewrite Heq, He. reflexivity.
  - rewrite Heq. simpl. rewrite world_of_with_world. subst w3. simpl.
    eexists. split; [apply lookup_insert_eq | apply lookup_insert_eq].
  - now apply elapsed_nonneg.
Qed.

End Timer.

(* ===================================================================== *)
(** * What a computation may add to the log *)
(* ===================================================================== *)

Local Open Scope list_scope.

Section Emits.
Context {S : Type} `{HasWorld S}.
Variable env : Env.

(** [emits P m]: running [m] only appends events, all of them in [P]. *)
Definition emits (P : Event -> Prop) {A} (m : M S A) : Prop :=
  forall s, exists l,
    log (world_of (snd (m s))) = (log (world_of s) ++ l)%list /\ Forall P l.

Lemma emits_nothing {A} (P : Event -> Prop) (m : M S A) :
  (forall s, world_of (snd (m s)) = world_of s) -> emits P m.
Proof.
  intros Hsame s. exists []. rewrite Hsame, app_nil_r. split; constructor.
Qed.

Lemma emits_ret {A} P (a : A) : emits P (ret a).
Proof. now apply emits_nothing. Qed.

Lemma emits_raise {A} P (e : Exn) : emits P (@raise S A e).
Proof. now apply emits_nothing. Qed.

Lemma emits_return {A} P : emits P (@return_ S A).
Proof. now apply emits_nothing. Qed.

Lemma emits_of_result {A} P (r : Exn + A) : emits P (of_result r).
Proof. destruct r; [apply emits_raise | apply emits_ret]. Qed.

Lemma emits_bind {A B} P (m : M S A) (k : A -> M S B) :
  emits P m -> (forall a, emits P (k a)) -> emits P (bind m k).
Proof.
  intros Hm Hk s. unfold bind.
  destruct (Hm s) as (l1 & Hl1 & HP1).
  destruct (m s) as [[a | | e] s1]; simpl in *; eauto.
  destruct (Hk a s1) as (l2 & Hl2 & HP2).
  exists (l1 ++ l2). rewrite Hl2, Hl1, app_assoc.
  split; [reflexivity | now apply Forall_app].
Qed.

Lemma emits_try_except {A} P (body : M S A) (handler : Exn -> M S A) :
  emits P body -> (forall e, emits P (handler e)) ->
  emits P (try_except body handler).
Proof.
  intros Hb Hh s. unfold try_except.
  destruct (Hb s) as (l1 & Hl1 & HP1).
  destruct (body s) as [[a | | e] s1]; simpl in *; eauto.
  destruct (Hh e s1) as (l2 & Hl2 & HP2).
  exists (l1 ++ l2). rewrite Hl2, Hl1, app_assoc.
  split; [reflexivity | now apply Forall_app].
Qed.

Lemma emits_emit P (ev : Event) : P ev -> emits P (emit env ev).
Proof.
  intros HP s. exists [ev]. unfold emit, modify. simpl.
  rewrite world_of_with_world. split; [reflexivity | now repeat constructor].
Qed.

Lemma emits_logger P lvl msg extra :
  P (ELog lvl msg extra) -> emits P (logger env lvl msg extra).
Proof. apply emits_emit. Qed.

Lemma emits_call {A} P (answer : list Event -> Exn + A)
  (mk : Exn + A -> Event) :
  (forall r, P (mk r)) -> emits P (call env answer mk).
Proof.
  intros HP s. unfold call.
  apply (emits_bind P (emit env _) (fun _ => of_result _)).
  - now apply emits_emit.
  - intros _. apply emits_of_result.
Qed.

Lemma emits_call_unit P (answer : list Event -> option Exn)
  (mk : option Exn -> Event) :
  (forall r, P (mk r)) -> emits P (call_unit env answer mk).
Proof.
  intros HP s. unfold call_unit.
  apply (emits_bind P (emit env _)
           (fun _ => match answer (log (world_of s)) with
                     | Some e => raise e
                     | None => ret tt
                     end)).
  - now apply emits_emit.
  - intros _. destruct (answer _); [apply emits_raise | apply emits_ret].
Qed.

Lemma emits_weaken {A} (P Q : Event -> Prop) (m : M S A) :
  (forall ev, P ev -> Q ev) -> emits P m -> emits Q m.
Proof.
  intros HPQ Hm s. destruct (Hm s) as (l & Hl & HP).
  exists l. split; [exact Hl |]. eapply Forall_impl; eauto.
Qed.

End Emits.

(* ===================================================================== *)
(** * What a computation leaves alone *)
(* ===================================================================== *)

Section Keeps.
Context {S : Type} `{HasWorld S} {B : Type}.
Variable env : Env.
Variable proj : S -> B.

(** [keeps m]: running [m] does not change the observed part of the
    state. *)
Definition keeps {A} (m : M S A) : Prop :=
  forall s, proj (snd (m s)) = proj s.

(** The observed part does not depend on the world. *)
Hypothesis proj_with_world : forall w s, proj (with_world w s) = proj s.

Lemma keeps_ret {A} (a : A) : keeps (ret a).
Proof. now intros s. Qed.

Lemma keeps_raise {A} (e : Exn) : keeps (@raise S A e).
Proof. now intros s. Qed.

Lemma keeps_return {A} : keeps (@return_ S A).
Proof. now intros s. Qed.

Lemma keeps_of_result {A} (r : Exn + A) : keeps (of_result r).
Proof. destruct r; [apply keeps_raise | apply keeps_ret]. Qed.

Lemma keeps_bind {A C} (m : M S A) (k : A -> M S C) :
  keeps m -> (forall a, keeps (k a)) -> keeps (bind m k).
Proof.
  intros Hm Hk s. unfold bind. specialize (Hm s).
  destruct (m s) as [[a | | e] s1]; simpl in *; auto.
  now rewrite Hk.
Qed.

Lemma keeps_try_except {A} (body : M S A) (handler : Exn -> M S A) :
  keeps body -> (forall e, keeps (handler e)) ->
  keeps (try_except body handler).
Proof.
  intros Hb Hh s. unfold try_except. specialize (Hb s).
  destruct (body s) as [[a | | e] s1]; simpl in *; auto.
  now rewrite Hh.
Qed.

Lemma keeps_modify (f : S -> S) :
  (forall s, proj (f s) = proj s) -> keeps (modify f).
Proof. intros Hf s. apply Hf. Qed.

Lemma keeps_emit (ev : Event) : keeps (emit env ev).
Proof. intros s. apply proj_with_world. Qed.

Lemma keeps_logger lvl msg extra : keeps (logger env lvl msg extra).
Proof. apply keeps_emit. Qed.

Lemma keeps_call {A} (answer : list Event -> Exn + A)
  (mk : Exn + A -> Event) : keeps (call env answer mk).
Proof.
  intros s. unfold call.
  apply (keeps_bind (emit env _) (fun _ => of_result _)).
  - apply keeps_emit.
  - intros _. apply keeps_of_result.
Qed.

Lemma keeps_call_unit (answer : list Event -> option Exn)
  (mk : option Exn -> Event) : keeps (call_unit env answer mk).
Proof.
  intros s. unfold call_unit.
  apply (keeps_bind (emit env _)
           (fun _ => match answer (log (world_of s)) with
                     | Some e => raise e
                     | None => ret tt
                     end)).
  - apply keeps_emit.
  - intros _. destruct (answer _); [apply keeps_raise | apply keeps_ret].
Qed.

Lemma keeps_decode_body (cloud_event : CloudEvent) :
  keeps (decode_body env cloud_event).
Proof.
  unfold decode_body.
  repeat (apply keeps_bind; [apply keeps_of_result | intros ?]).
  apply keeps_of_result.
Qed.

End Keeps.

(* ===================================================================== *)
(** * The failure router *)
(* ===================================================================== *)

Section Router.
Context {S : Type} `{HasWorld S}.
Variable env : Env.
Variable config : Config.

Lemma log_record_events (evs : list Event) (w : World) :
  log (record_events env evs w) = log w ++ evs.
Proof.
  revert w. induction evs as [| ev evs IH]; intros w; simpl.
  - now rewrite app_nil_r.
  - unfold record_events in *. simpl. rewrite IH. simpl.
    now rewrite <- app_assoc.
Qed.

Lemma heap_record_events (evs : list Event) (w : World) :
  heap (record_events env evs w) = heap w.
Proof.
  revert w. induction evs as [| ev evs IH]; intros w; [reflexivity |].
  unfold record_events in *. simpl. now rewrite IH.
Qed.

(** One run of the router: it always ends normally, and it changes nothing
    but the world, to which it adds its events. *)
Lemma router_run (source_file error_message : string) (s : S) :
  _copy_to_failed_bucket env config source_file error_message s
  = (Normal tt,
     with_world
       (record_events env
          (router_events env config source_file error_message
             (log (world_of s)))
          (world_of s)) s).
Proof.
  unfold _copy_to_failed_bucket, router_events, try_except, bind.
  destruct (parse_gcs_uri env source_file) as [e | [source_bucket source_path]];
    simpl.
  - reflexivity.
  - rewrite py_last_split. simpl.
    unfold call, call_unit, bind, emit, modify, logger, emit, modify. simpl.
    destruct (storage_copy env _ _ _ _ _) as [e | uri]; simpl.
    + rewrite !world_of_with_world, !with_world_twice. reflexivity.
    + rewrite !world_of_with_world. simpl.
      destruct (storage_write env _ _ _ _ _) as [e |]; simpl;
        rewrite !world_of_with_world, !with_world_twice; reflexivity.
Qed.

(** What the router run added to the log. *)
Lemma router_log (source_file error_message : string) (s : S) :
  log (world_of
         (snd (_copy_to_failed_bucket env config source_file error_message s)))
  = log (world_of s)
    ++ router_events env config source_file error_message (log (world_of s)).
Proof.
  rewrite router_run. simpl.
  now rewrite world_of_with_world, log_record_events.
Qed.

Lemma router_keeps {B} (proj : S -> B) (source_file error_message : string) :
  (forall w s, proj (with_world w s) = proj s) ->
  keeps proj (_copy_to_failed_bucket env config source_file error_message).
Proof. intros Hproj s. rewrite router_run. apply Hproj. Qed.

(** The router logs, copies and writes, and does nothing else. *)
Lemma router_events_kind (source_file error_message : string)
  (h : list Event) :
  Forall (fun ev => is_log ev || is_storage_copy ev || is_storage_write ev
                    = true)
         (router_events env config source_file error_message h).
Proof.
  unfold router_events.
  destruct (parse_gcs_uri env source_file) as [e | [bucket path]]; cbv zeta.
  - repeat constructor.
  - destruct (storage_copy env _ _ _ _ _); [repeat constructor |].
    destruct (storage_write env _ _ _ _ _); repeat constructor.
Qed.

Lemma router_emits (P : Event -> Prop) (source_file error_message : string) :
  (forall ev, is_log ev || is_storage_copy ev || is_storage_write ev = true
              -> P ev) ->
  emits P (_copy_to_failed_bucket env config source_file error_message).
Proof.
  intros HP s. eexists. split; [apply router_log |].
  eapply Forall_impl; [apply router_events_kind | exact HP].
Qed.

Lemma router_events_counts (source_file error_message : string)
  (h : list Event) :
  let evs := router_events env config source_file error_message h in
  count is_publish evs = 0%nat
  /\ (count is_storage_copy evs <= 1)%nat
  /\ (count is_storage_write evs <= 1)%nat.
Proof.
  unfold router_events, count, router_failure_log.
  destruct (parse_gcs_uri env source_file) as [e | [bucket path]]; cbv zeta.
  - simpl. lia.
  - destruct (storage_copy env _ _ _ _ _); [simpl; lia |].
    destruct (storage_write env _ _ _ _ _); simpl; lia.
Qed.

(** Every write of the router carries the error record of its arguments. *)
Lemma router_events_writes (source_file error_message : string)
  (h : list Event) (ev : Event) :
  In ev (router_events env config source_file error_message h) ->
  is_storage_write ev = true ->
  exists path res,
    ev = EStorageWrite (failed_bucket config) path
           (list_byte_of_string
              (json_dumps env (JObj [("source_file", JStr source_file);
                                     ("error", JStr error_message)])))
           "application/json" res.
Proof.
  unfold router_events, router_failure_log, error_record.
  destruct (parse_gcs_uri env source_file) as [e | [bucket path]]; cbv zeta.
  - intros [<- | []]; discriminate.
  - destruct (storage_copy env _ _ _ _ _).
    + intros [<- | [<- | []]]; discriminate.
    + destruct (storage_write env _ _ _ _ _);
        (intros [<- | [<- | [<- | []]]]; try discriminate;
         intros _; eexists; eexists; reflexivity).
Qed.

(** C5.  Given a source identifier that parses into bucket and path, the
    router copies that object to the failure bucket under the final segment
    of the path (which contains no slash: the hierarchy is dropped), and,
    the copy done, writes next to it, under that name followed by
    [.error.json], the JSON record whose fields are exactly [source_file]
    (the identifier as given) and [error] (the message as given). *)
Theorem failed_copy_is_flattened_with_error_record
  (source_file error_message : string) (s : S)
  (source_bucket source_path uri : string) :
  let filename := List.last (split "/" source_path) "" in
  let h := log (world_of s) in
  let copy_ev :=
    EStorageCopy source_bucket source_path (failed_bucket config) filename
                 (inr uri) in
  let error_data :=
    list_byte_of_string
      (json_dumps env (JObj [("source_file", JStr source_file);
                             ("error", JStr error_message)])) in
  let written :=
    storage_write env (h ++ [copy_ev]) (failed_bucket config)
                  (filename +:+ ".error.json") error_data "application/json" in
  parse_gcs_uri env source_file = inr (source_bucket, source_path) ->
  storage_copy env h source_bucket source_path (failed_bucket config) filename
  = inr uri ->
  (exists outcome_line : Event,
      log (world_of
             (snd (_copy_to_failed_bucket env config source_file
                     error_message s)))
      = h ++ [copy_ev;
              EStorageWrite (failed_bucket config)
                            (filename +:+ ".error.json") error_data
                            "application/json" written;
              outcome_line])
  /\ contains "/" filename = false
  /\ (source_path = filename
      \/ exists dir, source_path = dir +:+ "/" +:+ filename).
Proof.
  intros filename h copy_ev error_data written Hparse Hcopy.
  split; [| apply last_segment_spec].
  rewrite router_log. fold h.
  unfold router_events. rewrite Hparse. cbv zeta. fold filename.
  rewrite Hcopy. fold copy_ev. unfold error_record. fold error_data.
  fold written. destruct written; eexists; reflexivity.
Qed.

(** C9.  In every run of the router the error record is written only after
    a copy that completed: when the copy faults no write is attempted, and
    when the write faults the copy has completed and no record was
    written.  At most one copy and one write are attempted. *)
Theorem copy_precedes_error_record
  (source_file error_message : string) (s : S) :
  exists new : list Event,
    log (world_of
           (snd (_copy_to_failed_bucket env config source_file
                   error_message s)))
    = log (world_of s) ++ new
    /\ (existsb copy_faulted new = true -> count is_storage_write new = 0%nat)
    /\ (forall i ev, new !! i = Some ev -> is_storage_write ev = true ->
        exists j c, (j < i)%nat /\ new !! j = Some c
                    /\ copy_completed c = true)
    /\ (existsb write_faulted new = true ->
        existsb copy_completed new = true
        /\ existsb write_completed new = false)
    /\ (count is_storage_copy new <= 1)%nat
    /\ (count is_storage_write new <= 1)%nat.
Proof.
  eexists. split; [apply router_log |].
  unfold router_events, count, router_failure_log.
  destruct (parse_gcs_uri env source_file) as [e | [bucket path]]; cbv zeta.
  - repeat split; simpl; try discriminate; try lia.
    intros [| i] ev Hev Hw; simpl in Hev; [| discriminate].
    injection Hev as <-. discriminate.
  - destruct (storage_copy env _ _ _ _ _) as [e | uri]; cbv zeta.
    + repeat split; simpl; try discriminate; try lia.
      intros [| [| i]] ev Hev Hw; simpl in Hev; try discriminate;
        injection Hev as <-; discriminate.
    + destruct (storage_write env _ _ _ _ _) as [e |];
        (repeat split; simpl; try discriminate; try lia;
         intros [| [| [| i]]] ev Hev Hw; simpl in Hev; try discriminate;
         injection Hev as <-; try discriminate;
         exists 0%nat; eexists; (split; [lia | split; reflexivity])).
Qed.

End Router.

(* ===================================================================== *)
(** * Footprints of the handlers' steps *)
(* ===================================================================== *)

Lemma emits_decode_body {S} `{HasWorld S} (env : Env) (P : Event -> Prop)
  (cloud_event : CloudEvent) : emits P (decode_body (S := S) env cloud_event).
Proof.
  unfold decode_body.
  repeat (apply emits_bind; [apply emits_of_result | intros ?]).
  apply emits_of_result.
Qed.

(** Decoding the body does not depend on the state and does not change
    it. *)
Lemma decode_body_pure {S S'} (env : Env) (cloud_event : CloudEvent)
  (s : S) (s' : S') (raw : Json) :
  decode_body env cloud_event s = (Normal raw, s) ->
  decode_body env cloud_event s' = (Normal raw, s').
Proof.
  unfold decode_body, bind.
  destruct (py_getitem (data cloud_event) "message") as [e | envelope];
    [discriminate |]. cbn.
  destruct (py_getitem envelope "data") as [e | encoded]; [discriminate |].
  cbn.
  destruct (b64decode env encoded) as [e | message_data]; [discriminate |].
  cbn.
  destruct (json_loads env message_data) as [e | raw']; [discriminate |].
  cbn. intros Heq. now injection Heq as <-.
Qed.

(** Syntax-directed proofs of [keeps] and [emits] goals. *)
Ltac footprint_step :=
  match goal with
  | |- forall _, _ => intros
  | |- keeps _ (bind _ _) => apply keeps_bind
  | |- keeps _ (ret _) => apply keeps_ret
  | |- keeps _ (raise _) => apply keeps_raise
  | |- keeps _ return_ => apply keeps_return
  | |- keeps _ (of_result _) => apply keeps_of_result
  | |- keeps _ (logger _ _ _ _) => apply keeps_logger; reflexivity
  | |- keeps _ (call _ _ _) => apply keeps_call; reflexivity
  | |- keeps _ (call_unit _ _ _) => apply keeps_call_unit; reflexivity
  | |- keeps _ (decode_body _ _) => apply keeps_decode_body
  | |- keeps _ (modify _) => apply keeps_modify; reflexivity
  | |- keeps _ (_copy_to_failed_bucket _ _ _ _) =>
      apply router_keeps; reflexivity
  | |- emits _ (bind _ _) => apply emits_bind
  | |- emits _ (ret _) => apply emits_ret
  | |- emits _ (raise _) => apply emits_raise
  | |- emits _ return_ => apply emits_return
  | |- emits _ (of_result _) => apply emits_of_result
  | |- emits _ (logger _ _ _ _) => apply emits_logger; reflexivity
  | |- emits _ (call _ _ _) => apply emits_call; reflexivity
  | |- emits _ (call_unit _ _ _) => apply emits_call_unit; reflexivity
  | |- emits _ (decode_body _ _) => apply emits_decode_body
  | |- emits _ (modify _) => apply emits_nothing; reflexivity
  | |- emits _ (_copy_to_failed_bucket _ _ _ _) =>
      apply router_emits; intros [] ?; try reflexivity; discriminate
  | |- keeps _ (match ?x with _ => _ end) => destruct x
  | |- emits _ (match ?x with _ => _ end) => destruct x
  end.

Ltac footprint := repeat (cbv beta; footprint_step).

(* ===================================================================== *)
(** * The extraction stage *)
(* ===================================================================== *)

Section Extractor.
Import DataExtractor.
Variable env : Env.
Variable config : Config.

Lemma extractor_world_with_world (w : World) (f : Frame) :
  world (with_world w f) = w.
Proof. reflexivity. Qed.

Lemma extractor_entry (w : World) :
  function_timer_enter (initial_frame w)
  = (Normal (timing_handle w, now w), entry_frame w).
Proof. exact (function_timer_enter_eq (initial_frame w)). Qed.

(** The handler in terms of its [try] statement: the timer adds its one
    write, and what follows depends on how the [try] statement ended. *)
Lemma extractor_handler_eq (cloud_event : CloudEvent) (w : World) :
  let r :=
    try_except (main_steps env config cloud_event) (on_exception env)
               (entry_frame w) in
  let f3 := closed_scope (timing_handle w) (now w) (snd r) in
  handle_invoice_classified env config cloud_event w
  = match fst r with
    | Normal _ =>
        match after_timer env config (timing_handle w) f3 with
        | (Raised e, f) => (Raised e, world f)
        | (_, f) => (Normal tt, world f)
        end
    | Returned => (Normal tt, world f3)
    | Raised e => (Raised e, world f3)
    end.
Proof.
  intros r f3.
  unfold handle_invoice_classified, handler_body. unfold bind at 1.
  rewrite function_timer_closed. rewrite extractor_entry.
  cbn [snd]. fold r.
  change (fresh (dom (heap (world_of (initial_frame w)))))
    with (timing_handle w).
  change (now (world_of (initial_frame w))) with (now w).
  fold f3. destruct (fst r); reflexivity.
Qed.

(** After the [with] block with a pending exception: it is logged and
    raised again. *)
Lemma extractor_after_timer_pending (w : World) (f2 : Frame) (e : Exn) :
  exception_to_raise f2 = Some e ->
  let f3 := closed_scope (timing_handle w) (now w) f2 in
  exists f4,
    after_timer env config (timing_handle w) f3 = (Raised e, f4)
    /\ log (world f4)
       = log (world f2)
         ++ [ELog EXCEPTION "Extraction processing failed"
               [("error", LStr (exn_str e));
                ("error_type", LStr (exn_type e));
                ("source_file", LStr (source_file f2));
                ("latency_ms", LInt (elapsed_ms (now w) (world f2)));
                ("total_input_bytes", LInt (total_input_bytes f2))]].
Proof.
  intros Hpending f3.
  unfold after_timer, bind, get.
  change (exception_to_raise f3) with (exception_to_raise f2).
  rewrite Hpending. subst f3. rewrite dict_getitem_closed_scope.
  eexists. split; [reflexivity |].
  cbn [snd fst logger emit modify]. reflexivity.
Qed.

(** After the [with] block with no pending exception: the closing log
    line. *)
Lemma extractor_after_timer_clear (w : World) (f2 : Frame) :
  exception_to_raise f2 = None ->
  let f3 := closed_scope (timing_handle w) (now w) f2 in
  exists f4 extra,
    after_timer env config (timing_handle w) f3 = (Normal tt, f4)
    /\ log (world f4)
       = log (world f2)
         ++ [ELog INFO "Extraction complete - published event" extra].
Proof.
  intros Hpending f3.
  unfold after_timer, bind, get.
  change (exception_to_raise f3) with (exception_to_raise f2).
  rewrite Hpending. subst f3. rewrite dict_getitem_closed_scope.
  eexists. eexists. split; reflexivity.
Qed.

(** The fault path: an exception that leaves the [try] body is kept, the
    observer is flushed, and the exception is logged and raised again
    after the [with] block, unless the flush itself raises. *)
Lemma extractor_fault_path (cloud_event : CloudEvent) (w : World)
  (e : Exn) (f2 : Frame) :
  main_steps env config cloud_event (entry_frame w) = (Raised e, f2) ->
  let r := flush env (log (world f2)) in
  exists latency_ms : Z,
    fst (handle_invoice_classified env config cloud_event w)
    = Raised (match r with None => e | Some e' => e' end)
    /\ log (snd (handle_invoice_classified env config cloud_event w))
       = log (world f2)
         ++ EFlush r
            :: match r with
               | None =>
                   [ELog EXCEPTION "Extraction processing failed"
                      [("error", LStr (exn_str e));
                       ("error_type", LStr (exn_type e));
                       ("source_file", LStr (source_file f2));
                       ("latency_ms", LInt latency_ms);
                       ("total_input_bytes", LInt (total_input_bytes f2))]]
               | Some _ => []
               end.
Proof.
  intros Hmain r.
  rewrite extractor_handler_eq. cbv zeta.
  unfold try_except. rewrite Hmain.
  unfold on_exception, set_exception_to_raise, call_unit, bind, emit, modify.
  cbn [fst snd world_of with_world Frame_HasWorld world].
  fold r. destruct r as [e' |].
  - exists 0. cbn [fst snd raise].
    split; [reflexivity |].
    change (world ?f) with (world_of f). rewrite log_closed_scope.
    cbn. reflexivity.
  - cbn [fst snd ret].
    match goal with
    | |- context [closed_scope _ _ ?f] =>
        destruct (extractor_after_timer_pending w f e eq_refl)
          as (f4 & Hafter & Hlog)
    end.
    eexists. rewrite Hafter. cbn [fst snd]. split; [reflexivity |].
    rewrite Hlog. cbn. rewrite <- app_assoc. reflexivity.
Qed.

(** The same when the exception is that of a flush inside the [try] body,
    called when the log was [h]. *)
Lemma extractor_flush_fault (cloud_event : CloudEvent) (w : World)
  (e1 : Exn) (f2 : Frame) (h : list Event) :
  main_steps env config cloud_event (entry_frame w) = (Raised e1, f2) ->
  log (world f2) = h ++ [EFlush (Some e1)] ->
  flush_fault_reraised env h e1
    (handle_invoice_classified env config cloud_event w).
Proof.
  intros Hmain Hlog2.
  destruct (extractor_fault_path _ _ _ _ Hmain) as (lat & Hout & Hlog).
  cbv zeta in Hout, Hlog. rewrite Hlog2 in Hout, Hlog.
  unfold flush_fault_reraised. cbv zeta.
  destruct (flush env (h ++ [EFlush (Some e1)])) as [e2 |].
  - split; [exact Hout | exact Hlog].
  - split; [exact Hout |]. eexists. exact Hlog.
Qed.

(* Footprints of the steps of the [try] body. *)

Lemma extractor_get_keeps {A B} (proj : Frame -> B) (field : Frame -> A) :
  keeps proj (get field).
Proof. now intros f. Qed.

Lemma extractor_get_emits {A} (P : Event -> Prop) (field : Frame -> A) :
  emits P (get field).
Proof. now apply emits_nothing. Qed.

Lemma extractor_download_loop_pending (uris : list string)
  (images_data : list Bytes) :
  keeps exception_to_raise (download_loop env uris images_data).
Proof.
  revert images_data. induction uris as [| uri uris IH]; intros images_data;
    simpl.
  - apply keeps_ret.
  - unfold set_total_input_bytes.
    footprint; try apply extractor_get_keeps. apply IH.
Qed.

Lemma extractor_download_loop_source (uris : list string)
  (images_data : list Bytes) :
  keeps source_file (download_loop env uris images_data).
Proof.
  revert images_data. induction uris as [| uri uris IH]; intros images_data;
    simpl.
  - apply keeps_ret.
  - unfold set_total_input_bytes.
    footprint; try apply extractor_get_keeps. apply IH.
Qed.

Lemma extractor_download_loop_emits (uris : list string)
  (images_data : list Bytes) :
  emits (fun ev => is_input_event ev = true)
        (download_loop env uris images_data).
Proof.
  revert images_data. induction uris as [| uri uris IH]; intros images_data;
    simpl.
  - apply emits_ret.
  - unfold set_total_input_bytes.
    footprint; try apply extractor_get_emits. apply IH.
Qed.

Lemma extractor_reach_result_pending (cloud_event : CloudEvent) :
  keeps exception_to_raise (reach_result env config cloud_event).
Proof.
  unfold reach_result, receive, download, run_extraction, set_source_file,
    set_total_input_bytes, set_result.
  footprint; try apply extractor_get_keeps.
  apply extractor_download_loop_pending.
Qed.

Lemma extractor_reach_result_emits (cloud_event : CloudEvent) :
  emits (fun ev => is_input_event ev = true)
        (reach_result env config cloud_event).
Proof.
  unfold reach_result, receive, download, run_extraction, set_source_file,
    set_total_input_bytes, set_result.
  footprint; try apply extractor_get_emits.
  apply extractor_download_loop_emits.
Qed.

Lemma extractor_download_source (message : InvoiceClassifiedMessage.t) :
  keeps source_file (download env message).
Proof.
  unfold download, set_total_input_bytes.
  footprint; try apply extractor_get_keeps.
  apply extractor_download_loop_source.
Qed.

Lemma extractor_run_extraction_source (images_data : list Bytes)
  (message : InvoiceClassifiedMessage.t) :
  keeps source_file (run_extraction env config images_data message).
Proof. unfold run_extraction, set_result. footprint. Qed.

Lemma extractor_receive_source (cloud_event : CloudEvent) (f f1 : Frame)
  (message : InvoiceClassifiedMessage.t) (trace_context : TraceContext.t) :
  receive env cloud_event f = (Normal (message, trace_context), f1) ->
  source_file f1 = InvoiceClassifiedMessage.source_file message.
Proof.
  unfold receive, bind.
  destruct (decode_body env cloud_event f) as [[raw | | e] f0]; try discriminate.
  destruct (validate_classified env raw) as [e | m]; try discriminate.
  cbn. destruct (trace_from_message env m) as [e | tc]; try discriminate.
  cbn. intros Heq. injection Heq as <- <- <-. reflexivity.
Qed.

(** When the extraction call is reached, the local [source_file] holds the
    source of the inbound message. *)
Lemma extractor_reach_result_source (cloud_event : CloudEvent) (f f3 : Frame)
  (message : InvoiceClassifiedMessage.t) (trace_context : TraceContext.t)
  (r : ExtractionResult.t) :
  reach_result env config cloud_event f
  = (Normal (message, trace_context, r), f3) ->
  source_file f3 = InvoiceClassifiedMessage.source_file message.
Proof.
  unfold reach_result. unfold bind at 1.
  destruct (receive env cloud_event f) as [[[m tc] | | e] f1] eqn:Hrecv;
    try discriminate.
  apply extractor_receive_source in Hrecv.
  unfold bind at 1.
  pose proof (extractor_download_source m f1) as Hdl.
  destruct (download env m f1) as [[images | | e] f2]; try discriminate.
  unfold bind at 1.
  pose proof (extractor_run_extraction_source images m f2) as Hex.
  destruct (run_extraction env config images m f2) as [[r' | | e] f3'];
    try discriminate.
  cbn in *. intros Heq. injection Heq as <- <- <- <-. congruence.
Qed.

(** The branch for a negative result: log, route, flush, return. *)
Lemma extractor_on_failed_eq (r : ExtractionResult.t) (f3 : Frame) :
  let msg := str_or (ExtractionResult.error r) "Unknown error" in
  let f4 :=
    with_world
      (record_event env (extraction_failed_line (source_file f3) r)
                    (world f3)) f3 in
  let f5 :=
    snd (_copy_to_failed_bucket env config (source_file f3) msg f4) in
  let r1 := flush env (log (world f5)) in
  on_extraction_failed env config r f3
  = (match r1 with None => Returned | Some e => Raised e end,
     with_world (record_event env (EFlush r1) (world f5)) f5).
Proof.
  intros msg f4 f5 r1.
  unfold on_extraction_failed, get. unfold bind at 1 2.
  cbn [logger emit modify fst snd].
  change (with_world (record_event env _ (world_of f3)) f3) with f4.
  unfold bind at 1. fold msg.
  pose proof (router_run env config (source_file f3) msg f4) as Hrun.
  destruct (_copy_to_failed_bucket env config (source_file f3) msg f4)
    as [o f5'] eqn:Hrouter.
  injection Hrun as -> _. subst r1 f5. cbn [snd].
  unfold call_unit, bind, emit, modify. cbn [fst snd].
  change (world_of f5') with (world f5').
  destruct (flush env (log (world f5'))); reflexivity.
Qed.

(** The [return] path: the handler ends normally with the log as the
    [try] body left it. *)
Lemma extractor_return_path (cloud_event : CloudEvent) (w : World)
  (f2 : Frame) :
  main_steps env config cloud_event (entry_frame w) = (Returned, f2) ->
  fst (handle_invoice_classified env config cloud_event w) = Normal tt
  /\ log (snd (handle_invoice_classified env config cloud_event w))
     = log (world f2).
Proof.
  intros Hmain. rewrite extractor_handler_eq. cbv zeta.
  unfold try_except. rewrite Hmain. cbn [fst snd].
  split; [reflexivity |].
  change (world ?f) with (world_of f). now rewrite log_closed_scope.
Qed.

(** The path on which the [try] body runs to its end. *)
Lemma extractor_normal_path (cloud_event : CloudEvent) (w : World)
  (f2 : Frame) :
  main_steps env config cloud_event (entry_frame w) = (Normal tt, f2) ->
  exception_to_raise f2 = None ->
  exists extra,
    fst (handle_invoice_classified env config cloud_event w) = Normal tt
    /\ log (snd (handle_invoice_classified env config cloud_event w))
       = log (world f2)
         ++ [ELog INFO "Extraction complete - published event" extra].
Proof.
  intros Hmain Hclear. rewrite extractor_handler_eq. cbv zeta.
  unfold try_except. rewrite Hmain. cbn [fst snd].
  destruct (extractor_after_timer_clear w f2 Hclear)
    as (f4 & extra & Hafter & Hlog).
  exists extra. rewrite Hafter. cbn [fst snd]. split; [reflexivity | exact Hlog].
Qed.

(** The [try] body for a negative extraction result. *)
Lemma extractor_failed_main (cloud_event : CloudEvent) (f f3 : Frame)
  (message : InvoiceClassifiedMessage.t) (trace_context : TraceContext.t)
  (r : ExtractionResult.t) :
  reach_result env config cloud_event f
  = (Normal (message, trace_context, r), f3) ->
  ExtractionResult.success r = false ->
  let src := InvoiceClassifiedMessage.source_file message in
  let msg := str_or (ExtractionResult.error r) "Unknown error" in
  let h4 := log (world f3) ++ [extraction_failed_line src r] in
  let h5 := h4 ++ router_events env config src msg h4 in
  exists f6,
    main_steps env config cloud_event f
    = (match flush env h5 with None => Returned | Some e => Raised e end, f6)
    /\ log (world f6) = h5 ++ [EFlush (flush env h5)].
Proof.
  intros Hreach Hfailed src msg h4 h5.
  pose proof (extractor_reach_result_source _ _ _ _ _ _ Hreach) as Hsrc.
  assert (Hmain :
    main_steps env config cloud_event f
    = on_extraction_failed env config r f3).
  { unfold main_steps. unfold bind at 1. rewrite Hreach.
    cbv beta iota. now rewrite Hfailed. }
  rewrite extractor_on_failed_eq in Hmain. cbv zeta in Hmain.
  rewrite Hsrc in Hmain. fold src msg in Hmain.
  assert (Hlog5 :
    log (world
           (snd (_copy_to_failed_bucket env config src msg
                   (with_world
                      (record_event env (extraction_failed_line src r)
                                    (world f3)) f3))))
    = h5).
  { exact (router_log env config src msg _). }
  rewrite Hlog5 in Hmain.
  eexists. split; [exact Hmain |].
  rewrite extractor_world_with_world. cbn [record_event log].
  now rewrite Hlog5.
Qed.

(** The whole run for a negative extraction result. *)
Lemma extractor_failure_path (cloud_event : CloudEvent) (w : World)
  (message : InvoiceClassifiedMessage.t) (trace_context : TraceContext.t)
  (r : ExtractionResult.t) (f3 : Frame) :
  reach_result env config cloud_event (entry_frame w)
  = (Normal (message, trace_context, r), f3) ->
  ExtractionResult.success r = false ->
  let src := InvoiceClassifiedMessage.source_file message in
  let msg := str_or (ExtractionResult.error r) "Unknown error" in
  let h4 := log (world f3) ++ [extraction_failed_line src r] in
  let h5 := h4 ++ router_events env config src msg h4 in
  let final := handle_invoice_classified env config cloud_event w in
  match flush env h5 with
  | None => fst final = Normal tt /\ log (snd final) = h5 ++ [EFlush None]
  | Some e1 =>
      let h6 := h5 ++ [EFlush (Some e1)] in
      fst final
      = Raised (match flush env h6 with None => e1 | Some e2 => e2 end)
      /\ exists tail,
           log (snd final) = h6 ++ EFlush (flush env h6) :: tail
           /\ Forall (fun ev => is_log ev = true) tail
  end.
Proof.
  intros Hreach Hfailed src msg h4 h5 final. subst final.
  destruct (extractor_failed_main _ _ _ _ _ _ Hreach Hfailed)
    as (f6 & Hmain & Hlog6).
  fold src msg h4 h5 in Hmain, Hlog6.
  destruct (flush env h5) as [e1 |] eqn:Hflush.
  - destruct (extractor_fault_path _ _ _ _ Hmain) as (lat & Hout & Hlog).
    cbv zeta in Hout, Hlog. rewrite Hlog6 in Hout, Hlog.
    split; [exact Hout |].
    eexists. split; [exact Hlog |].
    destruct (flush env (h5 ++ [EFlush (Some e1)])); repeat constructor.
  - destruct (extractor_return_path _ _ _ Hmain) as (Hout & Hlog).
    split; [exact Hout |]. now rewrite Hlog.
Qed.

(** Everything the handler adds to the log for a negative result: the
    input-side events, the failure line, one run of the router, the flush,
    and what the fault path adds when that flush raises. *)
Lemma extractor_failure_events (cloud_event : CloudEvent) (w : World)
  (message : InvoiceClassifiedMessage.t) (trace_context : TraceContext.t)
  (r : ExtractionResult.t) (f3 : Frame) :
  reach_result env config cloud_event (entry_frame w)
  = (Normal (message, trace_context, r), f3) ->
  ExtractionResult.success r = false ->
  let src := InvoiceClassifiedMessage.source_file message in
  let msg := str_or (ExtractionResult.error r) "Unknown error" in
  let h4 := log (world f3) ++ [extraction_failed_line src r] in
  let h5 := h4 ++ router_events env config src msg h4 in
  exists pre tail,
    log (world f3) = log w ++ pre
    /\ Forall (fun ev => is_input_event ev = true) pre
    /\ log (snd (handle_invoice_classified env config cloud_event w))
       = h5 ++ EFlush (flush env h5) :: tail
    /\ Forall (fun ev => is_flush ev || is_log ev = true) tail.
Proof.
  intros Hreach Hfailed src msg h4 h5.
  destruct (extractor_reach_result_emits cloud_event (entry_frame w))
    as (pre & Hpre & Hinput).
  rewrite Hreach in Hpre. cbn in Hpre.
  pose proof (extractor_failure_path _ _ _ _ _ _ Hreach Hfailed) as Hpath.
  cbv zeta in Hpath. fold src msg h4 h5 in Hpath.
  exists pre.
  destruct (flush env h5) as [e1 |].
  - destruct Hpath as (_ & tail & Hlog & Htail).
    exists (EFlush (flush env (h5 ++ [EFlush (Some e1)])) :: tail).
    repeat split; try assumption.
    + rewrite Hlog, <- app_assoc. reflexivity.
    + constructor; [reflexivity |].
      eapply Forall_impl; [exact Htail |].
      intros ev Hev. now rewrite Hev, orb_true_r.
  - destruct Hpath as (_ & Hlog). exists [].
    repeat split; try assumption. constructor.
Qed.

Lemma str_or_nonempty (x : option string) (default : string) :
  default <> "" -> str_or x default <> "".
Proof.
  intros Hd. unfold str_or, truthy.
  destruct x as [s |]; [| exact Hd].
  destruct (String.eqb_spec s ""); simpl; assumption.
Qed.

Lemma str_or_present (m default : string) :
  m <> "" -> str_or (Some m) default = m.
Proof.
  intros Hm. unfold str_or, truthy.
  destruct (String.eqb_spec m ""); [contradiction | reflexivity].
Qed.

(** C1 (as amended).  For a valid Classified message whose extraction
    returns [success = False], the handler runs the failure router once,
    on the source of the inbound message and on the result's error message
    (["Unknown error"] when there is none), and then flushes; it never
    publishes, and it attempts at most one copy and one write.  When that
    flush does not raise, the handler returns normally and adds nothing
    more to the log.  When that flush raises, its fault is not swallowed:
    the [except] clause flushes once more and the handler raises, with the
    fault of the first flush, which is logged, or with that of the second
    flush when it raises too. *)
Theorem extraction_failure_routes_once_without_publish
  (cloud_event : CloudEvent) (w : World)
  (message : InvoiceClassifiedMessage.t) (trace_context : TraceContext.t)
  (r : ExtractionResult.t) (f3 : Frame) :
  reach_result env config cloud_event (entry_frame w)
  = (Normal (message, trace_context, r), f3) ->
  ExtractionResult.success r = false ->
  let src := InvoiceClassifiedMessage.source_file message in
  let msg := str_or (ExtractionResult.error r) "Unknown error" in
  let f4 :=
    with_world (record_event env (extraction_failed_line src r) (world f3))
               f3 in
  let routed := snd (_copy_to_failed_bucket env config src msg f4) in
  let final := handle_invoice_classified env config cloud_event w in
  (exists tail,
      log (snd final)
      = log (world routed) ++ EFlush (flush env (log (world routed))) :: tail
      /\ Forall (fun ev => is_flush ev || is_log ev = true) tail)
  /\ (forall m, ExtractionResult.error r = Some m -> m <> "" -> msg = m)
  /\ (exists new,
        log (snd final) = log w ++ new
        /\ count is_publish new = 0%nat
        /\ (count is_storage_copy new <= 1)%nat
        /\ (count is_storage_write new <= 1)%nat)
  /\ (flush env (log (world routed)) = None ->
      fst final = Normal tt
      /\ log (snd final) = log (world routed) ++ [EFlush None])
  /\ (forall e1, flush env (log (world routed)) = Some e1 ->
      flush_fault_reraised env (log (world routed)) e1 final).
Proof.
  intros Hreach Hfailed src msg f4 routed final. subst final.
  destruct (extractor_failed_main _ _ _ _ _ _ Hreach Hfailed)
    as (f6 & Hmain & Hlog6).
  cbv zeta in Hmain, Hlog6. fold src msg in Hmain, Hlog6.
  assert (Hrouted :
    log (world routed)
    = (log (world f3) ++ [extraction_failed_line src r])
      ++ router_events env config src msg
           (log (world f3) ++ [extraction_failed_line src r])).
  { exact (router_log env config src msg f4). }
  destruct (extractor_failure_events _ _ _ _ _ _ Hreach Hfailed)
    as (pre & tail & Hpre & Hinput & Hlog & Htail).
  cbv zeta in Hlog. fold src msg in Hlog. rewrite <- Hrouted in Hlog.
  pose proof (extractor_failure_path _ _ _ _ _ _ Hreach Hfailed) as Hpath.
  cbv zeta in Hpath. fold src msg in Hpath. rewrite <- Hrouted in Hpath.
  repeat split.
  - exists tail. split; assumption.
  - intros m Hm Hne. subst msg. rewrite Hm. now apply str_or_present.
  - eexists. split.
    + rewrite Hlog, Hrouted, Hpre, <- !app_assoc. reflexivity.
    + destruct (router_events_counts env config src msg
                  (log w ++ pre ++ [extraction_failed_line src r]))
        as (Hpub & Hcopy & Hwrite).
      cbv zeta in Hpub, Hcopy, Hwrite.
      rewrite <- !app_assoc in *.
      rewrite !count_app.
      rewrite (count_none_among is_publish is_input_event pre),
        (count_none_among is_storage_copy is_input_event pre),
        (count_none_among is_storage_write is_input_event pre);
        try assumption; try (intros []; simpl; congruence).
      rewrite Hpub.
      change (EFlush ?x :: tail) with ([EFlush x] ++ tail).
      rewrite !count_app.
      rewrite (count_none_among is_publish
                 (fun ev => is_flush ev || is_log ev) tail),
        (count_none_among is_storage_copy
           (fun ev => is_flush ev || is_log ev) tail),
        (count_none_among is_storage_write
           (fun ev => is_flush ev || is_log ev) tail);
        try assumption; try (intros []; simpl; congruence).
      unfold count at 1 3 5. simpl. lia.
  - rewrite H in Hpath. apply Hpath.
  - rewrite H in Hpath. apply Hpath.
  - intros e1 Hflush. rewrite <- Hrouted in Hmain, Hlog6.
    rewrite Hflush in Hmain, Hlog6.
    exact (extractor_flush_fault _ _ _ _ _ Hmain Hlog6).
Qed.

(** C8.  On the failure branch the message handed to the router is never
    empty: it is the result's error when that is a non-empty string, and
    ["Unknown error"] when the error is absent or empty.  Every write the
    handler makes on this branch carries the record built from that
    message. *)
Theorem missing_error_is_reported_as_unknown_error
  (cloud_event : CloudEvent) (w : World)
  (message : InvoiceClassifiedMessage.t) (trace_context : TraceContext.t)
  (r : ExtractionResult.t) (f3 : Frame) :
  reach_result env config cloud_event (entry_frame w)
  = (Normal (message, trace_context, r), f3) ->
  ExtractionResult.success r = false ->
  let src := InvoiceClassifiedMessage.source_file message in
  let msg := str_or (ExtractionResult.error r) "Unknown error" in
  let f4 :=
    with_world (record_event env (extraction_failed_line src r) (world f3))
               f3 in
  let final := handle_invoice_classified env config cloud_event w in
  msg <> ""
  /\ (ExtractionResult.error r = None \/ ExtractionResult.error r = Some "" ->
      msg = "Unknown error"
      /\ exists tail,
           log (snd final)
           = log (world (snd (_copy_to_failed_bucket env config src
                                "Unknown error" f4)))
             ++ tail
           /\ Forall (fun ev => is_flush ev || is_log ev = true) tail)
  /\ (exists new,
        log (snd final) = log w ++ new
        /\ forall ev, In ev new -> is_storage_write ev = true ->
           exists path res,
             ev = EStorageWrite (failed_bucket config) path
                    (list_byte_of_string
                       (json_dumps env
                          (JObj [("source_file", JStr src);
                                 ("error", JStr msg)])))
                    "application/json" res).
Proof.
  intros Hreach Hfailed src msg f4 final. subst final.
  destruct (extractor_failure_events _ _ _ _ _ _ Hreach Hfailed)
    as (pre & tail & Hpre & Hinput & Hlog & Htail).
  cbv zeta in Hlog. fold src msg in Hlog.
  split; [| split].
  - apply str_or_nonempty. discriminate.
  - intros Habsent.
    assert (Hmsg : msg = "Unknown error").
    { subst msg. destruct Habsent as [-> | ->]; reflexivity. }
    split; [exact Hmsg |].
    exists (EFlush
              (flush env
                 ((log (world f3) ++ [extraction_failed_line src r])
                  ++ router_events env config src msg
                       (log (world f3) ++ [extraction_failed_line src r])))
            :: tail).
    split.
    + rewrite Hlog. f_equal. rewrite Hmsg.
      symmetry. exact (router_log env config src "Unknown error" f4).
    + constructor; [reflexivity | exact Htail].
  - eexists. split.
    + rewrite Hlog, Hpre, <- !app_assoc. reflexivity.
    + intros ev Hin Hw.
      apply in_app_or in Hin as [Hin | Hin].
      { rewrite List.Forall_forall in Hinput. apply Hinput in Hin.
        destruct ev; discriminate. }
      apply in_app_or in Hin as [Hin | Hin].
      { destruct Hin as [<- | []]. discriminate. }
      apply in_app_or in Hin as [Hin | Hin].
      { eapply router_events_writes; eassumption. }
      destruct Hin as [<- | Hin]; [discriminate |].
      rewrite List.Forall_forall in Htail. apply Htail in Hin.
      destruct ev; discriminate.
Qed.

(** C10.  When an exception leaves the [try] body, the [except] clause
    flushes the observer once.  When that flush returns, the exception is
    then logged and raised again; when that flush raises, its exception
    leaves the handler in place of the first one and nothing is logged. *)
Theorem fault_path_flushes_once_then_reraises
  (cloud_event : CloudEvent) (w : World) (e : Exn) (f2 : Frame) :
  main_steps env config cloud_event (entry_frame w) = (Raised e, f2) ->
  let r := flush env (log (world f2)) in
  let final := handle_invoice_classified env config cloud_event w in
  exists tail,
    log (snd final) = log (world f2) ++ EFlush r :: tail
    /\ count is_flush tail = 0%nat
    /\ (r = None ->
        fst final = Raised e
        /\ exists latency_ms,
             tail = [ELog EXCEPTION "Extraction processing failed"
                       [("error", LStr (exn_str e));
                        ("error_type", LStr (exn_type e));
                        ("source_file", LStr (source_file f2));
                        ("latency_ms", LInt latency_ms);
                        ("total_input_bytes",
                         LInt (total_input_bytes f2))]])
    /\ (forall e', r = Some e' -> fst final = Raised e' /\ tail = []).
Proof.
  intros Hmain r final. subst final.
  destruct (extractor_fault_path _ _ _ _ Hmain) as (lat & Hout & Hlog).
  cbv zeta in Hout, Hlog. fold r in Hout, Hlog.
  eexists. split; [exact Hlog |].
  destruct r as [e' |].
  - split; [reflexivity |]. split; [intros Heq; discriminate |].
    intros e'' Heq. injection Heq as <-. split; [exact Hout | reflexivity].
  - split; [reflexivity |]. split; [| intros e' Heq; discriminate].
    intros _. split; [exact Hout |]. eexists. reflexivity.
Qed.

(* The success branch. *)

Lemma extractor_annotate_pending (r : ExtractionResult.t)
  (trace_context : TraceContext.t) :
  keeps exception_to_raise (annotate_scores env r trace_context).
Proof. unfold annotate_scores. footprint. Qed.

Lemma extractor_annotate_source (r : ExtractionResult.t)
  (trace_context : TraceContext.t) :
  keeps source_file (annotate_scores env r trace_context).
Proof. unfold annotate_scores. footprint. Qed.

Lemma extractor_annotate_emits (r : ExtractionResult.t)
  (trace_context : TraceContext.t) :
  emits (fun ev => is_publish ev = false)
        (annotate_scores env r trace_context).
Proof. unfold annotate_scores. footprint. Qed.

(** No step of the [try] body assigns [exception_to_raise]. *)
Lemma extractor_main_steps_pending (cloud_event : CloudEvent) :
  keeps exception_to_raise (main_steps env config cloud_event).
Proof.
  unfold main_steps. apply keeps_bind.
  - apply extractor_reach_result_pending.
  - intros [[message trace_context] r].
    destruct (negb (ExtractionResult.success r)).
    + unfold on_extraction_failed. footprint; apply extractor_get_keeps.
    + unfold on_extraction_succeeded.
      footprint; try apply extractor_get_keeps.
      apply extractor_annotate_pending.
Qed.

(** However the [try] body ends, the handler then only flushes and logs. *)
Lemma extractor_exit_log (cloud_event : CloudEvent) (w : World) :
  let res := main_steps env config cloud_event (entry_frame w) in
  exists tail,
    log (snd (handle_invoice_classified env config cloud_event w))
    = log (world (snd res)) ++ tail
    /\ Forall (fun ev => is_flush ev || is_log ev = true) tail.
Proof.
  intros res.
  pose proof (extractor_main_steps_pending cloud_event (entry_frame w))
    as Hpending.
  fold res in Hpending. cbn [exception_to_raise entry_frame] in Hpending.
  destruct res as [[[] | | e] f2] eqn:Hres; cbn [snd] in *.
  - destruct (extractor_normal_path _ _ _ Hres Hpending)
      as (extra & _ & Hlog).
    eexists. split; [exact Hlog | repeat constructor].
  - destruct (extractor_return_path _ _ _ Hres) as (_ & Hlog).
    exists []. rewrite app_nil_r. split; [exact Hlog | constructor].
  - destruct (extractor_fault_path _ _ _ _ Hres) as (lat & _ & Hlog).
    eexists. split; [exact Hlog |].
    constructor; [reflexivity |].
    destruct (flush env (log (world f2))); repeat constructor.
Qed.

(** The branch for a positive result, once the scores are attached: one
    publish, then the flush. *)
Lemma extractor_on_succeeded_eq (message : InvoiceClassifiedMessage.t)
  (trace_context : TraceContext.t) (r : ExtractionResult.t)
  (f3 f5 : Frame) :
  let f4 :=
    with_world
      (record_event env
         (extraction_successful_line (source_file f3) message trace_context r)
         (world f3)) f3 in
  annotate_scores env r trace_context f4 = (Normal tt, f5) ->
  let payload :=
    dump_extracted env
      (extracted_message (source_file f3) message trace_context r) in
  let pr := publish env (log (world f5)) (extracted_topic config) payload in
  let f6 :=
    with_world
      (record_event env (EPublish (extracted_topic config) payload pr)
                    (world f5)) f5 in
  let fr := flush env (log (world f6)) in
  on_extraction_succeeded env config message trace_context r f3
  = match pr with
    | Some e => (Raised e, f6)
    | None =>
        (match fr with None => Normal tt | Some e => Raised e end,
         with_world (record_event env (EFlush fr) (world f6)) f6)
    end.
Proof.
  intros f4 Hannot payload pr f6 fr.
  unfold on_extraction_succeeded, get. unfold bind at 1 2.
  cbn [logger emit modify fst snd].
  change (with_world (record_event env _ (world_of f3)) f3) with f4.
  unfold bind at 1. rewrite Hannot.
  unfold call_unit, bind, emit, modify. cbn [fst snd].
  change (world_of f5) with (world f5). fold payload. fold pr. fold f6.
  destruct pr as [e |]; [reflexivity |].
  cbn [ret]. change (world_of f6) with (world f6). fold fr.
  destruct fr; reflexivity.
Qed.

(** The log at the end of the [try] body for a positive result whose
    scores were attached: a single publish, of the outgoing message, has
    been added after the input-side events. *)
Lemma extractor_success_main (cloud_event : CloudEvent) (w : World)
  (message : InvoiceClassifiedMessage.t) (trace_context : TraceContext.t)
  (r : ExtractionResult.t) (f3 f5 : Frame) :
  reach_result env config cloud_event (entry_frame w)
  = (Normal (message, trace_context, r), f3) ->
  ExtractionResult.success r = true ->
  let src := InvoiceClassifiedMessage.source_file message in
  let f4 :=
    with_world
      (record_event env
         (extraction_successful_line src message trace_context r)
         (world f3)) f3 in
  annotate_scores env r trace_context f4 = (Normal tt, f5) ->
  let payload :=
    dump_extracted env (extracted_message src message trace_context r) in
  let pr := publish env (log (world f5)) (extracted_topic config) payload in
  let res := main_steps env config cloud_event (entry_frame w) in
  let fr :=
    flush env (log (world f5) ++ [EPublish (extracted_topic config) payload pr])
  in
  fst res
  = match pr with
    | Some e => Raised e
    | None => match fr with None => Normal tt | Some e => Raised e end
    end
  /\ exists before rest,
       log (world (snd res))
       = log w ++ before ++ EPublish (extracted_topic config) payload pr :: rest
       /\ Forall (fun ev => is_publish ev = false) before
       /\ Forall (fun ev => is_flush ev = true) rest.
Proof.
  intros Hreach Hok src. subst src.
  rewrite <- (extractor_reach_result_source _ _ _ _ _ _ Hreach).
  intros f4 Hannot payload pr res fr.
  destruct (extractor_reach_result_emits cloud_event (entry_frame w))
    as (pre & Hpre & Hinput).
  rewrite Hreach in Hpre. cbn in Hpre.
  destruct (extractor_annotate_emits r trace_context f4)
    as (ann & Hann & Hquiet).
  rewrite Hannot in Hann. cbn [snd] in Hann.
  change (world_of f5) with (world f5) in Hann.
  change (world_of f4) with (world f4) in Hann.
  subst f4. rewrite extractor_world_with_world in Hann.
  cbn [record_event log] in Hann. rewrite Hpre, <- !app_assoc in Hann.
  set (before :=
         pre ++ [extraction_successful_line (source_file f3) message
                   trace_context r] ++ ann) in *.
  assert (Hbefore : Forall (fun ev => is_publish ev = false) before).
  { subst before. apply Forall_app. split.
    - eapply Forall_impl; [exact Hinput |]. intros []; simpl; congruence.
    - constructor; [reflexivity | exact Hquiet]. }
  assert (Hmain :
    res = on_extraction_succeeded env config message trace_context r f3).
  { subst res. unfold main_steps. unfold bind at 1. rewrite Hreach.
    cbv beta iota. now rewrite Hok. }
  pose proof (extractor_on_succeeded_eq message trace_context r f3 f5 Hannot)
    as Heq.
  cbv zeta in Heq. fold payload pr in Heq.
  rewrite !extractor_world_with_world in Heq. cbn [record_event log] in Heq.
  fold fr in Heq. rewrite Heq in Hmain. rewrite Hmain. clear Heq Hmain.
  destruct pr as [e |].
  - split; [reflexivity |]. exists before, [].
    cbn [snd]. rewrite extractor_world_with_world. cbn [record_event log].
    rewrite Hann, <- !app_assoc. repeat split; [exact Hbefore | constructor].
  - split; [destruct fr; reflexivity |]. exists before, [EFlush fr].
    cbn [snd]. rewrite !extractor_world_with_world. cbn [record_event log].
    rewrite Hann, <- !app_assoc.
    repeat split; [exact Hbefore | repeat constructor].
Qed.

(** The score annotation is skipped when no invoice was produced or the
    observer is disabled. *)
Lemma extractor_annotate_skipped (r : ExtractionResult.t)
  (trace_context : TraceContext.t) (f : Frame) :
  ExtractionResult.invoice r = None \/ is_enabled env = false ->
  annotate_scores env r trace_context f = (Normal tt, f).
Proof.
  unfold annotate_scores. intros [-> | Hoff]; [reflexivity |].
  destruct (ExtractionResult.invoice r); [now rewrite Hoff | reflexivity].
Qed.

(** C3 (as amended).  For a valid Classified message whose extraction
    returns [success = True], once the optional score annotation has gone
    through, the handler publishes exactly once, on the extracted topic, the
    dump of an Extracted message whose [source_file] is that of the inbound
    message, whose latency and confidence are those of the result, whose
    [extraction_model] is ["gemini-2.5-flash"] for the provider ["gemini"]
    and ["openrouter"] for any other provider, and whose [extracted_data] is
    the dump of the invoice, or the empty object when there is none. *)
Theorem extraction_success_publishes_once
  (cloud_event : CloudEvent) (w : World)
  (message : InvoiceClassifiedMessage.t) (trace_context : TraceContext.t)
  (r : ExtractionResult.t) (f3 f5 : Frame) :
  reach_result env config cloud_event (entry_frame w)
  = (Normal (message, trace_context, r), f3) ->
  ExtractionResult.success r = true ->
  let src := InvoiceClassifiedMessage.source_file message in
  let f4 :=
    with_world
      (record_event env
         (extraction_successful_line src message trace_context r)
         (world f3)) f3 in
  annotate_scores env r trace_context f4 = (Normal tt, f5) ->
  let out := extracted_message src message trace_context r in
  let pr :=
    publish env (log (world f5)) (extracted_topic config)
            (dump_extracted env out) in
  let final := handle_invoice_classified env config cloud_event w in
  (exists new,
      log (snd final) = log w ++ new
      /\ count is_publish new = 1%nat
      /\ In (EPublish (extracted_topic config) (dump_extracted env out) pr)
            new)
  /\ InvoiceExtractedMessage.source_file out
     = InvoiceClassifiedMessage.source_file message
  /\ InvoiceExtractedMessage.extraction_latency_ms out
     = ExtractionResult.latency_ms r
  /\ InvoiceExtractedMessage.confidence_score out
     = ExtractionResult.confidence r
  /\ InvoiceExtractedMessage.extraction_model out
     = (if String.eqb (ExtractionResult.provider r) "gemini"
        then "gemini-2.5-flash" else "openrouter")
  /\ InvoiceExtractedMessage.extracted_data out
     = match ExtractionResult.invoice r with
       | Some invoice => invoice_dump invoice
       | None => JObj []
       end.
Proof.
  intros Hreach Hok src f4 Hannot out pr final. subst final.
  split; [| repeat split].
  destruct (extractor_success_main _ _ _ _ _ _ _ Hreach Hok Hannot)
    as (_ & before & rest & Hlog & Hbefore & Hrest).
  fold src out pr in Hlog.
  destruct (extractor_exit_log cloud_event w) as (tail & Hfinal & Htail).
  cbv zeta in Hfinal. rewrite Hlog in Hfinal.
  exists (before ++ [EPublish (extracted_topic config)
                              (dump_extracted env out) pr]
                 ++ rest ++ tail).
  split; [| split].
  - rewrite Hfinal, <- !app_assoc. reflexivity.
  - rewrite !count_app.
    rewrite (count_none is_publish before Hbefore).
    rewrite (count_none_among is_publish is_flush rest);
      [| intros []; simpl; congruence | exact Hrest].
    rewrite (count_none_among is_publish
               (fun ev => is_flush ev || is_log ev) tail);
      [| intros []; simpl; congruence | exact Htail].
    reflexivity.
  - apply in_or_app. right. now left.
Qed.

(** The flush at the end of the [try] body, after the publish, raises. *)
Lemma extractor_success_flush_fault (cloud_event : CloudEvent) (w : World)
  (message : InvoiceClassifiedMessage.t) (trace_context : TraceContext.t)
  (r : ExtractionResult.t) (f3 f5 : Frame) (e1 : Exn) :
  reach_result env config cloud_event (entry_frame w)
  = (Normal (message, trace_context, r), f3) ->
  ExtractionResult.success r = true ->
  let src := InvoiceClassifiedMessage.source_file message in
  let f4 :=
    with_world
      (record_event env
         (extraction_successful_line src message trace_context r)
         (world f3)) f3 in
  annotate_scores env r trace_context f4 = (Normal tt, f5) ->
  let payload :=
    dump_extracted env (extracted_message src message trace_context r) in
  publish env (log (world f5)) (extracted_topic config) payload = None ->
  let h := log (world f5) ++ [EPublish (extracted_topic config) payload None] in
  flush env h = Some e1 ->
  flush_fault_reraised env h e1
    (handle_invoice_classified env config cloud_event w).
Proof.
  intros Hreach Hok src. subst src.
  rewrite <- (extractor_reach_result_source _ _ _ _ _ _ Hreach).
  intros f4 Hannot payload Hpublish h Hflush.
  assert (Hmain :
    main_steps env config cloud_event (entry_frame w)
    = on_extraction_succeeded env config message trace_context r f3).
  { unfold main_steps. unfold bind at 1. rewrite Hreach.
    cbv beta iota. now rewrite Hok. }
  pose proof (extractor_on_succeeded_eq message trace_context r f3 f5 Hannot)
    as Heq.
  cbv zeta in Heq. fold payload in Heq. rewrite Hpublish in Heq.
  rewrite !extractor_world_with_world in Heq. cbn [record_event log] in Heq.
  fold h in Heq. rewrite Hflush in Heq. rewrite Heq in Hmain.
  apply (extractor_flush_fault _ _ _ _ h Hmain).
  rewrite !extractor_world_with_world. cbn [record_event log]. reflexivity.
Qed.

(** C4 (as amended).  On the failure branch the router always ends
    normally: a fault of its copy or of its write, or a source that does
    not parse, is caught and logged by the router, and whatever the router
    met, the handler returns normally when the flush after it returns.  A
    fault of a flush inside the [try] body is not swallowed, neither that of
    the flush after the routing (line 149) nor that of the flush after the
    publish (line 208): it is caught by the handler's [except] clause, which
    flushes once more; the fault is then logged and raised again, unless
    this last flush (line 212) raises, whose fault then leaves the handler
    directly, with nothing logged. *)
Theorem routing_faults_are_swallowed_flush_faults_are_not
  (cloud_event : CloudEvent) (w : World)
  (message : InvoiceClassifiedMessage.t) (trace_context : TraceContext.t)
  (r : ExtractionResult.t) (f3 : Frame) :
  reach_result env config cloud_event (entry_frame w)
  = (Normal (message, trace_context, r), f3) ->
  let src := InvoiceClassifiedMessage.source_file message in
  let final := handle_invoice_classified env config cloud_event w in
  (ExtractionResult.success r = false ->
   let msg := str_or (ExtractionResult.error r) "Unknown error" in
   let f4 :=
     with_world (record_event env (extraction_failed_line src r) (world f3))
                f3 in
   let run := _copy_to_failed_bucket env config src msg f4 in
   let evs := router_events env config src msg (log (world f4)) in
   let h5 := log (world (snd run)) in
   fst run = Normal tt
   /\ h5 = log (world f4) ++ evs
   /\ (forall ev, In ev evs -> copy_faulted ev || write_faulted ev = true ->
       exists e, In (router_failure_log src e) evs)
   /\ (forall e, parse_gcs_uri env src = inl e ->
       evs = [router_failure_log src e])
   /\ (flush env h5 = None -> fst final = Normal tt)
   /\ (forall e1, flush env h5 = Some e1 ->
       fst final
       = Raised (match flush env (h5 ++ [EFlush (Some e1)]) with
                 | None => e1
                 | Some e2 => e2
                 end)
       /\ flush_fault_reraised env h5 e1 final))
  /\ (ExtractionResult.success r = true ->
      let f4 :=
        with_world
          (record_event env
             (extraction_successful_line src message trace_context r)
             (world f3)) f3 in
      forall f5 : Frame,
        annotate_scores env r trace_context f4 = (Normal tt, f5) ->
        let payload :=
          dump_extracted env (extracted_message src message trace_context r)
        in
        publish env (log (world f5)) (extracted_topic config) payload = None ->
        let h :=
          log (world f5) ++ [EPublish (extracted_topic config) payload None]
        in
        forall e1, flush env h = Some e1 ->
          fst final
          = Raised (match flush env (h ++ [EFlush (Some e1)]) with
                    | None => e1
                    | Some e2 => e2
                    end)
          /\ flush_fault_reraised env h e1 final).
Proof.
  intros Hreach src final. subst final. split.
  - intros Hfailed msg f4 run evs h5.
    assert (Hh5 : h5 = log (world f4) ++ evs).
    { exact (router_log env config src msg f4). }
    pose proof (extractor_failure_path _ _ _ _ _ _ Hreach Hfailed) as Hpath.
    cbv zeta in Hpath. fold src msg in Hpath.
    change (log (world f3) ++ [extraction_failed_line src r])
      with (log (world f4)) in Hpath.
    fold evs in Hpath. rewrite <- Hh5 in Hpath.
    destruct (extractor_failed_main _ _ _ _ _ _ Hreach Hfailed)
      as (f6 & Hmain & Hlog6).
    cbv zeta in Hmain, Hlog6. fold src msg in Hmain, Hlog6.
    change (log (world f3) ++ [extraction_failed_line src r])
      with (log (world f4)) in Hmain, Hlog6.
    fold evs in Hmain, Hlog6. rewrite <- Hh5 in Hmain, Hlog6.
    split; [| split; [exact Hh5 | split; [| split; [| split]]]].
    + subst run. now rewrite router_run.
    + subst evs. unfold router_events.
      destruct (parse_gcs_uri env src) as [e | [bucket path]]; cbv zeta.
      * intros ev [<- | []]. discriminate.
      * destruct (storage_copy env _ _ _ _ _) as [e | uri].
        -- intros ev _ _. exists e. right. now left.
        -- destruct (storage_write env _ _ _ _ _) as [e |].
           ++ intros ev _ _. exists e. right. right. now left.
           ++ intros ev [<- | [<- | [<- | []]]]; discriminate.
    + intros e Hparse. subst evs. unfold router_events. now rewrite Hparse.
    + intros Hflush. rewrite Hflush in Hpath. apply Hpath.
    + intros e1 Hflush. split.
      * rewrite Hflush in Hpath. apply Hpath.
      * rewrite Hflush in Hmain, Hlog6.
        exact (extractor_flush_fault _ _ _ _ _ Hmain Hlog6).
  - intros Hok f4 f5 Hannot payload Hpublish h e1 Hflush.
    pose proof (extractor_success_flush_fault _ _ _ _ _ _ _ _ Hreach Hok
                  Hannot Hpublish Hflush) as Hfault.
    split; [| exact Hfault].
    unfold flush_fault_reraised in Hfault. cbv zeta in Hfault.
    fold src payload h in Hfault.
    destruct (flush env (h ++ [EFlush (Some e1)])); apply Hfault.
Qed.

(** A body of the wrong shape: the [try] body raises at once. *)
Lemma extractor_malformed_main (cloud_event : CloudEvent) (w : World)
  (raw : Json) (err : Exn) :
  decode_body env cloud_event w = (Normal raw, w) ->
  validate_classified env raw = inl err ->
  main_steps env config cloud_event (entry_frame w)
  = (Raised err, entry_frame w).
Proof.
  intros Hdecode Hinvalid.
  apply (decode_body_pure env cloud_event w (entry_frame w)) in Hdecode.
  unfold main_steps, reach_result, receive.
  unfold bind at 1 2 3. rewrite Hdecode.
  unfold bind at 1. now rewrite Hinvalid.
Qed.

End Extractor.

(* ===================================================================== *)
(** * The classification stage *)
(* ===================================================================== *)

Section Classifier.
Import InvoiceClassifier.
Variable env : Env.
Variable config : Config.

Lemma classifier_world_with_world (w : World) (f : Frame) :
  world (with_world w f) = w.
Proof. reflexivity. Qed.

Lemma classifier_entry (w : World) :
  function_timer_enter (initial_frame w)
  = (Normal (timing_handle w, now w), entry_frame w).
Proof. exact (function_timer_enter_eq (initial_frame w)). Qed.

(** The handler in terms of its [try] statement. *)
Lemma classifier_handler_eq (cloud_event : CloudEvent) (w : World) :
  let r :=
    try_except (main_steps env config cloud_event) on_exception
               (entry_frame w) in
  let f3 := closed_scope (timing_handle w) (now w) (snd r) in
  handle_invoice_converted env config cloud_event w
  = match fst r with
    | Normal _ =>
        match after_timer env config (timing_handle w) f3 with
        | (Raised e, f) => (Raised e, world f)
        | (_, f) => (Normal tt, world f)
        end
    | Returned => (Normal tt, world f3)
    | Raised e => (Raised e, world f3)
    end.
Proof.
  intros r f3.
  unfold handle_invoice_converted, handler_body. unfold bind at 1.
  rewrite function_timer_closed. rewrite classifier_entry.
  cbn [snd]. fold r.
  change (fresh (dom (heap (world_of (initial_frame w)))))
    with (timing_handle w).
  change (now (world_of (initial_frame w))) with (now w).
  fold f3. destruct (fst r); reflexivity.
Qed.

Lemma classifier_after_timer_pending (w : World) (f2 : Frame) (e : Exn) :
  exception_to_raise f2 = Some e ->
  let f3 := closed_scope (timing_handle w) (now w) f2 in
  exists f4,
    after_timer env config (timing_handle w) f3 = (Raised e, f4)
    /\ log (world f4)
       = log (world f2)
         ++ [ELog EXCEPTION "Classification failed"
               [("error", LStr (exn_str e));
                ("error_type", LStr (exn_type e));
                ("source_file", LStr (source_file f2));
                ("latency_ms", LInt (elapsed_ms (now w) (world f2)));
                ("total_input_bytes", LInt (total_input_bytes f2))]].
Proof.
  intros Hpending f3.
  unfold after_timer, bind, get.
  change (exception_to_raise f3) with (exception_to_raise f2).
  rewrite Hpending. subst f3. rewrite dict_getitem_closed_scope.
  eexists. split; [reflexivity |].
  cbn [snd fst logger emit modify]. reflexivity.
Qed.

Lemma classifier_after_timer_clear (w : World) (f2 : Frame) :
  exception_to_raise f2 = None ->
  let f3 := closed_scope (timing_handle w) (now w) f2 in
  exists f4 extra,
    after_timer env config (timing_handle w) f3 = (Normal tt, f4)
    /\ log (world f4)
       = log (world f2)
         ++ [ELog INFO "Classification complete - published event" extra].
Proof.
  intros Hpending f3.
  unfold after_timer, bind, get.
  change (exception_to_raise f3) with (exception_to_raise f2).
  rewrite Hpending. subst f3. rewrite dict_getitem_closed_scope.
  eexists. eexists. split; reflexivity.
Qed.

(** The fault path: the exception is kept, then logged and raised again
    after the [with] block. *)
Lemma classifier_fault_path (cloud_event : CloudEvent) (w : World)
  (e : Exn) (f2 : Frame) :
  main_steps env config cloud_event (entry_frame w) = (Raised e, f2) ->
  fst (handle_invoice_converted env config cloud_event w) = Raised e
  /\ exists extra,
       log (snd (handle_invoice_converted env config cloud_event w))
       = log (world f2) ++ [ELog EXCEPTION "Classification failed" extra].
Proof.
  intros Hmain.
  rewrite classifier_handler_eq. cbv zeta.
  unfold try_except. rewrite Hmain.
  unfold on_exception, set_exception_to_raise, modify. cbn [fst snd].
  match goal with
  | |- context [closed_scope _ _ ?f] =>
      destruct (classifier_after_timer_pending w f e eq_refl)
        as (f4 & Hafter & Hlog)
  end.
  rewrite Hafter. cbn [fst snd]. split; [reflexivity |].
  eexists. exact Hlog.
Qed.

(** The path on which the [try] body runs to its end. *)
Lemma classifier_normal_path (cloud_event : CloudEvent) (w : World)
  (f2 : Frame) :
  main_steps env config cloud_event (entry_frame w) = (Normal tt, f2) ->
  exception_to_raise f2 = None ->
  fst (handle_invoice_converted env config cloud_event w) = Normal tt
  /\ exists extra,
       log (snd (handle_invoice_converted env config cloud_event w))
       = log (world f2)
         ++ [ELog INFO "Classification complete - published event" extra].
Proof.
  intros Hmain Hclear. rewrite classifier_handler_eq. cbv zeta.
  unfold try_except. rewrite Hmain. cbn [fst snd].
  destruct (classifier_after_timer_clear w f2 Hclear)
    as (f4 & extra & Hafter & Hlog).
  rewrite Hafter. cbn [fst snd]. split; [reflexivity |].
  exists extra. exact Hlog.
Qed.

(** A body of the wrong shape: the [try] body raises at once. *)
Lemma classifier_malformed_main (cloud_event : CloudEvent) (w : World)
  (raw : Json) (err : Exn) :
  decode_body env cloud_event w = (Normal raw, w) ->
  validate_converted env raw = inl err ->
  main_steps env config cloud_event (entry_frame w)
  = (Raised err, entry_frame w).
Proof.
  intros Hdecode Hinvalid.
  apply (decode_body_pure env cloud_event w (entry_frame w)) in Hdecode.
  unfold main_steps, reach_images, receive.
  unfold bind at 1 2 3. rewrite Hdecode.
  unfold bind at 1. now rewrite Hinvalid.
Qed.

(* Footprints of the steps of the [try] body. *)

Lemma classifier_get_keeps {A B} (proj : Frame -> B) (field : Frame -> A) :
  keeps proj (get field).
Proof. now intros f. Qed.

Lemma classifier_get_emits {A} (P : Event -> Prop) (field : Frame -> A) :
  emits P (get field).
Proof. now apply emits_nothing. Qed.

Lemma classifier_download_loop_pending (uris : list string)
  (images_data : list Bytes) :
  keeps exception_to_raise (download_loop env uris images_data).
Proof.
  revert images_data. induction uris as [| uri uris IH]; intros images_data;
    simpl.
  - apply keeps_ret.
  - unfold set_total_input_bytes.
    footprint; try apply classifier_get_keeps. apply IH.
Qed.

Lemma classifier_download_loop_source (uris : list string)
  (images_data : list Bytes) :
  keeps source_file (download_loop env uris images_data).
Proof.
  revert images_data. induction uris as [| uri uris IH]; intros images_data;
    simpl.
  - apply keeps_ret.
  - unfold set_total_input_bytes.
    footprint; try apply classifier_get_keeps. apply IH.
Qed.

Lemma classifier_download_loop_emits (uris : list string)
  (images_data : list Bytes) :
  emits (fun ev => is_input_event ev = true)
        (download_loop env uris images_data).
Proof.
  revert images_data. induction uris as [| uri uris IH]; intros images_data;
    simpl.
  - apply emits_ret.
  - unfold set_total_input_bytes.
    footprint; try apply classifier_get_emits. apply IH.
Qed.

Lemma classifier_reach_images_emits (cloud_event : CloudEvent) :
  emits (fun ev => is_input_event ev = true)
        (reach_images env cloud_event).
Proof.
  unfold reach_images, receive, download, set_source_file,
    set_total_input_bytes.
  footprint; try apply classifier_get_emits.
  apply classifier_download_loop_emits.
Qed.

Lemma classifier_main_steps_pending (cloud_event : CloudEvent) :
  keeps exception_to_raise (main_steps env config cloud_event).
Proof.
  unfold main_steps, reach_images, receive, download, check_quality,
    classify_archive_publish, classify, archive, set_source_file,
    set_total_input_bytes, set_avg_score, set_classification.
  footprint; try apply classifier_get_keeps.
  apply classifier_download_loop_pending.
Qed.

Lemma classifier_receive_source (cloud_event : CloudEvent) (f f1 : Frame)
  (message : InvoiceConvertedMessage.t) :
  receive env cloud_event f = (Normal message, f1) ->
  source_file f1 = InvoiceConvertedMessage.source_file message.
Proof.
  unfold receive, bind.
  destruct (decode_body env cloud_event f) as [[raw | | e] f0]; try discriminate.
  destruct (validate_converted env raw) as [e | m]; try discriminate.
  cbn. intros Heq. injection Heq as <- <-. reflexivity.
Qed.

(** When the downloads are done, the local [source_file] holds the source
    of the inbound message. *)
Lemma classifier_reach_images_source (cloud_event : CloudEvent)
  (f f2 : Frame) (message : InvoiceConvertedMessage.t)
  (images_data : list Bytes) :
  reach_images env cloud_event f = (Normal (message, images_data), f2) ->
  source_file f2 = InvoiceConvertedMessage.source_file message.
Proof.
  unfold reach_images. unfold bind at 1.
  destruct (receive env cloud_event f) as [[m | | e] f1] eqn:Hrecv;
    try discriminate.
  apply classifier_receive_source in Hrecv.
  unfold bind at 1.
  assert (Hdl : keeps source_file (download env m)).
  { unfold download, set_total_input_bytes.
    footprint; try apply classifier_get_keeps.
    apply classifier_download_loop_source. }
  specialize (Hdl f1).
  destruct (download env m f1) as [[images | | e] f2']; try discriminate.
  cbn in *. intros Heq. injection Heq as <- <- <-. congruence.
Qed.

(** The [try] body after the downloads, when quality validation gives an
    invalid verdict and classification and archiving go through. *)
Lemma classifier_invalid_quality_main (cloud_event : CloudEvent)
  (f f2 : Frame) (message : InvoiceConvertedMessage.t)
  (images_data : list Bytes) (score : Q) (issues : list string)
  (c : ClassificationResult.t) (bucket path archive_uri : string) :
  reach_images env cloud_event f = (Normal (message, images_data), f2) ->
  validate_all_images env images_data = inr (false, score, issues) ->
  let src := InvoiceConvertedMessage.source_file message in
  classify_vendor env src (InvoiceConvertedMessage.converted_files message)
  = inr c ->
  parse_gcs_uri env src = inr (bucket, path) ->
  let h1 :=
    log (world f2)
    ++ [quality_warning_line src score issues; classification_line src c] in
  storage_copy env h1 bucket path (archive_bucket config) path
  = inr archive_uri ->
  let h2 :=
    h1 ++ [EStorageCopy bucket path (archive_bucket config) path
                        (inr archive_uri);
           archived_line src archive_uri] in
  let payload :=
    dump_classified env
      (classified_message src message c score archive_uri) in
  let pr := publish env h2 (classified_topic config) payload in
  exists f3,
    main_steps env config cloud_event f
    = (match pr with None => Normal tt | Some e => Raised e end, f3)
    /\ log (world f3) = h2 ++ [EPublish (classified_topic config) payload pr].
Proof.
  intros Hreach Hverdict src. subst src.
  rewrite <- (classifier_reach_images_source _ _ _ _ _ Hreach).
  intros Hclassify Hparse h1 Hcopy h2 payload pr.
  unfold main_steps. unfold bind at 1. rewrite Hreach. cbv beta iota.
  unfold check_quality, classify_archive_publish, classify, archive.
  unfold bind, get, set_avg_score, set_classification, modify, logger, emit,
    modify, call, call_unit, bind, emit, modify.
  rewrite Hverdict.
  cbn [of_result ret fst snd negb source_file avg_score world world_of
       with_world Frame_HasWorld record_event log].
  rewrite Hclassify.
  cbn [of_result ret fst snd negb source_file avg_score world world_of
       with_world Frame_HasWorld record_event log].
  rewrite Hparse.
  cbn [of_result ret fst snd negb source_file avg_score world world_of
       with_world Frame_HasWorld record_event log].
  rewrite <- !app_assoc. cbn [app].
  change (storage_copy env _ bucket path (archive_bucket config) path)
    with (storage_copy env h1 bucket path (archive_bucket config) path).
  rewrite Hcopy.
  cbn [of_result ret fst snd negb source_file avg_score world world_of
       with_world Frame_HasWorld record_event log].
  rewrite <- !app_assoc. cbn [app].
  assert (Hh2 :
    h2 = log (world f2)
         ++ [quality_warning_line (source_file f2) score issues;
             classification_line (source_file f2) c;
             EStorageCopy bucket path (archive_bucket config) path
                          (inr archive_uri);
             archived_line (source_file f2) archive_uri]).
  { subst h2 h1. rewrite <- app_assoc. reflexivity. }
  unfold quality_warning_line, classification_line, archived_line in Hh2.
  rewrite <- Hh2.
  change (publish env h2 (classified_topic config) _) with pr.
  destruct pr as [e |];
    (eexists; split; [reflexivity |]);
    cbn [raise ret fst snd world record_event log];
    rewrite Hh2, <- !app_assoc; reflexivity.
Qed.

(** C7.  For a valid Converted message whose downloaded images get an
    invalid quality verdict, the handler logs the warning and goes on:
    when classification and archiving go through, it classifies the
    vendor, copies the original to the archive bucket under its own path,
    and publishes exactly once the Classified message that carries the
    average score of the verdict; it returns normally when that publish
    returns. *)
Theorem invalid_quality_does_not_abort (cloud_event : CloudEvent)
  (w : World) (f2 : Frame) (message : InvoiceConvertedMessage.t)
  (images_data : list Bytes) (score : Q) (issues : list string)
  (c : ClassificationResult.t) (bucket path archive_uri : string) :
  reach_images env cloud_event (entry_frame w)
  = (Normal (message, images_data), f2) ->
  validate_all_images env images_data = inr (false, score, issues) ->
  let src := InvoiceConvertedMessage.source_file message in
  classify_vendor env src (InvoiceConvertedMessage.converted_files message)
  = inr c ->
  parse_gcs_uri env src = inr (bucket, path) ->
  let h1 :=
    log (world f2)
    ++ [quality_warning_line src score issues; classification_line src c] in
  storage_copy env h1 bucket path (archive_bucket config) path
  = inr archive_uri ->
  let copy_ev :=
    EStorageCopy bucket path (archive_bucket config) path (inr archive_uri) in
  let out := classified_message src message c score archive_uri in
  let pr :=
    publish env (h1 ++ [copy_ev; archived_line src archive_uri])
            (classified_topic config) (dump_classified env out) in
  let final := handle_invoice_converted env config cloud_event w in
  (exists pre tail,
      log (snd final)
      = log w
        ++ pre
        ++ [quality_warning_line src score issues;
            classification_line src c;
            copy_ev;
            archived_line src archive_uri;
            EPublish (classified_topic config) (dump_classified env out) pr]
        ++ tail
      /\ count is_publish pre = 0%nat
      /\ count is_publish tail = 0%nat)
  /\ InvoiceClassifiedMessage.quality_score out = score
  /\ InvoiceClassifiedMessage.source_file out = src
  /\ InvoiceClassifiedMessage.archived_to out = archive_uri
  /\ (pr = None -> fst final = Normal tt).
Proof.
  intros Hreach Hverdict src Hclassify Hparse h1 Hcopy copy_ev out pr final.
  subst final.
  destruct (classifier_invalid_quality_main _ _ _ _ _ _ _ _ _ _ _
              Hreach Hverdict Hclassify Hparse Hcopy)
    as (f3 & Hmain & Hlog3).
  fold src h1 copy_ev out pr in Hmain, Hlog3.
  destruct (classifier_reach_images_emits cloud_event (entry_frame w))
    as (pre & Hpre & Hinput).
  rewrite Hreach in Hpre. cbn in Hpre.
  pose proof (classifier_main_steps_pending cloud_event (entry_frame w))
    as Hpending.
  rewrite Hmain in Hpending. cbn in Hpending.
  assert (Hfinal :
    exists tail,
      log (snd (handle_invoice_converted env config cloud_event w))
      = log (world f3) ++ tail
      /\ count is_publish tail = 0%nat
      /\ (pr = None ->
          fst (handle_invoice_converted env config cloud_event w)
          = Normal tt)).
  { destruct pr as [e |].
    - destruct (classifier_fault_path _ _ _ _ Hmain) as (_ & extra & Hlog).
      eexists. split; [exact Hlog |]. split; [reflexivity | discriminate].
    - destruct (classifier_normal_path _ _ _ Hmain Hpending)
        as (Hout & extra & Hlog).
      eexists. split; [exact Hlog |]. split; [reflexivity | now intros _]. }
  destruct Hfinal as (tail & Hlog & Htail & Hout).
  split; [| repeat split; exact Hout].
  exists pre, tail. split; [| split; [| exact Htail]].
  - rewrite Hlog, Hlog3. subst h1. rewrite Hpre, <- !app_assoc. reflexivity.
  - apply (count_none_among is_publish is_input_event); [| exact Hinput].
    intros []; simpl; congruence.
Qed.

End Classifier.

(* ===================================================================== *)
(** * Validation comes before every side effect *)
(* ===================================================================== *)

Section ValidateThenAct.
Variable env : Env.
Variable config : Config.

(** C2.  When the decoded body of the bus message does not validate, the
    handler of either stage raises, and what it has added to the log by then
    contains no download, no copy, no write and no publish: the extraction
    stage has flushed the observer and logged the exception (or only
    flushed, when the flush raised), the classification stage has logged the
    exception. *)
Theorem malformed_message_faults_before_any_side_effect
  (cloud_event : CloudEvent) (w : World) (raw : Json) :
  decode_body env cloud_event w = (Normal raw, w) ->
  (forall err, validate_classified env raw = inl err ->
     let final :=
       DataExtractor.handle_invoice_classified env config cloud_event w in
     (exists e, fst final = Raised e)
     /\ exists new,
          log (snd final) = log w ++ new
          /\ Forall (fun ev => is_side_effect ev = false) new
          /\ Forall (fun ev => is_flush ev || is_log ev = true) new)
  /\ (forall err, validate_converted env raw = inl err ->
      let final :=
        InvoiceClassifier.handle_invoice_converted env config cloud_event w in
      fst final = Raised err
      /\ exists extra,
           log (snd final)
           = log w ++ [ELog EXCEPTION "Classification failed" extra]).
Proof.
  intros Hdecode. split.
  - intros err Hinvalid final. subst final.
    pose proof (extractor_malformed_main env config _ _ _ _ Hdecode Hinvalid)
      as Hmain.
    destruct (extractor_fault_path env config _ _ _ _ Hmain)
      as (lat & Hout & Hlog).
    cbv zeta in Hout, Hlog. cbn [DataExtractor.entry_frame DataExtractor.world
                                 log] in Hout, Hlog.
    split; [eexists; exact Hout |].
    eexists. split; [exact Hlog |].
    destruct (flush env (log w)); split; repeat constructor.
  - intros err Hinvalid final. subst final.
    pose proof (classifier_malformed_main env config _ _ _ _ Hdecode Hinvalid)
      as Hmain.
    destruct (classifier_fault_path env config _ _ _ _ Hmain)
      as (Hout & extra & Hlog).
    split; [exact Hout |]. exists extra. exact Hlog.
Qed.

End ValidateThenAct.

(* ===================================================================== *)
(** * Worked runs on the test doubles *)
(* ===================================================================== *)

Section Runs.
Import Sample.

(** A scope whose body raises after ten milliseconds: the exception leaves
    the scope and the handle holds ten milliseconds next to the metric of
    the body. *)
Lemma function_timer_writes_once_on_exit_run :
  fst (function_timer sleepy_body world0)
  = Raised (mkExn "ValueError" "test error")
  /\ exists d : gmap string Z,
       heap (snd (function_timer sleepy_body world0)) !! 1%positive = Some d
       /\ d !! "latency_ms" = Some 10
       /\ d !! "custom_metric" = Some 42.
Proof.
  pose proof (function_timer_writes_once_on_exit sleepy_body world0) as Hrun.
  cbv zeta in Hrun.
  destruct Hrun as (_ & _ & Heq & Hraise & _ & _).
  { vm_compute. discriminate. }
  split.
  - apply Hraise. reflexivity.
  - rewrite Heq. eexists. split; [vm_compute; reflexivity |].
    split; vm_compute; reflexivity.
Defined.

(** The frame in which the extraction call has just returned. *)
Local Abbreviation reached sc :=
  (snd (DataExtractor.reach_result (double sc) config
          (bus_event classified_b64) (DataExtractor.entry_frame world0))).

(** Both providers fail and every collaborator answers: the handler returns
    normally. *)
Lemma extraction_failure_routes_once_without_publish_run :
  fst (DataExtractor.handle_invoice_classified
         (double (failing (Some "provider timeout"))) config
         (bus_event classified_b64) world0)
  = Normal tt.
Proof.
  pose proof (extraction_failure_routes_once_without_publish
                (double (failing (Some "provider timeout"))) config
                (bus_event classified_b64) world0
                classified_message trace_context
                (extracted_failed (Some "provider timeout"))
                (reached (failing (Some "provider timeout")))) as Hrun.
  cbv zeta in Hrun.
  destruct Hrun as (_ & _ & _ & Hreturns & _).
  - vm_compute. reflexivity.
  - reflexivity.
  - apply Hreturns. vm_compute. reflexivity.
Defined.

(** Both providers fail and the flush after the routing raises: the handler
    raises, although the extraction returned a negative result and did not
    raise. *)
Lemma failed_extraction_raises_when_flush_faults :
  let env := double failing_observer_down in
  let final :=
    DataExtractor.handle_invoice_classified env config
      (bus_event classified_b64) world0 in
  fst (DataExtractor.reach_result env config (bus_event classified_b64)
         (DataExtractor.entry_frame world0))
  = Normal (classified_message, trace_context,
            extracted_failed (Some "provider timeout"))
  /\ ExtractionResult.success (extracted_failed (Some "provider timeout"))
     = false
  /\ fst final = Raised observer_down
  /\ fst final <> Normal tt.
Proof. vm_compute. repeat split. discriminate. Qed.

(** A body of the wrong shape: both handlers raise the validation error. *)
Lemma malformed_message_faults_before_any_side_effect_run :
  fst (DataExtractor.handle_invoice_classified (double nominal) config
         (bus_event malformed_b64) world0)
  = Raised validation_error
  /\ fst (InvoiceClassifier.handle_invoice_converted (double nominal) config
            (bus_event malformed_b64) world0)
     = Raised validation_error.
Proof.
  pose proof (malformed_message_faults_before_any_side_effect
                (double nominal) config (bus_event malformed_b64) world0
                malformed_json) as Hrun.
  destruct Hrun as (Hextract & Hclassify); [vm_compute; reflexivity |].
  split.
  - destruct (Hextract validation_error) as ((e & He) & _);
      [vm_compute; reflexivity |].
    cbv zeta in He. rewrite He. f_equal.
    vm_compute in He. now injection He as <-.
  - apply (Hclassify validation_error). vm_compute. reflexivity.
Defined.

(** The message that the extraction stage publishes for the positive
    result of the doubles. *)
Local Abbreviation published :=
  (DataExtractor.extracted_message "gs://in/a.tif" classified_message
     trace_context extracted_ok).

(** Extraction succeeds and every collaborator answers: the log of the run
    holds exactly one publish, of the outgoing message. *)
Lemma extraction_success_publishes_once_run :
  exists new,
    log (snd (DataExtractor.handle_invoice_classified (double nominal) config
                (bus_event classified_b64) world0))
    = log world0 ++ new
    /\ count is_publish new = 1%nat
    /\ In (EPublish "invoice-extracted" (sample_dump_extracted published) None)
          new.
Proof.
  pose proof (extraction_success_publishes_once
                (double nominal) config (bus_event classified_b64) world0
                classified_message trace_context extracted_ok
                (reached nominal)
                (snd (DataExtractor.annotate_scores (double nominal)
                        extracted_ok trace_context
                        (@with_world _ DataExtractor.Frame_HasWorld
                           (record_event (double nominal)
                              (DataExtractor.extraction_successful_line
                                 "gs://in/a.tif" classified_message
                                 trace_context extracted_ok)
                              (DataExtractor.world (reached nominal)))
                           (reached nominal))))) as Hrun.
  cbv zeta in Hrun.
  destruct Hrun as (Hpublished & _).
  - vm_compute. reflexivity.
  - reflexivity.
  - vm_compute. reflexivity.
  - exact Hpublished.
Defined.

(** The provider of the result is ["gemini"]; the message published for it
    names the model ["gemini-2.5-flash"], not the provider. *)
Lemma published_model_differs_from_provider :
  let final :=
    DataExtractor.handle_invoice_classified (double nominal) config
      (bus_event classified_b64) world0 in
  fst (DataExtractor.reach_result (double nominal) config
         (bus_event classified_b64) (DataExtractor.entry_frame world0))
  = Normal (classified_message, trace_context, extracted_ok)
  /\ ExtractionResult.success extracted_ok = true
  /\ List.filter is_publish (log (snd final))
     = [EPublish "invoice-extracted" (sample_dump_extracted published) None]
  /\ ExtractionResult.provider extracted_ok = "gemini"
  /\ InvoiceExtractedMessage.extraction_model published = "gemini-2.5-flash"
  /\ InvoiceExtractedMessage.extraction_model published
     <> ExtractionResult.provider extracted_ok.
Proof. vm_compute. repeat split. discriminate. Qed.

(** Both providers fail and the failure bucket is unreachable: the router
    logs the fault and the handler returns normally. *)
Lemma routing_faults_are_swallowed_run :
  fst (DataExtractor.handle_invoice_classified
         (double failing_storage_down) config (bus_event classified_b64)
         world0)
  = Normal tt.
Proof.
  pose proof (routing_faults_are_swallowed_flush_faults_are_not
                (double failing_storage_down) config
                (bus_event classified_b64) world0
                classified_message trace_context
                (extracted_failed (Some "provider timeout"))
                (reached failing_storage_down)) as Hrun.
  cbv zeta in Hrun.
  destruct Hrun as (Hfailure & _); [vm_compute; reflexivity |].
  destruct Hfailure as (_ & _ & _ & _ & Hreturns & _); [reflexivity |].
  apply Hreturns. vm_compute. reflexivity.
Defined.

(** Extraction succeeds and the message is published, then the flush at the
    end of the [try] body raises: the exception is logged and reaches the
    caller. *)
Lemma flush_fault_reaches_the_caller :
  let final :=
    DataExtractor.handle_invoice_classified (double first_flush_raises)
      config (bus_event classified_b64) world0 in
  fst final = Raised observer_down
  /\ List.filter is_flush (log (snd final))
     = [EFlush (Some observer_down); EFlush None]
  /\ count is_publish (log (snd final)) = 1%nat
  /\ existsb (fun ev =>
                match ev with
                | ELog EXCEPTION _ _ => true
                | _ => false
                end) (log (snd final)) = true.
Proof. vm_compute. repeat split. Qed.

(** A source three directories deep: the copy lands at the root of the
    failure bucket and the record next to it. *)
Lemma failed_copy_is_flattened_with_error_record_run :
  exists outcome_line,
    log (snd (_copy_to_failed_bucket (double nominal) config
                "gs://in/2024/05/a.tif" "provider timeout" world0))
    = [EStorageCopy "in" "2024/05/a.tif" "failed" "a.tif"
                    (inr "gs://failed/a.tif");
       EStorageWrite "failed" "a.tif.error.json"
         (list_byte_of_string
            (sample_json_dumps
               (JObj [("source_file", JStr "gs://in/2024/05/a.tif");
                      ("error", JStr "provider timeout")])))
         "application/json" None;
       outcome_line].
Proof.
  pose proof (failed_copy_is_flattened_with_error_record
                (double nominal) config "gs://in/2024/05/a.tif"
                "provider timeout" world0 "in" "2024/05/a.tif"
                "gs://failed/a.tif") as Hrun.
  cbv zeta in Hrun.
  destruct Hrun as ((line & Hlog) & _).
  - vm_compute. reflexivity.
  - vm_compute. reflexivity.
  - exists line. etransitivity; [exact Hlog |]. vm_compute. reflexivity.
Defined.

(** The frame in which the downloads of the classification stage are
    done. *)
Local Abbreviation downloaded sc :=
  (snd (InvoiceClassifier.reach_images (double sc)
          (bus_event converted_b64) (InvoiceClassifier.entry_frame world0))).

(** The images get an invalid verdict with score 3/10: the handler returns
    normally. *)
Lemma invalid_quality_does_not_abort_run :
  fst (InvoiceClassifier.handle_invoice_converted (double poor_quality)
         config (bus_event converted_b64) world0)
  = Normal tt.
Proof.
  pose proof (invalid_quality_does_not_abort
                (double poor_quality) config (bus_event converted_b64) world0
                (downloaded poor_quality) converted_message [png]
                (3 # 10)%Q ["low contrast"]
                (ClassificationResult.mk "ACME" 1%Q "filename_pattern"
                                         (Some "ACME-*"))
                "in" "a.tif" "gs://archive/a.tif") as Hrun.
  cbv zeta in Hrun.
  destruct Hrun as (_ & _ & _ & _ & Hreturns).
  - vm_compute. reflexivity.
  - reflexivity.
  - reflexivity.
  - reflexivity.
  - reflexivity.
  - apply Hreturns. vm_compute. reflexivity.
Defined.

(** Both providers fail without an error text: the record that is written
    says ["Unknown error"]. *)
Lemma missing_error_is_reported_as_unknown_error_run :
  str_or (ExtractionResult.error (extracted_failed None)) "Unknown error"
  = "Unknown error"
  /\ str_or (ExtractionResult.error (extracted_failed None)) "Unknown error"
     <> "".
Proof.
  pose proof (missing_error_is_reported_as_unknown_error
                (double (failing None)) config (bus_event classified_b64)
                world0 classified_message trace_context
                (extracted_failed None) (reached (failing None))) as Hrun.
  cbv zeta in Hrun.
  destruct Hrun as (Hnonempty & Hunknown & _).
  - vm_compute. reflexivity.
  - reflexivity.
  - split; [| exact Hnonempty].
    apply Hunknown. left. reflexivity.
Defined.

(** The copy into the failure bucket faults: no write is attempted. *)
Lemma copy_precedes_error_record_run :
  count is_storage_write
    (log (snd (_copy_to_failed_bucket (double failing_storage_down) config
                 "gs://in/a.tif" "provider timeout" world0)))
  = 0%nat.
Proof.
  destruct (copy_precedes_error_record (double failing_storage_down) config
              "gs://in/a.tif" "provider timeout" world0)
    as (new & Hlog & Hnowrite & _).
  assert (Hnew :
    log (snd (_copy_to_failed_bucket (double failing_storage_down)
                config "gs://in/a.tif" "provider timeout" world0))
    = new).
  { exact Hlog. }
  rewrite Hnew. apply Hnowrite.
  rewrite <- Hnew. vm_compute. reflexivity.
Defined.

(** The publish of the extraction stage faults: the observer is flushed
    once more and the fault of the publish reaches the caller. *)
Lemma fault_path_flushes_once_then_reraises_run :
  fst (DataExtractor.handle_invoice_classified (double publish_faults) config
         (bus_event classified_b64) world0)
  = Raised bus_down.
Proof.
  pose proof (fault_path_flushes_once_then_reraises
                (double publish_faults) config (bus_event classified_b64)
                world0 bus_down
                (snd (DataExtractor.main_steps (double publish_faults) config
                        (bus_event classified_b64)
                        (DataExtractor.entry_frame world0)))) as Hrun.
  cbv zeta in Hrun.
  destruct Hrun as (tail & _ & _ & Hreraised & _).
  - vm_compute. reflexivity.
  - apply Hreraised. reflexivity.
Defined.

End Runs.

(* ===================================================================== *)
(** * More on the scoped timer *)
(* ===================================================================== *)

Lemma py_int_floor (x : Q) : (0 <= x)%Q -> py_int x = Qfloor x.
Proof.
  intros Hx. unfold py_int, Qfloor. destruct x as [n d]. simpl.
  apply Z.quot_div_nonneg; [| lia].
  unfold Qle in Hx. simpl in Hx. lia.
Qed.

Lemma floor_ge (k : Z) (x : Q) : k <= Qfloor x <-> (inject_Z k <= x)%Q.
Proof.
  split.
  - intros Hk. apply Qle_trans with (inject_Z (Qfloor x)).
    + now rewrite <- Zle_Qle.
    + apply Qfloor_le.
  - intros Hk. destruct (Z_lt_le_dec (Qfloor x) k) as [Hlt | Hle]; [| exact Hle].
    exfalso. assert (Hstep : Qfloor x + 1 <= k) by lia.
    rewrite Zle_Qle in Hstep.
    pose proof (Qlt_floor x) as Hx.
    apply (Qlt_irrefl x).
    eapply Qlt_le_trans; [exact Hx |].
    eapply Qle_trans; [exact Hstep | exact Hk].
Qed.

Section TimerMore.
Context {S : Type} `{HasWorld S} {A : Type}.

(** X2.  The timer writes one key of one object and nothing else: every
    other key of the handle, every other object of the heap, the log and the
    clock are as the body left them. *)
Theorem function_timer_touches_only_the_duration (body : ref -> M S A)
  (s0 : S) :
  let timing := fresh (dom (heap (world_of s0))) in
  let s1 := snd (function_timer_enter s0) in
  let body_end := world_of (snd (body timing s1)) in
  let final := world_of (snd (function_timer body s0)) in
  (forall k, k <> "latency_ms" ->
     default ∅ (heap final !! timing) !! k
     = default ∅ (heap body_end !! timing) !! k)
  /\ (forall r, r <> timing -> heap final !! r = heap body_end !! r)
  /\ log final = log body_end
  /\ now final = now body_end.
Proof.
  intros timing s1 body_end final. subst final.
  rewrite function_timer_closed. fold timing s1. cbn [snd].
  rewrite closed_scope_eq, world_of_with_world. cbn [heap log now].
  fold body_end. repeat split.
  - intros k Hk. rewrite lookup_insert_eq. cbn [default from_option id].
    now rewrite lookup_insert_ne.
  - intros r Hr. now rewrite lookup_insert_ne.
Qed.

Lemma elapsed_ms_monotone (start start' : Q) (w w' : World) :
  (start <= start')%Q -> (start' <= now w')%Q -> (now w' <= now w)%Q ->
  0 <= elapsed_ms start' w' <= elapsed_ms start w.
Proof.
  intros H1 H2 H3. unfold elapsed_ms.
  rewrite !py_int_floor by lra.
  split.
  - apply floor_ge. change (inject_Z 0) with 0%Q. lra.
  - apply Qfloor_resp_le. lra.
Qed.

Lemma heap_closed_scope_other (timing r : ref) (start : Q) (s : S) :
  r <> timing ->
  heap (world_of (closed_scope timing start s)) !! r
  = heap (world_of s) !! r.
Proof.
  intros Hr. rewrite closed_scope_eq, world_of_with_world. cbn [heap].
  now rewrite lookup_insert_ne.
Qed.

Lemma latency_closed_scope (timing : ref) (start : Q) (s : S) :
  default ∅ (heap (world_of (closed_scope timing start s)) !! timing)
    !! "latency_ms"
  = Some (elapsed_ms start (world_of s)).
Proof.
  rewrite closed_scope_eq, world_of_with_world. cbn [heap].
  rewrite lookup_insert_eq. cbn [default from_option id].
  apply lookup_insert_eq.
Qed.

Lemma function_timer_enter_state (s : S) :
  let timing := fresh (dom (heap (world_of s))) in
  let w1 := world_of (snd (function_timer_enter s)) in
  heap w1 = <[timing := ∅]> (heap (world_of s))
  /\ now w1 = now (world_of s)
  /\ log w1 = log (world_of s).
Proof.
  intros timing w1. subst w1. rewrite function_timer_enter_eq. cbn [snd].
  rewrite world_of_with_world. repeat split.
Qed.

Lemma fresh_handle_is_new (s : S) (r : ref) :
  is_Some (heap (world_of s) !! r) -> r <> fresh (dom (heap (world_of s))).
Proof.
  intros Hr Heq. apply (is_fresh (dom (heap (world_of s)))).
  rewrite <- Heq. now apply elem_of_dom.
Qed.

End TimerMore.

Section TimerCompose.
Context {S : Type} `{HasWorld S} {A1 A2 : Type}.

(** Two scopes, one after the other. *)
Definition two_scopes (body1 : ref -> M S A1) (body2 : ref -> M S A2)
  : M S (ref * ref) :=
  bind (function_timer body1) (fun r1 =>
  bind (function_timer body2) (fun r2 =>
  ret (fst r1, fst r2))).

(** X3.  Two scopes that run one after the other get two different
    handles, and each handle ends up with the duration of its own scope: the
    second scope does not change what the first one stored, as long as its
    body leaves the first handle alone. *)
Theorem sequential_scopes_are_independent
  (body1 : ref -> M S A1) (body2 : ref -> M S A2)
  (s0 s2 s5 : S) (a1 : A1) (a2 : A2) :
  let t1 := fresh (dom (heap (world_of s0))) in
  let s1 := snd (function_timer_enter s0) in
  body1 t1 s1 = (Normal a1, s2) ->
  let s3 := closed_scope t1 (now (world_of s0)) s2 in
  let t2 := fresh (dom (heap (world_of s3))) in
  let s4 := snd (function_timer_enter s3) in
  body2 t2 s4 = (Normal a2, s5) ->
  heap (world_of s5) !! t1 = heap (world_of s4) !! t1 ->
  let final := world_of (snd (two_scopes body1 body2 s0)) in
  fst (two_scopes body1 body2 s0) = Normal (t1, t2)
  /\ t1 <> t2
  /\ default ∅ (heap final !! t1) !! "latency_ms"
     = Some (elapsed_ms (now (world_of s0)) (world_of s2))
  /\ default ∅ (heap final !! t2) !! "latency_ms"
     = Some (elapsed_ms (now (world_of s2)) (world_of s5)).
Proof.
  intros t1 s1 Hbody1 s3 t2 s4 Hbody2 Hkeep final.
  assert (Ht : t1 <> t2).
  { apply (fresh_handle_is_new s3).
    unfold s3. rewrite closed_scope_eq, world_of_with_world. cbn [heap].
    rewrite lookup_insert_eq. eauto. }
  assert (Hrun :
    two_scopes body1 body2 s0
    = (Normal (t1, t2), closed_scope t2 (now (world_of s3)) s5)).
  { unfold two_scopes. unfold bind at 1.
    rewrite function_timer_closed. fold t1 s1. rewrite Hbody1.
    cbn [fst snd]. fold s3. unfold bind at 1.
    rewrite function_timer_closed. fold t2 s4. rewrite Hbody2.
    reflexivity. }
  subst final. rewrite Hrun. cbn [fst snd].
  split; [reflexivity |]. split; [exact Ht |]. split.
  - rewrite heap_closed_scope_other by exact Ht.
    rewrite Hkeep.
    destruct (function_timer_enter_state s3) as (Hheap & _ & _).
    fold s4 t2 in Hheap. rewrite Hheap.
    rewrite lookup_insert_ne by (intros Heq; now apply Ht).
    apply latency_closed_scope.
  - rewrite latency_closed_scope. f_equal. f_equal.
    unfold s3. rewrite closed_scope_eq, world_of_with_world. reflexivity.
Qed.

(** Some work, an inner scope, and some more work. *)
Definition around_inner_scope {U V : Type} (before : ref -> M S U)
  (inner_body : ref -> ref -> M S A1) (after : ref -> ref -> M S V)
  (outer : ref) : M S ref :=
  bind (before outer) (fun _ =>
  bind (function_timer (inner_body outer)) (fun r =>
  bind (after outer (fst r)) (fun _ =>
  ret (fst r)))).

(** The same inside an outer scope. *)
Definition nested_scopes {U V : Type} (before : ref -> M S U)
  (inner_body : ref -> ref -> M S A1) (after : ref -> ref -> M S V)
  : M S (ref * ref) :=
  function_timer (around_inner_scope before inner_body after).

(** X4.  A scope nested in another one, on a counter that does not run
    backwards: the two handles are different objects, and the duration of
    the outer scope is at least that of the inner one, which is not
    negative. *)
Theorem nested_scopes_outer_covers_inner {U V : Type}
  (before : ref -> M S U) (inner_body : ref -> ref -> M S A1)
  (after : ref -> ref -> M S V)
  (s0 s2 s4 s6 : S) (u : U) (a : A1) (v : V) :
  let outer := fresh (dom (heap (world_of s0))) in
  let s1 := snd (function_timer_enter s0) in
  before outer s1 = (Normal u, s2) ->
  is_Some (heap (world_of s2) !! outer) ->
  let inner := fresh (dom (heap (world_of s2))) in
  let s3 := snd (function_timer_enter s2) in
  inner_body outer inner s3 = (Normal a, s4) ->
  let s5 := closed_scope inner (now (world_of s2)) s4 in
  after outer inner s5 = (Normal v, s6) ->
  heap (world_of s6) !! inner = heap (world_of s5) !! inner ->
  (now (world_of s0) <= now (world_of s2))%Q ->
  (now (world_of s2) <= now (world_of s4))%Q ->
  (now (world_of s4) <= now (world_of s6))%Q ->
  let run := nested_scopes before inner_body after s0 in
  let final := world_of (snd run) in
  let inner_ms := elapsed_ms (now (world_of s2)) (world_of s4) in
  let outer_ms := elapsed_ms (now (world_of s0)) (world_of s6) in
  fst run = Normal (outer, inner)
  /\ inner <> outer
  /\ default ∅ (heap final !! inner) !! "latency_ms" = Some inner_ms
  /\ default ∅ (heap final !! outer) !! "latency_ms" = Some outer_ms
  /\ 0 <= inner_ms <= outer_ms.
Proof.
  intros outer s1 Hbefore Halive inner s3 Hinner s5 Hafter Hkeep
    Hc1 Hc2 Hc3 run final inner_ms outer_ms.
  assert (Hne : inner <> outer).
  { intros Heq. apply (fresh_handle_is_new s2 outer Halive).
    symmetry. exact Heq. }
  assert (Hrun :
    run = (Normal (outer, inner),
           closed_scope outer (now (world_of s0)) s6)).
  { assert (Hbody :
      around_inner_scope before inner_body after outer s1
      = (Normal inner, s6)).
    { unfold around_inner_scope. unfold bind at 1. rewrite Hbefore.
      unfold bind at 1. rewrite function_timer_closed. fold inner s3.
      rewrite Hinner. cbn [fst snd]. fold s5.
      unfold bind. rewrite Hafter. reflexivity. }
    subst run. unfold nested_scopes.
    rewrite function_timer_closed. fold outer s1. rewrite Hbody.
    reflexivity. }
  subst final. rewrite Hrun. cbn [fst snd].
  split; [reflexivity |]. split; [exact Hne |]. split; [| split].
  - rewrite heap_closed_scope_other by exact Hne.
    rewrite Hkeep. apply latency_closed_scope.
  - apply latency_closed_scope.
  - apply elapsed_ms_monotone; assumption.
Qed.

End TimerCompose.

(* ===================================================================== *)
(** * More on the failure router *)
(* ===================================================================== *)




Section RouterMore.
Context {S : Type} `{HasWorld S}.
Variable env : Env.
Variable config : Config.


Lemma router_events_calls (source_file error_message : string)
  (h : list Event) :
  Forall (router_call config)
         (router_events env config source_file error_message h).
Proof.
  unfold router_events, router_failure_log.
  destruct (parse_gcs_uri env source_file) as [e | [bucket path]]; cbv zeta.
  - repeat constructor.
  - destruct (storage_copy env _ _ _ _ _); [repeat constructor |].
    destruct (storage_write env _ _ _ _ _); repeat constructor.
Qed.

(** X6.  The router never raises and never returns early, whatever its
    collaborators do; it leaves the heap alone; and the only calls it makes
    are log lines, copies into the failure bucket and JSON writes into the
    failure bucket.  For a source that does not parse it makes no storage
    call at all and logs the error. *)
Theorem router_is_total_and_stays_in_failed_bucket
  (source_file error_message : string) (s : S) :
  let run := _copy_to_failed_bucket env config source_file error_message s in
  fst run = Normal tt
  /\ heap (world_of (snd run)) = heap (world_of s)
  /\ (exists new,
        log (world_of (snd run)) = log (world_of s) ++ new
        /\ Forall (router_call config) new
        /\ (1 <= length new <= 3)%nat)
  /\ (forall e, parse_gcs_uri env source_file = inl e ->
      log (world_of (snd run))
      = log (world_of s)
        ++ [ELog ERROR "Failed to copy to failed bucket"
              [("source_file", LStr source_file);
               ("error", LStr (exn_str e))]]).
Proof.
  intros run. subst run. rewrite router_run. cbn [fst snd].
  rewrite world_of_with_world, heap_record_events, log_record_events.
  split; [reflexivity |]. split; [reflexivity |]. split.
  - eexists. split; [reflexivity |]. split; [apply router_events_calls |].
    unfold router_events.
    destruct (parse_gcs_uri env source_file) as [e | [bucket path]];
      cbv zeta; [simpl; lia |].
    destruct (storage_copy env _ _ _ _ _); [simpl; lia |].
    destruct (storage_write env _ _ _ _ _); simpl; lia.
  - intros e Hparse. unfold router_events. now rewrite Hparse.
Qed.

End RouterMore.

(* ===================================================================== *)
(** * How often a computation makes a call *)
(* ===================================================================== *)

Section AtMost.
Context {S : Type} `{HasWorld S}.
Variable env : Env.
Variable p : Event -> bool.

(** [emits_at_most n m]: running [m] only appends events, at most [n] of
    them of the kind [p]. *)
Definition emits_at_most (n : nat) {A} (m : M S A) : Prop :=
  forall s, exists l,
    log (world_of (snd (m s))) = log (world_of s) ++ l
    /\ (count p l <= n)%nat.

Lemma at_most_quiet {A} (n : nat) (m : M S A) :
  emits (fun ev => p ev = false) m -> emits_at_most n m.
Proof.
  intros Hm s. destruct (Hm s) as (l & Hl & Hquiet).
  exists l. split; [exact Hl |]. rewrite (count_none p l Hquiet). lia.
Qed.

Lemma at_most_bind_l {A B} (n : nat) (m : M S A) (k : A -> M S B) :
  emits (fun ev => p ev = false) m -> (forall a, emits_at_most n (k a)) ->
  emits_at_most n (bind m k).
Proof.
  intros Hm Hk s. unfold bind.
  destruct (Hm s) as (l1 & Hl1 & Hq1).
  destruct (m s) as [[a | | e] s1]; cbn [snd] in *.
  - destruct (Hk a s1) as (l2 & Hl2 & Hc2).
    exists (l1 ++ l2). rewrite Hl2, Hl1, app_assoc.
    split; [reflexivity |].
    rewrite count_app, (count_none p l1 Hq1). lia.
  - exists l1. split; [exact Hl1 |]. rewrite (count_none p l1 Hq1). lia.
  - exists l1. split; [exact Hl1 |]. rewrite (count_none p l1 Hq1). lia.
Qed.

Lemma at_most_bind_r {A B} (n : nat) (m : M S A) (k : A -> M S B) :
  emits_at_most n m -> (forall a, emits (fun ev => p ev = false) (k a)) ->
  emits_at_most n (bind m k).
Proof.
  intros Hm Hk s. unfold bind.
  destruct (Hm s) as (l1 & Hl1 & Hc1).
  destruct (m s) as [[a | | e] s1]; cbn [snd] in *; eauto.
  destruct (Hk a s1) as (l2 & Hl2 & Hq2).
  exists (l1 ++ l2). rewrite Hl2, Hl1, app_assoc.
  split; [reflexivity |].
  rewrite count_app, (count_none p l2 Hq2). lia.
Qed.

Lemma at_most_call {A} (answer : list Event -> Exn + A)
  (mk : Exn + A -> Event) : emits_at_most 1 (call env answer mk).
Proof.
  intros s. exists [mk (answer (log (world_of s)))].
  unfold call, bind, emit, modify. cbn [fst snd].
  split.
  - destruct (answer (log (world_of s))); cbn [of_result raise ret snd];
      rewrite world_of_with_world; reflexivity.
  - unfold count. simpl. destruct (p _); simpl; lia.
Qed.

Lemma at_most_call_unit (answer : list Event -> option Exn)
  (mk : option Exn -> Event) : emits_at_most 1 (call_unit env answer mk).
Proof.
  intros s. exists [mk (answer (log (world_of s)))].
  unfold call_unit, bind, emit, modify.
  cbn [fst snd]. split.
  - destruct (answer (log (world_of s))); cbn [raise ret snd];
      rewrite world_of_with_world; reflexivity.
  - unfold count. simpl. destruct (p _); simpl; lia.
Qed.

End AtMost.

(* ===================================================================== *)
(** * More on the extraction stage *)
(* ===================================================================== *)

Section ExtractorMore.
Import DataExtractor.
Variable env : Env.
Variable config : Config.

Lemma extractor_download_loop_fetches (uris : list string)
  (images_data : list Bytes) :
  emits (fun ev => is_log ev || is_storage_read ev = true)
        (download_loop env uris images_data).
Proof.
  revert images_data. induction uris as [| uri uris IH]; intros images_data;
    simpl.
  - apply emits_ret.
  - unfold set_total_input_bytes.
    footprint; try apply extractor_get_emits. apply IH.
Qed.

(** Proofs that a step makes no call of some kind. *)
Ltac extractor_quiet :=
  intros; cbv beta;
  unfold set_source_file, set_total_input_bytes, set_result;
  footprint;
  try apply extractor_get_emits;
  try (eapply emits_weaken; [| apply extractor_download_loop_fetches];
       intros []; simpl; congruence).

Lemma extractor_router_at_most (p : Event -> bool)
  (source_file error_message : string) :
  p = is_storage_copy \/ p = is_storage_write ->
  emits_at_most (S := Frame) p 1
    (_copy_to_failed_bucket env config source_file error_message).
Proof.
  intros Hp f. eexists. split; [apply router_log |].
  destruct (router_events_counts env config source_file error_message
              (log (world_of f))) as (_ & Hcopy & Hwrite).
  destruct Hp as [-> | ->]; assumption.
Qed.

(** Syntax-directed proofs of [emits_at_most] goals: on every path at most
    one step makes the call, the steps around it make none. *)
Ltac extractor_at_most_step :=
  match goal with
  | |- forall _, _ => intros
  | |- emits_at_most _ _ (match ?x with _ => _ end) => destruct x
  | |- emits_at_most _ _ (bind _ _) =>
      first [ apply at_most_bind_l; [solve [extractor_quiet] |]
            | apply at_most_bind_r; [| solve [extractor_quiet]] ]
  | |- emits_at_most _ _ (call_unit _ _ _) => apply at_most_call_unit
  | |- emits_at_most _ _ (call _ _ _) => apply at_most_call
  | |- emits_at_most _ _ (_copy_to_failed_bucket _ _ _ _) =>
      apply extractor_router_at_most; auto
  | |- emits_at_most _ _ _ => apply at_most_quiet; solve [extractor_quiet]
  end.

Ltac extractor_at_most :=
  unfold main_steps, reach_result, receive, download, run_extraction,
    on_extraction_failed, on_extraction_succeeded, annotate_scores;
  repeat (cbv beta; extractor_at_most_step).

Lemma extractor_main_at_most_one_publish (cloud_event : CloudEvent) :
  emits_at_most is_publish 1 (main_steps env config cloud_event).
Proof. extractor_at_most. Qed.

Lemma extractor_main_at_most_one_extract (cloud_event : CloudEvent) :
  emits_at_most is_extract 1 (main_steps env config cloud_event).
Proof. extractor_at_most. Qed.

Lemma extractor_main_at_most_one_copy (cloud_event : CloudEvent) :
  emits_at_most is_storage_copy 1 (main_steps env config cloud_event).
Proof. extractor_at_most. Qed.

Lemma extractor_main_at_most_one_write (cloud_event : CloudEvent) :
  emits_at_most is_storage_write 1 (main_steps env config cloud_event).
Proof. extractor_at_most. Qed.

Lemma extractor_main_at_most_one_score (cloud_event : CloudEvent) :
  emits_at_most is_score_trace 1 (main_steps env config cloud_event).
Proof. extractor_at_most. Qed.

Lemma extractor_router_calls (source_file error_message : string) :
  emits (S := Frame) (extractor_call config)
    (_copy_to_failed_bucket env config source_file error_message).
Proof.
  intros f. eexists. split; [apply router_log |].
  eapply Forall_impl; [apply router_events_calls |].
  intros [] Hev; simpl in *; tauto.
Qed.

Lemma extractor_main_calls (cloud_event : CloudEvent) :
  emits (extractor_call config) (main_steps env config cloud_event).
Proof.
  unfold main_steps, reach_result, receive, download, run_extraction,
    on_extraction_failed, on_extraction_succeeded, annotate_scores,
    set_source_file, set_total_input_bytes, set_result.
  footprint;
    try apply extractor_get_emits;
    try apply extractor_router_calls;
    try (eapply emits_weaken; [| apply extractor_download_loop_fetches];
         intros []; simpl; easy).
Qed.

(** From the [try] body to the handler: a bound on a kind of call that is
    neither a flush nor a log line carries over. *)
Lemma extractor_handler_at_most (p : Event -> bool)
  (cloud_event : CloudEvent) (w : World) :
  (forall ev, is_flush ev || is_log ev = true -> p ev = false) ->
  emits_at_most p 1 (main_steps env config cloud_event) ->
  exists new,
    log (snd (handle_invoice_classified env config cloud_event w))
    = log w ++ new
    /\ (count p new <= 1)%nat.
Proof.
  intros Hp Hmain.
  destruct (Hmain (entry_frame w)) as (l & Hl & Hcount).
  destruct (extractor_exit_log env config cloud_event w)
    as (tail & Hfinal & Htail).
  cbv zeta in Hfinal. change (world ?f) with (world_of f) in Hfinal.
  rewrite Hl in Hfinal. cbn [entry_frame world_of Frame_HasWorld world log]
    in Hfinal.
  exists (l ++ tail). rewrite Hfinal, <- app_assoc. split; [reflexivity |].
  rewrite count_app.
  rewrite (count_none_among p (fun ev => is_flush ev || is_log ev) tail Hp
             Htail).
  lia.
Qed.

(** X7.  Whatever the event and whatever the collaborators do, one call of
    the extraction handler makes at most one extraction call, one publish,
    one score annotation, one copy and one write; every copy and every write
    goes to the failure bucket and every publish to the extracted topic. *)
Theorem extraction_handler_calls_at_most_once (cloud_event : CloudEvent)
  (w : World) :
  exists new,
    log (snd (handle_invoice_classified env config cloud_event w))
    = log w ++ new
    /\ (count is_extract new <= 1)%nat
    /\ (count is_publish new <= 1)%nat
    /\ (count is_score_trace new <= 1)%nat
    /\ (count is_storage_copy new <= 1)%nat
    /\ (count is_storage_write new <= 1)%nat
    /\ Forall (extractor_call config) new.
Proof.
  destruct (extractor_handler_at_most is_extract cloud_event w)
    as (new & Hlog & Hextract);
    [intros []; simpl; congruence
    | apply extractor_main_at_most_one_extract |].
  exists new. split; [exact Hlog |]. split; [exact Hextract |].
  assert (Hsame : forall p,
    (forall ev, is_flush ev || is_log ev = true -> p ev = false) ->
    emits_at_most p 1 (main_steps env config cloud_event) ->
    (count p new <= 1)%nat).
  { intros p Hp Hmain.
    destruct (extractor_handler_at_most p cloud_event w Hp Hmain)
      as (new' & Hlog' & Hcount).
    rewrite Hlog in Hlog'. apply app_inv_head in Hlog'. now subst new'. }
  repeat split.
  - apply Hsame; [intros []; simpl; congruence |].
    apply extractor_main_at_most_one_publish.
  - apply Hsame; [intros []; simpl; congruence |].
    apply extractor_main_at_most_one_score.
  - apply Hsame; [intros []; simpl; congruence |].
    apply extractor_main_at_most_one_copy.
  - apply Hsame; [intros []; simpl; congruence |].
    apply extractor_main_at_most_one_write.
  - destruct (extractor_main_calls cloud_event (entry_frame w))
      as (l & Hl & Hcalls).
    destruct (extractor_exit_log env config cloud_event w)
      as (tail & Hfinal & Htail).
    cbv zeta in Hfinal. change (world ?f) with (world_of f) in Hfinal.
    rewrite Hl in Hfinal.
    cbn [entry_frame world_of Frame_HasWorld world log] in Hfinal.
    rewrite Hlog, <- app_assoc in Hfinal. apply app_inv_head in Hfinal.
    subst new. apply Forall_app. split; [exact Hcalls |].
    eapply Forall_impl; [exact Htail |]. intros [] Hev; simpl in *; easy.
Qed.



Lemma extractor_on_succeeded_spares_failed_bucket
  (message : InvoiceClassifiedMessage.t) (trace_context : TraceContext.t)
  (r : ExtractionResult.t) :
  emits (fun ev => is_storage_copy ev || is_storage_write ev = false)
        (on_extraction_succeeded env config message trace_context r).
Proof.
  unfold on_extraction_succeeded, annotate_scores.
  footprint; try apply extractor_get_emits.
Qed.

(** X10.  For a positive extraction result the failure bucket is never
    touched: whether the score annotation, the publish or a flush goes
    through or raises, the handler makes no copy and no write. *)
Theorem positive_result_never_touches_failed_bucket
  (cloud_event : CloudEvent) (w : World)
  (message : InvoiceClassifiedMessage.t) (trace_context : TraceContext.t)
  (r : ExtractionResult.t) (f3 : Frame) :
  reach_result env config cloud_event (entry_frame w)
  = (Normal (message, trace_context, r), f3) ->
  ExtractionResult.success r = true ->
  exists new,
    log (snd (handle_invoice_classified env config cloud_event w))
    = log w ++ new
    /\ count is_storage_copy new = 0%nat
    /\ count is_storage_write new = 0%nat.
Proof.
  intros Hreach Hok.
  destruct (extractor_reach_result_emits env config cloud_event
              (entry_frame w)) as (pre & Hpre & Hinput).
  rewrite Hreach in Hpre. cbn in Hpre.
  destruct (extractor_on_succeeded_spares_failed_bucket message
              trace_context r f3) as (mid & Hmid & Hquiet).
  destruct (extractor_exit_log env config cloud_event w)
    as (tail & Hfinal & Htail).
  cbv zeta in Hfinal.
  assert (Hmain :
    main_steps env config cloud_event (entry_frame w)
    = on_extraction_succeeded env config message trace_context r f3).
  { unfold main_steps. unfold bind at 1. rewrite Hreach.
    cbv beta iota. now rewrite Hok. }
  rewrite Hmain in Hfinal. change (world ?x) with (world_of x) in Hfinal.
  rewrite Hmid in Hfinal. change (world_of f3) with (world f3) in Hfinal.
  rewrite Hpre in Hfinal.
  exists (pre ++ mid ++ tail).
  split; [rewrite Hfinal, <- !app_assoc; reflexivity |].
  rewrite !count_app.
  rewrite (count_none_among is_storage_copy is_input_event pre),
    (count_none_among is_storage_write is_input_event pre);
    try assumption; try (intros []; simpl; congruence).
  rewrite (count_none_among is_storage_copy
             (fun ev => is_flush ev || is_log ev) tail),
    (count_none_among is_storage_write
       (fun ev => is_flush ev || is_log ev) tail);
    try assumption; try (intros []; simpl; congruence).
  rewrite (count_none is_storage_copy mid), (count_none is_storage_write mid).
  - split; reflexivity.
  - eapply Forall_impl; [exact Hquiet |].
    intros ev Hev. now apply orb_false_iff in Hev.
  - eapply Forall_impl; [exact Hquiet |].
    intros ev Hev. now apply orb_false_iff in Hev.
Qed.

Lemma bytes_total_app (l1 l2 : list Bytes) :
  bytes_total (l1 ++ l2) = bytes_total l1 + bytes_total l2.
Proof.
  unfold bytes_total. induction l1 as [| d l1 IH]; simpl; [reflexivity |].
  rewrite IH. lia.
Qed.

(** The download loop when every download returns. *)
Lemma extractor_download_loop_done (uris : list string)
  (acc images : list Bytes) (f f' : Frame) :
  download_loop env uris acc f = (Normal images, f') ->
  exists reads datas,
    images = acc ++ datas
    /\ length datas = length uris
    /\ log (world f') = log (world f) ++ reads
    /\ Forall2 (reads_uri env) uris reads
    /\ read_payloads reads = datas
    /\ total_input_bytes f' = total_input_bytes f + bytes_total datas
    /\ source_file f' = source_file f.
Proof.
  revert acc f. induction uris as [| uri uris IH]; intros acc f; simpl.
  - intros Heq. injection Heq as <- <-. exists [], [].
    rewrite !app_nil_r. repeat split; [constructor | simpl; lia].
  - unfold bind at 1.
    destruct (parse_gcs_uri env uri) as [e | [bucket path]] eqn:Hparse;
      [discriminate |].
    cbn [of_result ret]. unfold bind at 1. unfold call at 1.
    unfold bind at 1. cbn [emit modify fst snd].
    destruct (storage_read env (log (world_of f)) bucket path)
      as [e | d] eqn:Hread; [discriminate |].
    cbn [of_result ret]. unfold bind at 1 2. cbn [get set_total_input_bytes
      modify fst snd].
    intros Hloop. apply IH in Hloop.
    destruct Hloop as (reads & datas & -> & Hlen & Hlog & Hreads & Hpay
                       & Htotal & Hsrc).
    exists (EStorageRead bucket path (inr d) :: reads), (d :: datas).
    cbn in Hlog, Htotal, Hsrc.
    repeat split.
    + now rewrite <- app_assoc.
    + simpl. now rewrite Hlen.
    + rewrite Hlog, <- app_assoc. reflexivity.
    + constructor; [| exact Hreads]. exists bucket, path, d. now split.
    + simpl. now rewrite Hpay.
    + rewrite Htotal. change (bytes_total (d :: datas))
        with (Z.of_nat (length d) + bytes_total datas). lia.
    + exact Hsrc.
Qed.

(** X11.  When the downloads of the extraction stage are done, there was
    one download per converted file, in the order of the message and from
    the bucket and path that its URI names; the images handed on are the
    payloads of these downloads in that order; and the byte count that is
    logged is the sum of their lengths. *)
Theorem extraction_downloads_every_converted_file
  (message : InvoiceClassifiedMessage.t) (images : list Bytes)
  (f f' : Frame) :
  download env message f = (Normal images, f') ->
  let files := InvoiceClassifiedMessage.converted_files message in
  length images = length files
  /\ total_input_bytes f' = bytes_total images
  /\ exists reads,
       log (world f')
       = log (world f) ++ reads
         ++ [ELog INFO "Downloaded all images"
               [("source_file", LStr (source_file f));
                ("file_count", LInt (Z.of_nat (length files)));
                ("total_input_bytes", LInt (bytes_total images))]]
       /\ Forall2 (reads_uri env) files reads
       /\ read_payloads reads = images.
Proof.
  unfold download. unfold bind at 1. cbn [set_total_input_bytes modify].
  unfold bind at 1.
  destruct (download_loop env _ [] _) as [[imgs | | e] f1] eqn:Hloop;
    try discriminate.
  apply extractor_download_loop_done in Hloop.
  destruct Hloop as (reads & datas & Himgs & Hlen & Hlog & Hreads & Hpay
                     & Htotal & Hsrc).
  cbn in Himgs, Hlog, Htotal, Hsrc. subst imgs.
  unfold bind, get, logger, emit, modify. cbn [fst snd ret].
  intros Heq. injection Heq as <- <-.
  cbn [total_input_bytes world with_world Frame_HasWorld world_of
       record_event log].
  split; [exact Hlen |]. split; [rewrite Htotal; lia |].
  exists reads. split; [| split; assumption].
  rewrite Hlog, Hsrc, Htotal, Hlen, <- app_assoc. reflexivity.
Qed.

(** X12.  When an invoice was produced and the observer is enabled, the
    trace is scored once, with the scores of the invoice in which
    ["extraction_confidence"] is the confidence of the result (whatever the
    score computation had put under that key) and every other score is as
    computed, and with a comment under that key that names the provider and
    the latency; the debug line follows only when the call returned. *)
Theorem scores_carry_the_result_confidence (r : ExtractionResult.t)
  (trace_context : TraceContext.t) (f : Frame) (invoice : Invoice)
  (scores : gmap string Q) (comments : gmap string string) :
  ExtractionResult.invoice r = Some invoice ->
  is_enabled env = true ->
  calculate_extraction_scores env invoice = inr scores ->
  let sent_scores :=
    <["extraction_confidence" := ExtractionResult.confidence r]> scores in
  get_score_comments env invoice sent_scores = inr comments ->
  let sent_comments :=
    <["extraction_confidence" :=
        "Provider: " +:+ ExtractionResult.provider r +:+ ", latency: "
        +:+ pretty (ExtractionResult.latency_ms r) +:+ "ms"]> comments in
  let trace_id := TraceContext.trace_id trace_context in
  let res := score_trace env (log (world f)) trace_id sent_scores
                         sent_comments in
  let run := annotate_scores env r trace_context f in
  fst run = match res with None => Normal tt | Some e => Raised e end
  /\ log (world (snd run))
     = log (world f)
       ++ EScoreTrace trace_id sent_scores sent_comments res
          :: match res with
             | None =>
                 [ELog DEBUG "Added LangFuse scores"
                    [("trace_id", LStr trace_id);
                     ("scores", LScores sent_scores)]]
             | Some _ => []
             end
  /\ sent_scores !! "extraction_confidence"
     = Some (ExtractionResult.confidence r)
  /\ (forall k, k <> "extraction_confidence" ->
      sent_scores !! k = scores !! k)
  /\ (forall k, k <> "extraction_confidence" ->
      sent_comments !! k = comments !! k).
Proof.
  intros Hinvoice Henabled Hscores sent_scores Hcomments sent_comments
    trace_id res run.
  subst run res trace_id sent_comments sent_scores.
  unfold annotate_scores. rewrite Hinvoice, Henabled.
  unfold bind, call_unit, bind, logger, emit, modify.
  rewrite Hscores. cbn [of_result ret fst snd]. rewrite Hcomments.
  cbn [of_result ret fst snd]. change (world_of f) with (world f).
  split; [destruct (score_trace env _ _ _ _); reflexivity |].
  split; [destruct (score_trace env _ _ _ _); cbn;
          rewrite <- ?app_assoc; reflexivity |].
  split; [apply lookup_insert_eq |].
  split; intros k Hk; now apply lookup_insert_ne.
Qed.

(** X13.  A fault of the score annotation is fatal and comes before the
    publish: the handler raises and nothing has been published, copied or
    written. *)
Theorem score_fault_comes_before_publish (cloud_event : CloudEvent)
  (w : World) (message : InvoiceClassifiedMessage.t)
  (trace_context : TraceContext.t) (r : ExtractionResult.t)
  (f3 f5 : Frame) (e : Exn) :
  reach_result env config cloud_event (entry_frame w)
  = (Normal (message, trace_context, r), f3) ->
  ExtractionResult.success r = true ->
  let src := InvoiceClassifiedMessage.source_file message in
  let f4 :=
    with_world
      (record_event env
         (extraction_successful_line src message trace_context r)
         (world f3)) f3 in
  annotate_scores env r trace_context f4 = (Raised e, f5) ->
  let final := handle_invoice_classified env config cloud_event w in
  fst final
  = Raised (match flush env (log (world f5)) with
            | None => e
            | Some e' => e'
            end)
  /\ exists new,
       log (snd final) = log w ++ new
       /\ count is_publish new = 0%nat
       /\ count is_storage_copy new = 0%nat
       /\ count is_storage_write new = 0%nat.
Proof.
  intros Hreach Hok src. subst src.
  rewrite <- (extractor_reach_result_source env config _ _ _ _ _ _ Hreach).
  intros f4 Hannot final. subst final.
  assert (Hmain :
    main_steps env config cloud_event (entry_frame w) = (Raised e, f5)).
  { unfold main_steps. unfold bind at 1. rewrite Hreach.
    cbv beta iota. rewrite Hok. cbn [negb].
    unfold on_extraction_succeeded, get. unfold bind at 1 2.
    cbn [logger emit modify fst snd].
    change (with_world (record_event env _ (world_of f3)) f3) with f4.
    unfold bind at 1. now rewrite Hannot. }
  destruct (extractor_fault_path env config _ _ _ _ Hmain)
    as (lat & Hout & Hlog).
  cbv zeta in Hout, Hlog. split; [exact Hout |].
  destruct (extractor_reach_result_emits env config cloud_event
              (entry_frame w)) as (pre & Hpre & Hinput).
  rewrite Hreach in Hpre. cbn in Hpre.
  destruct (extractor_annotate_emits env r trace_context f4)
    as (ann & Hann & Hquiet).
  rewrite Hannot in Hann. cbn [snd] in Hann.
  change (world_of f5) with (world f5) in Hann.
  change (world_of f4) with (world f4) in Hann.
  subst f4. rewrite extractor_world_with_world in Hann.
  cbn [record_event log] in Hann. rewrite Hpre in Hann.
  destruct (extractor_exit_log env config cloud_event w)
    as (tail & Hfinal & Htail).
  cbv zeta in Hfinal. rewrite Hmain in Hfinal. cbn [snd] in Hfinal.
  rewrite Hann, <- !app_assoc in Hfinal.
  destruct (positive_result_never_touches_failed_bucket _ _ _ _ _ _
              Hreach Hok) as (new & Hnew & Hcopy & Hwrite).
  exists new. split; [exact Hnew |]. split; [| split; assumption].
  rewrite Hfinal in Hnew. apply app_inv_head in Hnew. subst new.
  rewrite !count_app.
  rewrite (count_none_among is_publish is_input_event pre);
    [| intros []; simpl; congruence | exact Hinput].
  rewrite (count_none is_publish ann Hquiet).
  rewrite (count_none_among is_publish
             (fun ev => is_flush ev || is_log ev) tail);
    [| intros []; simpl; congruence | exact Htail].
  reflexivity.
Qed.

End ExtractorMore.

(* ===================================================================== *)
(** * Computations that do not return early, and that publish last *)
(* ===================================================================== *)

Section PublishLast.
Context {S : Type} `{HasWorld S}.
Variable env : Env.

(** [never_returns m]: no [return] statement is met in [m]. *)
Definition never_returns {A} (m : M S A) : Prop :=
  forall s, fst (m s) <> Returned.

Lemma never_returns_ret {A} (a : A) : never_returns (ret a).
Proof. intros s. discriminate. Qed.

Lemma never_returns_raise {A} (e : Exn) : never_returns (@raise S A e).
Proof. intros s. discriminate. Qed.

Lemma never_returns_of_result {A} (r : Exn + A) : never_returns (of_result r).
Proof. destruct r; intros s; discriminate. Qed.

Lemma never_returns_modify (f : S -> S) : never_returns (modify f).
Proof. intros s. discriminate. Qed.

Lemma never_returns_bind {A B} (m : M S A) (k : A -> M S B) :
  never_returns m -> (forall a, never_returns (k a)) ->
  never_returns (bind m k).
Proof.
  intros Hm Hk s. unfold bind. specialize (Hm s).
  destruct (m s) as [[a | | e] s1]; cbn [fst] in *;
    [apply Hk | congruence | discriminate].
Qed.

Lemma never_returns_logger lvl msg extra :
  never_returns (logger env lvl msg extra).
Proof. intros s. discriminate. Qed.

Lemma never_returns_call {A} (answer : list Event -> Exn + A)
  (mk : Exn + A -> Event) : never_returns (call env answer mk).
Proof.
  intros s. unfold call, bind, emit, modify. cbn [fst snd].
  destruct (answer _); discriminate.
Qed.

Lemma never_returns_call_unit (answer : list Event -> option Exn)
  (mk : option Exn -> Event) : never_returns (call_unit env answer mk).
Proof.
  intros s. unfold call_unit, bind, emit, modify. cbn [fst snd].
  destruct (answer _); discriminate.
Qed.

Lemma never_returns_decode_body (cloud_event : CloudEvent) :
  never_returns (decode_body env cloud_event).
Proof.
  unfold decode_body.
  repeat (apply never_returns_bind; [apply never_returns_of_result |
                                      intros ?]).
  apply never_returns_of_result.
Qed.

(** [publishes_last topic m]: when [m] ends normally, the last thing it
    did was a publish on [topic] that returned, and it was its only
    publish; when [m] raises, no publish has returned, and at most one was
    attempted. *)
Definition publishes_last (topic : string) {A} (m : M S A) : Prop :=
  forall s, exists l,
    log (world_of (snd (m s))) = log (world_of s) ++ l
    /\ match fst (m s) with
       | Normal _ =>
           exists before payload,
             l = before ++ [EPublish topic payload None]
             /\ count is_publish before = 0%nat
       | Returned => False
       | Raised _ =>
           count publish_completed l = 0%nat
           /\ (count is_publish l <= 1)%nat
       end.

Lemma publishes_last_bind (topic : string) {A B} (m : M S A)
  (k : A -> M S B) :
  emits (fun ev => is_publish ev = false) m -> never_returns m ->
  (forall a, publishes_last topic (k a)) ->
  publishes_last topic (bind m k).
Proof.
  intros Hquiet Hnr Hk s. unfold bind.
  destruct (Hquiet s) as (l1 & Hl1 & Hq1). specialize (Hnr s).
  assert (Hcompleted : count publish_completed l1 = 0%nat).
  { apply count_none. eapply Forall_impl; [exact Hq1 |].
    intros [] Hev; simpl in *; try reflexivity. discriminate. }
  destruct (m s) as [[a | | e] s1]; cbn [fst snd] in *.
  - destruct (Hk a s1) as (l2 & Hl2 & Hshape).
    exists (l1 ++ l2). rewrite Hl2, Hl1, app_assoc.
    split; [reflexivity |].
    destruct (fst (k a s1)).
    + destruct Hshape as (before & payload & -> & Hbefore).
      exists (l1 ++ before), payload. rewrite app_assoc.
      split; [reflexivity |].
      rewrite count_app, (count_none is_publish l1 Hq1). exact Hbefore.
    + exact Hshape.
    + destruct Hshape as (Hc & Hp).
      rewrite !count_app, Hcompleted, (count_none is_publish l1 Hq1).
      split; [exact Hc | exact Hp].
  - congruence.
  - exists l1. split; [exact Hl1 |].
    rewrite Hcompleted, (count_none is_publish l1 Hq1). split; lia.
Qed.

Lemma publishes_last_publish (topic : string) (payload : Json) :
  publishes_last topic
    (call_unit env (fun h => publish env h topic payload)
               (EPublish topic payload)).
Proof.
  intros s.
  exists [EPublish topic payload (publish env (log (world_of s)) topic payload)].
  unfold call_unit, bind, emit, modify. cbn [fst snd].
  destruct (publish env (log (world_of s)) topic payload) as [e |];
    cbn [raise ret fst snd]; rewrite world_of_with_world;
    (split; [reflexivity |]).
  - split; [reflexivity | unfold count; simpl; lia].
  - exists [], payload. split; reflexivity.
Qed.

End PublishLast.

(* ===================================================================== *)
(** * More on the classification stage *)
(* ===================================================================== *)

Section ClassifierMore.
Import InvoiceClassifier.
Variable env : Env.
Variable config : Config.

Lemma classifier_get_never_returns {A} (field : Frame -> A) :
  never_returns (get field).
Proof. intros f. discriminate. Qed.

(** Syntax-directed proofs of [never_returns] goals. *)
Ltac calm_step :=
  match goal with
  | |- forall _, _ => intros
  | |- never_returns (bind _ _) => apply never_returns_bind
  | |- never_returns (ret _) => apply never_returns_ret
  | |- never_returns (raise _) => apply never_returns_raise
  | |- never_returns (of_result _) => apply never_returns_of_result
  | |- never_returns (modify _) => apply never_returns_modify
  | |- never_returns (logger _ _ _ _) => apply never_returns_logger
  | |- never_returns (call _ _ _) => apply never_returns_call
  | |- never_returns (call_unit _ _ _) => apply never_returns_call_unit
  | |- never_returns (decode_body _ _) => apply never_returns_decode_body
  | |- never_returns (get _) => apply classifier_get_never_returns
  | |- never_returns (match ?x with _ => _ end) => destruct x
  end.

Ltac calm := repeat (cbv beta; calm_step).

Lemma classifier_download_loop_never_returns (uris : list string)
  (images_data : list Bytes) :
  never_returns (download_loop env uris images_data).
Proof.
  revert images_data. induction uris as [| uri uris IH]; intros images_data;
    simpl.
  - apply never_returns_ret.
  - unfold set_total_input_bytes. calm. apply IH.
Qed.

Lemma classifier_download_loop_fetches (uris : list string)
  (images_data : list Bytes) :
  emits (fun ev => is_log ev || is_storage_read ev = true)
        (download_loop env uris images_data).
Proof.
  revert images_data. induction uris as [| uri uris IH]; intros images_data;
    simpl.
  - apply emits_ret.
  - unfold set_total_input_bytes.
    footprint; try apply classifier_get_emits. apply IH.
Qed.

Ltac classifier_unfold :=
  unfold main_steps, reach_images, receive, download, check_quality,
    classify_archive_publish, classify, archive, set_source_file,
    set_total_input_bytes, set_avg_score, set_classification.

(** Proofs that a step makes no call of some kind. *)
Ltac classifier_quiet :=
  intros; cbv beta; classifier_unfold;
  footprint;
  try apply classifier_get_emits;
  try (eapply emits_weaken; [| apply classifier_download_loop_fetches];
       intros []; simpl; easy).

Ltac classifier_calm :=
  intros; cbv beta; classifier_unfold; calm;
  try apply classifier_download_loop_never_returns.

Ltac publishes_last_step :=
  match goal with
  | |- forall _, _ => intros
  | |- publishes_last _ (match ?x with _ => _ end) => destruct x
  | |- publishes_last _ (bind _ _) =>
      apply publishes_last_bind;
        [solve [classifier_quiet] | solve [classifier_calm] |]
  | |- publishes_last _ (call_unit _ _ _) => apply publishes_last_publish
  end.

Lemma classifier_main_publishes_last (cloud_event : CloudEvent) :
  publishes_last (classified_topic config)
                 (main_steps env config cloud_event).
Proof.
  unfold main_steps, classify_archive_publish.
  repeat (cbv beta; publishes_last_step).
Qed.


Lemma classifier_main_calls (cloud_event : CloudEvent) :
  emits (classifier_call config) (main_steps env config cloud_event).
Proof.
  classifier_unfold.
  footprint;
    try apply classifier_get_emits;
    try (apply emits_call; intros; split; reflexivity);
    try (eapply emits_weaken; [| apply classifier_download_loop_fetches];
         intros []; simpl; easy).
Qed.

Ltac classifier_at_most_step :=
  match goal with
  | |- forall _, _ => intros
  | |- emits_at_most _ _ (match ?x with _ => _ end) => destruct x
  | |- emits_at_most _ _ (bind _ _) =>
      first [ apply at_most_bind_l; [solve [classifier_quiet] |]
            | apply at_most_bind_r; [| solve [classifier_quiet]] ]
  | |- emits_at_most _ _ (call_unit _ _ _) => apply at_most_call_unit
  | |- emits_at_most _ _ (call _ _ _) => apply at_most_call
  | |- emits_at_most _ _ _ => apply at_most_quiet; solve [classifier_quiet]
  end.

Lemma classifier_main_at_most_one_copy (cloud_event : CloudEvent) :
  emits_at_most is_storage_copy 1 (main_steps env config cloud_event).
Proof.
  unfold main_steps, reach_images, check_quality, classify_archive_publish,
    classify, archive.
  repeat (cbv beta; classifier_at_most_step).
Qed.

(** However the [try] body ends, the handler then only logs one line. *)
Lemma classifier_exit_log (cloud_event : CloudEvent) (w : World) :
  let res := main_steps env config cloud_event (entry_frame w) in
  exists line,
    log (snd (handle_invoice_converted env config cloud_event w))
    = log (world (snd res)) ++ [line]
    /\ is_log line = true.
Proof.
  intros res.
  pose proof (classifier_main_steps_pending env config cloud_event
                (entry_frame w)) as Hpending.
  fold res in Hpending. cbn [exception_to_raise entry_frame] in Hpending.
  destruct (classifier_main_publishes_last cloud_event (entry_frame w))
    as (l & _ & Hshape). fold res in Hshape.
  destruct res as [[[] | | e] f2] eqn:Hres; cbn [fst snd] in *;
    [| contradiction |].
  - destruct (classifier_normal_path env config _ _ _ Hres Hpending)
      as (_ & extra & Hlog).
    eexists. split; [exact Hlog | reflexivity].
  - destruct (classifier_fault_path env config _ _ _ _ Hres)
      as (_ & extra & Hlog).
    eexists. split; [exact Hlog | reflexivity].
Qed.

(** X15.  Whatever the event and whatever the collaborators do, the
    classification handler only logs, downloads, copies and publishes: it
    never writes an object, never calls the extraction and never touches the
    observer.  It copies at most once, into the archive bucket and under
    the path of the source, and it publishes at most once, on the classified
    topic. *)
Theorem classification_handler_only_archives_and_publishes
  (cloud_event : CloudEvent) (w : World) :
  exists new,
    log (snd (handle_invoice_converted env config cloud_event w))
    = log w ++ new
    /\ Forall (classifier_call config) new
    /\ (count is_storage_copy new <= 1)%nat
    /\ (count is_publish new <= 1)%nat.
Proof.
  destruct (classifier_exit_log cloud_event w) as (line & Hfinal & Hline).
  cbv zeta in Hfinal.
  destruct (classifier_main_calls cloud_event (entry_frame w))
    as (l & Hl & Hcalls).
  change (world_of ?x) with (world x) in Hl.
  cbn [entry_frame world log] in Hl.
  exists (l ++ [line]). rewrite Hfinal, Hl, <- app_assoc.
  split; [reflexivity |]. split; [| split].
  - apply Forall_app. split; [exact Hcalls |].
    constructor; [| constructor]. destruct line; try discriminate. exact I.
  - destruct (classifier_main_at_most_one_copy cloud_event (entry_frame w))
      as (l' & Hl' & Hcount).
    change (world_of ?x) with (world x) in Hl'.
    cbn [entry_frame world log] in Hl'.
    rewrite Hl in Hl'. apply app_inv_head in Hl'. subst l'.
    rewrite count_app. destruct line; try discriminate.
    unfold count at 2. simpl. lia.
  - destruct (classifier_main_publishes_last cloud_event (entry_frame w))
      as (l' & Hl' & Hshape).
    change (world_of ?x) with (world x) in Hl'.
    cbn [entry_frame world log] in Hl'.
    rewrite Hl in Hl'. apply app_inv_head in Hl'. subst l'.
    rewrite count_app. destruct line; try discriminate.
    unfold count at 2. simpl.
    destruct (fst (main_steps env config cloud_event (entry_frame w))).
    + destruct Hshape as (before & payload & -> & Hbefore).
      rewrite count_app, Hbefore. unfold count. simpl. lia.
    + contradiction.
    + destruct Hshape as (_ & Hcount). lia.
Qed.

Lemma classifier_bytes_total_app (l1 l2 : list Bytes) :
  bytes_total (l1 ++ l2) = bytes_total l1 + bytes_total l2.
Proof.
  unfold bytes_total. induction l1 as [| d l1 IH]; simpl; [reflexivity |].
  rewrite IH. lia.
Qed.

(** The download loop when every download returns. *)
Lemma classifier_download_loop_done (uris : list string)
  (acc images : list Bytes) (f f' : Frame) :
  download_loop env uris acc f = (Normal images, f') ->
  exists reads datas,
    images = acc ++ datas
    /\ length datas = length uris
    /\ log (world f') = log (world f) ++ reads
    /\ Forall2 (reads_uri env) uris reads
    /\ read_payloads reads = datas
    /\ total_input_bytes f' = total_input_bytes f + bytes_total datas
    /\ source_file f' = source_file f.
Proof.
  revert acc f. induction uris as [| uri uris IH]; intros acc f; simpl.
  - intros Heq. injection Heq as <- <-. exists [], [].
    rewrite !app_nil_r. repeat split; [constructor | simpl; lia].
  - unfold bind at 1.
    destruct (parse_gcs_uri env uri) as [e | [bucket path]] eqn:Hparse;
      [discriminate |].
    cbn [of_result ret]. unfold bind at 1. unfold call at 1.
    unfold bind at 1. cbn [emit modify fst snd].
    destruct (storage_read env (log (world_of f)) bucket path)
      as [e | d] eqn:Hread; [discriminate |].
    cbn [of_result ret]. unfold bind at 1 2. cbn [get set_total_input_bytes
      modify fst snd].
    intros Hloop. apply IH in Hloop.
    destruct Hloop as (reads & datas & -> & Hlen & Hlog & Hreads & Hpay
                       & Htotal & Hsrc).
    exists (EStorageRead bucket path (inr d) :: reads), (d :: datas).
    cbn in Hlog, Htotal, Hsrc.
    repeat split.
    + now rewrite <- app_assoc.
    + simpl. now rewrite Hlen.
    + rewrite Hlog, <- app_assoc. reflexivity.
    + constructor; [| exact Hreads]. exists bucket, path, d. now split.
    + simpl. now rewrite Hpay.
    + rewrite Htotal. change (bytes_total (d :: datas))
        with (Z.of_nat (length d) + bytes_total datas). lia.
    + exact Hsrc.
Qed.

(** X16.  When the downloads of the classification stage are done, there
    was one download per converted file, in the order of the message and
    from the bucket and path that its URI names; the images handed to the
    quality validation are the payloads of these downloads in that order;
    and the byte count that is logged is the sum of their lengths. *)
Theorem classification_downloads_every_converted_file
  (message : InvoiceConvertedMessage.t) (images : list Bytes)
  (f f' : Frame) :
  download env message f = (Normal images, f') ->
  let files := InvoiceConvertedMessage.converted_files message in
  length images = length files
  /\ total_input_bytes f' = bytes_total images
  /\ exists reads,
       log (world f')
       = log (world f) ++ reads
         ++ [ELog INFO "Downloaded all images"
               [("source_file", LStr (source_file f));
                ("file_count", LInt (Z.of_nat (length files)));
                ("total_input_bytes", LInt (bytes_total images))]]
       /\ Forall2 (reads_uri env) files reads
       /\ read_payloads reads = images.
Proof.
  unfold download. unfold bind at 1. cbn [set_total_input_bytes modify].
  unfold bind at 1.
  destruct (download_loop env _ [] _) as [[imgs | | e] f1] eqn:Hloop;
    try discriminate.
  apply classifier_download_loop_done in Hloop.
  destruct Hloop as (reads & datas & Himgs & Hlen & Hlog & Hreads & Hpay
                     & Htotal & Hsrc).
  cbn in Himgs, Hlog, Htotal, Hsrc. subst imgs.
  unfold bind, get, logger, emit, modify. cbn [fst snd ret].
  intros Heq. injection Heq as <- <-.
  cbn [total_input_bytes world with_world Frame_HasWorld world_of
       record_event log].
  split; [exact Hlen |]. split; [rewrite Htotal; lia |].
  exists reads. split; [| split; assumption].
  rewrite Hlog, Hsrc, Htotal, Hlen, <- app_assoc. reflexivity.
Qed.

End ClassifierMore.

(* ===================================================================== *)
(** * The handlers from their first line *)
(* ===================================================================== *)

Section FromTheFirstLine.
Variable st : Startup.





End FromTheFirstLine.

(* ===================================================================== *)
(** * More concrete runs *)
(* ===================================================================== *)

Section MoreRuns.
Import Sample.

(** Two scopes in a row, of three and of seven milliseconds: each handle
    holds its own duration. *)
Lemma sequential_scopes_are_independent_run :
  let run := two_scopes (metric_body (3 # 1000)) (metric_body (7 # 1000))
               world0 in
  fst run = Normal (1%positive, 2%positive)
  /\ default ∅ (heap (snd run) !! 1%positive) !! "latency_ms" = Some 3
  /\ default ∅ (heap (snd run) !! 2%positive) !! "latency_ms" = Some 7.
Proof.
  pose proof (sequential_scopes_are_independent
                (metric_body (3 # 1000)) (metric_body (7 # 1000)) world0
                (snd (metric_body (3 # 1000) 1%positive
                        (snd (function_timer_enter world0))))
                (snd (metric_body (7 # 1000) 2%positive
                        (snd (function_timer_enter
                                (closed_scope 1%positive 0%Q
                                   (snd (metric_body (3 # 1000) 1%positive
                                           (snd (function_timer_enter
                                                   world0)))))))))
                tt tt) as Hrun.
  cbv zeta in Hrun.
  destruct Hrun as (Hres & _ & Hfirst & Hsecond).
  - vm_compute. reflexivity.
  - vm_compute. reflexivity.
  - vm_compute. reflexivity.
  - cbv zeta. split; [| split].
    + rewrite Hres. vm_compute. reflexivity.
    + etransitivity; [exact Hfirst |]. vm_compute. reflexivity.
    + etransitivity; [exact Hsecond |]. vm_compute. reflexivity.
Defined.

(** The nested scopes of the timer's unit tests: ten milliseconds of work,
    then an inner scope around ten more. *)
Lemma nested_scopes_outer_covers_inner_run :
  let run :=
    nested_scopes (fun _ => sleep (1 # 100)) (fun _ _ => sleep (1 # 100))
                  (fun _ _ => ret tt) world0 in
  fst run = Normal (1%positive, 2%positive)
  /\ default ∅ (heap (snd run) !! 2%positive) !! "latency_ms" = Some 10
  /\ default ∅ (heap (snd run) !! 1%positive) !! "latency_ms" = Some 20.
Proof.
  pose proof (nested_scopes_outer_covers_inner
                (fun _ => sleep (1 # 100)) (fun _ _ => sleep (1 # 100))
                (fun _ _ => ret tt) world0
                (snd (sleep (1 # 100) (snd (function_timer_enter world0))))
                (snd (sleep (1 # 100)
                        (snd (function_timer_enter
                                (snd (sleep (1 # 100)
                                        (snd (function_timer_enter
                                                world0))))))))
                (closed_scope 2%positive (1 # 100)%Q
                   (snd (sleep (1 # 100)
                           (snd (function_timer_enter
                                   (snd (sleep (1 # 100)
                                           (snd (function_timer_enter
                                                   world0)))))))))
                tt tt tt) as Hrun.
  cbv zeta in Hrun.
  destruct Hrun as (Hres & _ & Hinner & Houter & _).
  - vm_compute. reflexivity.
  - exists ∅. vm_compute. reflexivity.
  - vm_compute. reflexivity.
  - vm_compute. reflexivity.
  - vm_compute. reflexivity.
  - vm_compute. discriminate.
  - vm_compute. discriminate.
  - vm_compute. discriminate.
  - cbv zeta. split; [| split].
    + rewrite Hres. vm_compute. reflexivity.
    + etransitivity; [exact Hinner |]. vm_compute. reflexivity.
    + etransitivity; [exact Houter |]. vm_compute. reflexivity.
Defined.



(** Extraction succeeds and the publish faults: nothing is copied or
    written. *)
Lemma positive_result_never_touches_failed_bucket_run :
  count is_storage_copy
    (log (snd (DataExtractor.handle_invoice_classified
                 (double publish_faults) config (bus_event classified_b64)
                 world0))) = 0%nat
  /\ count is_storage_write
       (log (snd (DataExtractor.handle_invoice_classified
                    (double publish_faults) config
                    (bus_event classified_b64) world0))) = 0%nat.
Proof.
  destruct (positive_result_never_touches_failed_bucket
              (double publish_faults) config (bus_event classified_b64)
              world0 classified_message trace_context extracted_ok
              (snd (DataExtractor.reach_result (double publish_faults)
                      config (bus_event classified_b64)
                      (DataExtractor.entry_frame world0))))
    as (new & Hlog & Hcopy & Hwrite).
  - vm_compute. reflexivity.
  - reflexivity.
  - assert (Hnew :
      log (snd (DataExtractor.handle_invoice_classified
                  (double publish_faults) config (bus_event classified_b64)
                  world0)) = new).
    { exact Hlog. }
    rewrite Hnew. split; assumption.
Defined.

(** One converted file of four bytes: one image and four bytes. *)
Lemma extraction_downloads_every_converted_file_run :
  let run :=
    DataExtractor.download (double nominal) classified_message
      (DataExtractor.entry_frame world0) in
  fst run = Normal [png]
  /\ DataExtractor.total_input_bytes (snd run) = 4.
Proof.
  pose proof (extraction_downloads_every_converted_file
                (double nominal) classified_message [png]
                (DataExtractor.entry_frame world0)
                (snd (DataExtractor.download (double nominal)
                        classified_message
                        (DataExtractor.entry_frame world0)))) as Hrun.
  cbv zeta in Hrun.
  destruct Hrun as (_ & Hbytes & _).
  - vm_compute. reflexivity.
  - cbv zeta. split; [vm_compute; reflexivity |].
    etransitivity; [exact Hbytes |]. reflexivity.
Defined.

(** The positive result of the doubles, confidence 95/100: the trace is
    scored with that confidence next to the computed completeness. *)
Lemma scores_carry_the_result_confidence_run :
  exists scores comments,
    In (EScoreTrace "trace-1" scores comments None)
       (log (DataExtractor.world
               (snd (DataExtractor.annotate_scores (double nominal)
                       extracted_ok trace_context
                       (DataExtractor.entry_frame world0)))))
    /\ scores !! "extraction_confidence" = Some (95 # 100)%Q
    /\ scores !! "completeness" = Some 1%Q
    /\ comments !! "extraction_confidence"
       = Some "Provider: gemini, latency: 1200ms".
Proof.
  pose proof (scores_carry_the_result_confidence
                (double nominal) extracted_ok trace_context
                (DataExtractor.entry_frame world0) invoice
                {["completeness" := 1%Q]}
                {["completeness" := "all fields set"]}) as Hrun.
  cbv zeta in Hrun.
  destruct Hrun as (_ & Hlog & Hconfidence & Hothers & _).
  - reflexivity.
  - reflexivity.
  - reflexivity.
  - reflexivity.
  - eexists _, _. split; [| split; [| split]].
    + rewrite Hlog. apply in_or_app. right. left. reflexivity.
    + exact Hconfidence.
    + rewrite Hothers by discriminate. vm_compute. reflexivity.
    + vm_compute. reflexivity.
Defined.

(** The observer refuses the scores: the handler raises and nothing is
    published. *)
Lemma score_fault_comes_before_publish_run :
  fst (DataExtractor.handle_invoice_classified (double scores_refused)
         config (bus_event classified_b64) world0)
  = Raised observer_down
  /\ count is_publish
       (log (snd (DataExtractor.handle_invoice_classified
                    (double scores_refused) config
                    (bus_event classified_b64) world0))) = 0%nat.
Proof.
  pose proof (score_fault_comes_before_publish
                (double scores_refused) config (bus_event classified_b64)
                world0 classified_message trace_context extracted_ok
                (snd (DataExtractor.reach_result (double scores_refused)
                        config (bus_event classified_b64)
                        (DataExtractor.entry_frame world0)))
                (snd (DataExtractor.annotate_scores (double scores_refused)
                        extracted_ok trace_context
                        (@with_world _ DataExtractor.Frame_HasWorld
                           (record_event (double scores_refused)
                              (DataExtractor.extraction_successful_line
                                 "gs://in/a.tif" classified_message
                                 trace_context extracted_ok)
                              (DataExtractor.world
                                 (snd (DataExtractor.reach_result
                                         (double scores_refused) config
                                         (bus_event classified_b64)
                                         (DataExtractor.entry_frame
                                            world0)))))
                           (snd (DataExtractor.reach_result
                                   (double scores_refused) config
                                   (bus_event classified_b64)
                                   (DataExtractor.entry_frame world0))))))
                observer_down) as Hrun.
  cbv zeta in Hrun.
  destruct Hrun as (Hout & new & Hlog & Hpublish & _).
  - vm_compute. reflexivity.
  - reflexivity.
  - vm_compute. reflexivity.
  - split.
    + etransitivity; [exact Hout |]. vm_compute. reflexivity.
    + assert (Hnew :
        log (snd (DataExtractor.handle_invoice_classified
                    (double scores_refused) config
                    (bus_event classified_b64) world0)) = new).
      { exact Hlog. }
      rewrite Hnew. exact Hpublish.
Defined.

(** The same for the classification stage. *)
Lemma classification_downloads_every_converted_file_run :
  let run :=
    InvoiceClassifier.download (double nominal) converted_message
      (InvoiceClassifier.entry_frame world0) in
  fst run = Normal [png]
  /\ InvoiceClassifier.total_input_bytes (snd run) = 4.
Proof.
  pose proof (classification_downloads_every_converted_file
                (double nominal) converted_message [png]
                (InvoiceClassifier.entry_frame world0)
                (snd (InvoiceClassifier.download (double nominal)
                        converted_message
                        (InvoiceClassifier.entry_frame world0)))) as Hrun.
  cbv zeta in Hrun.
  destruct Hrun as (_ & Hbytes & _).
  - vm_compute. reflexivity.
  - cbv zeta. split; [vm_compute; reflexivity |].
    etransitivity; [exact Hbytes |]. reflexivity.
Defined.


(** The body of the timer's unit tests stores a metric of its own in the
    handle: it is still there after the scope. *)
Lemma function_timer_touches_only_the_duration_run :
  default ∅ (heap (snd (function_timer sleepy_body world0)) !! 1%positive)
    !! "custom_metric"
  = Some 42.
Proof.
  destruct (function_timer_touches_only_the_duration sleepy_body world0)
    as (Hkeys & _).
  etransitivity; [apply Hkeys; discriminate |].
  vm_compute. reflexivity.
Defined.

(** A source that is no storage URI: the router logs the parse error and
    returns. *)
Lemma router_is_total_and_stays_in_failed_bucket_run :
  let run :=
    _copy_to_failed_bucket (double nominal) config "in/a.tif"
      "provider timeout" world0 in
  fst run = Normal tt
  /\ log (snd run)
     = [ELog ERROR "Failed to copy to failed bucket"
          [("source_file", LStr "in/a.tif");
           ("error", LStr (exn_str (mkExn "ValueError" "Invalid GCS URI")))]].
Proof.
  destruct (router_is_total_and_stays_in_failed_bucket
              (double nominal) config "in/a.tif" "provider timeout" world0)
    as (Hout & _ & _ & Hparse).
  cbv zeta. split; [exact Hout |].
  apply Hparse. vm_compute. reflexivity.
Defined.



End MoreRuns.
